(** * Prompt quiz API: the AI orchestration pipeline

    A shallow embedding of the answer-generation and judgement functions
    ([generateAnswers.ts], [generateJudgements.ts]) and the properties of
    their sanitizer, response parser, poll loop, conversation runner,
    fan-outs and score aggregation; of the handlers that open a game,
    register its players and show it ([createNewGame.ts], [playerReg],
    [getGame.ts]); of the leaderboard ([getLeaderBoard.ts]); and of the
    earlier revisions of the parser and of the question selection that
    the repository keeps.

    Part I holds the model, one module per source unit; Part II the
    theorems. *)

From Stdlib Require Import NArith ZArith List Bool Lia String Ascii.
From stdpp Require Import base option list gmap.

Local Open Scope N_scope.

(* ===================================================================== *)
(** * Part I: the model                                                   *)
(* ===================================================================== *)

(** ** JavaScript strings

    A JavaScript string is a sequence of UTF-16 code units; the regular
    expressions of the source carry no [u] flag, so they read code units. *)
Module JS.

Abbreviation char := N (only parsing).
Abbreviation jsstring := (list N) (only parsing).

(** The code units of an ASCII literal of the source. *)
Definition codes (s : string) : jsstring :=
  map N_of_ascii (list_ascii_of_string s).

(** [\s]: WhiteSpace and LineTerminator of ECMAScript. *)
Definition isSpace (c : char) : bool :=
  ((9 <=? c) && (c <=? 13)) || (c =? 32) || (c =? 160) || (c =? 5760)
  || ((8192 <=? c) && (c <=? 8202)) || (c =? 8232) || (c =? 8233)
  || (c =? 8239) || (c =? 8287) || (c =? 12288) || (c =? 65279).

(** [\d]: 0-9. *)
Definition isDigit (c : char) : bool := (48 <=? c) && (c <=? 57).

Definition isUpper (c : char) : bool := (65 <=? c) && (c <=? 90).
Definition isLower (c : char) : bool := (97 <=? c) && (c <=? 122).

(** [\w]: A-Z, a-z, 0-9 and underscore. *)
Definition isWord (c : char) : bool :=
  isUpper c || isLower c || isDigit c || (c =? 95).

(** Canonicalize of a regular expression with the [i] flag and without
    the [u] flag, on the code units it can send to an ASCII letter: a
    lower-case ASCII letter goes to its capital; a code unit above 127
    never canonicalizes to an ASCII one. *)
Definition canon (c : char) : char := if isLower c then c - 32 else c.

Fixpoint dropSpaces (s : jsstring) : jsstring :=
  match s with
  | [] => []
  | c :: t => if isSpace c then dropSpaces t else s
  end.

Definition trimStart (s : jsstring) : jsstring := dropSpaces s.
Definition trimEnd (s : jsstring) : jsstring := rev (dropSpaces (rev s)).

(** [String.prototype.trim]. *)
Definition trim (s : jsstring) : jsstring := trimEnd (trimStart s).

Fixpoint startsWith (w s : jsstring) : bool :=
  match w, s with
  | [], _ => true
  | a :: w', b :: s' => (a =? b) && startsWith w' s'
  | _ :: _, [] => false
  end.

(** [String.prototype.includes]. *)
Fixpoint includes (w s : jsstring) : bool :=
  startsWith w s ||
  match s with
  | [] => false
  | _ :: s' => includes w s'
  end.

(** Numbers.  The numbers of these programs are integers held in
    doubles; a number is kept as the integer it holds.  [double z] is the
    double nearest to the integer [z]: below 2^53 every integer is a
    double; from there on a double has 53 significant bits, and an
    integer half way between two doubles goes to the one whose last bit
    is 0.  Integers from 2^1024 - 2^970 on, which round to Infinity, are
    outside the model. *)
Definition nearest (z : Z) : Z :=
  let e := (Z.log2 z - 52)%Z in
  if (e <=? 0)%Z then z
  else
    let ulp := (2 ^ e)%Z in
    let q := (z / ulp)%Z in
    let r := (z mod ulp)%Z in
    if (2 * r <? ulp)%Z || ((2 * r =? ulp)%Z && Z.even q)
    then (q * ulp)%Z
    else ((q + 1) * ulp)%Z.

Definition double (z : Z) : Z := (Z.sgn z * nearest (Z.abs z))%Z.

(** [a + b] on numbers: the exact sum, rounded. *)
Definition add (a b : Z) : Z := double (a + b).

(** The integer that a string of decimal digits writes. *)
Definition digitsValue (ds : jsstring) : Z :=
  fold_left (fun acc d => (10 * acc + (Z.of_N d - 48))%Z) ds 0%Z.

(** [parseInt] on a string of decimal digits (what [(\d+)] captures):
    the number nearest to the integer written. *)
Definition parseInt (ds : jsstring) : Z := double (digitsValue ds).

(** The decimal digits of a number, the last one first; [fuel] above the
    number of digits is never used up. *)
Fixpoint digitsRev (fuel : nat) (n : N) : jsstring :=
  match fuel with
  | O => []
  | S f => (48 + n mod 10) :: (if n / 10 =? 0 then [] else digitsRev f (n / 10))
  end.

(** A number written in decimal, without leading zeros. *)
Definition numeral (n : N) : jsstring := rev (digitsRev (S (N.to_nat n)) n).

(** The leading run of whitespace. *)
Fixpoint takeSpaces (s : jsstring) : jsstring :=
  match s with
  | [] => []
  | c :: t => if isSpace c then c :: takeSpaces t else []
  end.

(** Whether a string starts, or ends, with whitespace. *)
Definition startsWithSpace (s : jsstring) : bool :=
  match s with c :: _ => isSpace c | [] => false end.

Definition endsWithSpace (s : jsstring) : bool :=
  match last s with Some c => isSpace c | None => false end.

(** A call either returns or throws an [Error] with a message. *)
Inductive outcome (A : Type) : Type :=
| Ok (a : A)
| Throw (msg : jsstring).
Arguments Ok {A} a.
Arguments Throw {A} msg.

End JS.

(** ** Regular expressions

    The backtracking matcher of ECMAScript, for the operators the source
    uses.  A matcher takes the continuation that matches the rest of the
    pattern; alternatives are tried in order and the first success wins. *)
Module Regex.
Import JS.

Inductive regex : Type :=
| Eps                                  (* the empty pattern *)
| Cls (p : char -> bool)               (* one code unit of a class *)
| Seq (r1 r2 : regex)
| Alt (r1 r2 : regex)                  (* r1|r2 *)
| Star (greedy : bool) (r : regex)     (* r* and r*? *)
| Grp (i : nat) (r : regex)            (* capturing group number i *)
| Bol                                  (* ^ without the m flag *)
| Eol                                  (* $ without the m flag *)
| Ahead (r : regex).                   (* (?=r) *)

(** Where the matcher stands: the index in the input and what is left. *)
Abbreviation state := (nat * list N)%type (only parsing).
Abbreviation caps := (list (nat * list N)) (only parsing).
Abbreviation result := ((nat * list N) * list (nat * list N))%type (only parsing).
Abbreviation cont :=
  (nat * list N -> list (nat * list N)
   -> option ((nat * list N) * list (nat * list N))) (only parsing).

Definition final : cont := fun st cs => Some (st, cs).

(** Iteration: an iteration that consumes nothing is rejected, so [fuel]
    above the length of the input left is never used up. *)
Fixpoint star (fuel : nat) (greedy : bool) (body : cont -> cont) (k : cont)
    (st : state) (cs : caps) : option result :=
  match fuel with
  | O => k st cs
  | S f =>
      let again : cont := fun st' cs' =>
        if (fst st' =? fst st)%nat then None else star f greedy body k st' cs' in
      if greedy then
        match body again st cs with
        | Some res => Some res
        | None => k st cs
        end
      else
        match k st cs with
        | Some res => Some res
        | None => body again st cs
        end
  end.

Fixpoint m (r : regex) (k : cont) (st : state) (cs : caps) : option result :=
  match r with
  | Eps => k st cs
  | Cls p =>
      match snd st with
      | c :: s => if p c then k (S (fst st), s) cs else None
      | [] => None
      end
  | Seq r1 r2 => m r1 (m r2 k) st cs
  | Alt r1 r2 =>
      match m r1 k st cs with
      | Some res => Some res
      | None => m r2 k st cs
      end
  | Star g r1 => star (S (length (snd st))) g (m r1) k st cs
  | Grp i r1 =>
      m r1 (fun st' cs' =>
              k st' ((i, take (fst st' - fst st) (snd st)) :: cs')) st cs
  | Bol => if (fst st =? 0)%nat then k st cs else None
  | Eol => match snd st with [] => k st cs | _ :: _ => None end
  | Ahead r1 =>
      match m r1 final st cs with
      | Some (_, cs') => k st cs'
      | None => None
      end
  end.

Definition Plus (g : bool) (r : regex) : regex := Seq r (Star g r).
Definition Opt (r : regex) : regex := Alt r Eps.

(** A literal, and a literal under the [i] flag. *)
Definition lit (w : jsstring) : regex :=
  fold_right (fun c r => Seq (Cls (N.eqb c)) r) Eps w.
Definition liti (w : jsstring) : regex :=
  fold_right (fun c r => Seq (Cls (fun x => canon x =? canon c)) r) Eps w.

Definition space : regex := Cls isSpace.
Definition nonspace : regex := Cls (fun c => negb (isSpace c)).
Definition digit : regex := Cls isDigit.
Definition any : regex := Cls (fun _ => true).   (* [\s\S] *)

(** The leftmost match: the start indices are tried in order. *)
Fixpoint searchFrom (r : regex) (n : nat) (s : jsstring)
    : option (nat * result) :=
  match m r final (n, s) [] with
  | Some res => Some (n, res)
  | None =>
      match s with
      | [] => None
      | _ :: s' => searchFrom r (S n) s'
      end
  end.

(** [RegExp.prototype.exec] of a pattern without the [g] and [y] flags,
    which is also [String.prototype.match] for such a pattern: the index
    of the match, where it ends, and the groups. *)
Definition exec (r : regex) (s : jsstring) : option (nat * result) :=
  searchFrom r 0 s.

(** [match[i]] for a group that took part in the match. *)
Fixpoint group (i : nat) (cs : caps) : jsstring :=
  match cs with
  | [] => []
  | (j, v) :: cs' => if (i =? j)%nat then v else group i cs'
  end.

Definition group_of (i : nat) (res : nat * result) : jsstring :=
  group i (snd (snd res)).

(** [String.prototype.replace] with a pattern without the [g] flag and
    the empty replacement: the first match is cut out. *)
Definition removeFirst (r : regex) (s : jsstring) : jsstring :=
  match exec r s with
  | None => s
  | Some (i, ((e, _), _)) => take i s ++ drop e s
  end.

(** [String.prototype.replace] with a pattern with the [g] flag and a
    replacement without dollar signs: the matches are found from left to
    right, each search starting where the match before it ended (one code
    unit further after an empty match), and each is replaced.  [s] is the
    input from index [n] on; [fuel] above its length is never used up. *)
Fixpoint replaceFrom (fuel : nat) (r : regex) (rep : jsstring) (n : nat)
    (s : jsstring) : jsstring :=
  match fuel with
  | O => s
  | S f =>
      match searchFrom r n s with
      | None => s
      | Some (i, ((e, rest), _)) =>
          take (i - n) s ++ rep ++
          if (e =? i)%nat then
            match rest with
            | [] => []
            | c :: rest' => c :: replaceFrom f r rep (S e) rest'
            end
          else replaceFrom f r rep e rest
      end
  end.

Definition replaceAll (r : regex) (rep : jsstring) (s : jsstring) : jsstring :=
  replaceFrom (S (length s)) r rep 0 s.

(** The class a pattern must read first, when it starts with one. *)
Fixpoint firstp (r : regex) : option (char -> bool) :=
  match r with
  | Cls p => Some p
  | Seq r1 _ => firstp r1
  | Grp _ r1 => firstp r1
  | _ => None
  end.

(** What comes after a run: nothing, or a code unit outside the class. *)
Definition stops (p : char -> bool) (s : jsstring) : bool :=
  match s with [] => true | c :: _ => negb (p c) end.

(** The literal [w] cannot be read at the start of [b], whatever follows
    [b]: they differ at a place inside both. *)
Fixpoint clash (w b : jsstring) : bool :=
  match w, b with
  | a :: w', c :: b' => if canon c =? canon a then clash w' b' else true
  | _, _ => false
  end.

(** The literal [w] cannot be read from any place of [pre]. *)
Fixpoint noStart (w pre : jsstring) : bool :=
  match pre with
  | [] => true
  | c :: pre' => clash w pre && noStart w pre'
  end.

End Regex.

(** ** The response parser of [generateJudgements.ts] *)
Module Parser.
Import JS Regex.

Definition nl : jsstring := [10].

(** Line 304: three backticks, a lazy capture, three backticks. *)
Definition codeBlockRe : regex :=
  Seq (lit (codes "```"))
    (Seq (Grp 1 (Star false any)) (lit (codes "```"))).

(** Line 310: [^###\s*Evaluation:?\s*] with the [i] flag. *)
Definition header1Re : regex :=
  Seq Bol
    (Seq (liti (codes "###"))
       (Seq (Star true space)
          (Seq (liti (codes "Evaluation"))
             (Seq (Opt (liti (codes ":"))) (Star true space))))).

(** Line 311, with the [i] flag: at the start, an optional pair of
    asterisks, Evaluation, an optional pair of asterisks, an optional
    colon, whitespace, an optional line feed. *)
Definition header2Re : regex :=
  Seq Bol
    (Seq (Opt (liti (codes "**")))
       (Seq (liti (codes "Evaluation"))
          (Seq (Opt (liti (codes "**")))
             (Seq (Opt (liti (codes ":")))
                (Seq (Star true space) (Opt (lit nl))))))).

(** The shape of the twelve score patterns of lines 319-340, all with
    the [i] flag: the literal [w1], whitespace (one or more), the literal
    [w2], whitespace (any), and group 1 of one or more digits. *)
Definition labelRe (w1 w2 : jsstring) : regex :=
  Seq (liti w1)
    (Seq (Plus true space)
       (Seq (liti w2)
          (Seq (Star true space) (Grp 1 (Plus true digit))))).

(** The three patterns tried in order for the score called [label]. *)
Definition scoreRes (label : string) : list regex :=
  [ labelRe (codes "**" ++ codes label) (codes "Score:**");
    labelRe (codes "**" ++ codes label) (codes "Score**:");
    labelRe (codes label) (codes "Score:") ].

(** The lookaheads of lines 345, 348 and 350: a line feed and two
    asterisks (345, 348) or a line feed, non-whitespace and a colon (350);
    else a line feed at the end; else the end. *)
Definition lookBold : regex :=
  Alt (lit (nl ++ codes "**")) (Alt (Seq (lit nl) Eol) Eol).
Definition lookPlain : regex :=
  Alt (Seq (lit nl) (Seq (Plus true nonspace) (lit (codes ":"))))
    (Alt (Seq (lit nl) Eol) Eol).

(** The shape of the justification patterns, with the [i] flag: the
    literal [w], whitespace (any), group 1 of one or more code units
    taken lazily, and the lookahead [look]. *)
Definition justRe (w : jsstring) (look : regex) : regex :=
  Seq (liti w)
    (Seq (Star true space) (Seq (Grp 1 (Plus false any)) (Ahead look))).

Definition justificationRes : list regex :=
  [ justRe (codes "**Justification:**") lookBold;
    justRe (codes "**Justification**:") lookBold;
    justRe (codes "Justification:") lookPlain ].

(** [s.match(r1) || s.match(r2) || ...]: the first pattern that matches. *)
Fixpoint firstMatch (rs : list regex) (s : jsstring) : option (nat * result) :=
  match rs with
  | [] => None
  | r :: rs' =>
      match exec r s with
      | Some res => Some res
      | None => firstMatch rs' s
      end
  end.

Record parsed : Type := {
  contextScore : Z;
  technicalScore : Z;
  clarityScore : Z;
  totalScore : Z;
  justification : jsstring
}.

(** Lines 304-311: the code fence and the header are taken off. *)
Definition stripWrapping (response : jsstring) : jsstring :=
  let response :=
    match exec codeBlockRe response with
    | Some res => trim (group_of 1 res)
    | None => response
    end in
  let response := removeFirst header1Re response in
  removeFirst header2Re response.

Definition parseFormattedResponse (response : jsstring) : outcome parsed :=
  let response := stripWrapping response in
  let contextMatch := firstMatch (scoreRes "Context") response in
  let technicalMatch := firstMatch (scoreRes "Technical") response in
  let clarityMatch := firstMatch (scoreRes "Clarity") response in
  let finalMatch := firstMatch (scoreRes "Final") response in
  let justificationMatch := firstMatch justificationRes response in
  match contextMatch with
  | None => Throw (codes "Could not parse Context Score")
  | Some cm =>
  match technicalMatch with
  | None => Throw (codes "Could not parse Technical Score")
  | Some tm =>
  match clarityMatch with
  | None => Throw (codes "Could not parse Clarity Score")
  | Some lm =>
  match finalMatch with
  | None => Throw (codes "Could not parse Final Score")
  | Some fm =>
  match justificationMatch with
  | None => Throw (codes "Could not parse Justification")
  | Some jm =>
      Ok {| contextScore := parseInt (group_of 1 cm);
            technicalScore := parseInt (group_of 1 tm);
            clarityScore := parseInt (group_of 1 lm);
            totalScore := parseInt (group_of 1 fm);
            justification := trim (group_of 1 jm) |}
  end end end end end.

(** The two layouts of a response that the parser is written for: plain
    labels, and emphasized labels with the denominators 300, 400, 300
    and 1000. *)
Definition plainForm (c t l f j : jsstring) : jsstring :=
  codes "Context Score: " ++ c ++ nl ++
  codes "Technical Score: " ++ t ++ nl ++
  codes "Clarity Score: " ++ l ++ nl ++
  codes "Final Score: " ++ f ++ nl ++
  codes "Justification: " ++ j.

Definition emphasizedForm (c t l f j : jsstring) : jsstring :=
  codes "**Context Score:** " ++ c ++ codes "/300" ++ nl ++
  codes "**Technical Score:** " ++ t ++ codes "/400" ++ nl ++
  codes "**Clarity Score:** " ++ l ++ codes "/300" ++ nl ++
  codes "**Final Score:** " ++ f ++ codes "/1000" ++ nl ++
  codes "**Justification:** " ++ j.

(** What the parser is to return for the numerals [c], [t], [l], [f] and
    the justification line [j]. *)
Definition judged (c t l f j : jsstring) : parsed :=
  {| contextScore := parseInt c;
     technicalScore := parseInt t;
     clarityScore := parseInt l;
     totalScore := parseInt f;
     justification := trim j |}.

(** A score as written: one to fifteen decimal digits, so that its value
    is a safe integer and [parseInt] is exact on it. *)
Definition isNumeral (ds : jsstring) : bool :=
  match ds with
  | [] => false
  | _ => forallb isDigit ds && (length ds <=? 15)%nat
  end.

(** A justification line: one line, free of emphasis marks and backticks,
    with something other than whitespace on it. *)
Definition isLine (j : jsstring) : bool :=
  forallb (fun c => negb (c =? 10) && negb (c =? 42) && negb (c =? 96)) j
  && negb (forallb isSpace j).

(** The vocabulary of the proofs about the parser. *)
Definition startsNonSpace (w : jsstring) : bool :=
  match w with c :: _ => negb (isSpace c) | [] => false end.

(** Where the text has no asterisk (no backtick), no pattern that starts
    with one matches. *)
Definition noStar (c : char) : bool := negb (canon c =? canon 42).
Definition noTick (c : char) : bool := negb (96 =? c).

(** The lookaheads fail before any code unit but a line feed, and hold at
    the end of the input. *)
Definition lookahead_ok (look : regex) : Prop :=
  (forall n c t cs, (c =? 10) = false -> m look final (n, c :: t) cs = None)
  /\ (forall n cs, m look final (n, []) cs = Some ((n, []), cs)).

End Parser.

(** ** The poll loop of [generateJudgements.ts]: [waitForRunCompletion] *)
Module Poll.
Import JS Regex.

(** What [runs.retrieve] returns: the status and the message of
    [last_error], when there is one. *)
Record run : Type := {
  status : jsstring;
  last_error : option jsstring
}.

Definition eqs (a b : jsstring) : bool := bool_decide (a = b).

Definition maxAttempts : nat := 30.

(** Line 406: [Try again in (\d+) seconds], without flags. *)
Definition retryAfterRe : regex :=
  Seq (lit (codes "Try again in "))
    (Seq (Grp 1 (Plus true digit)) (lit (codes " seconds"))).

(** Lines 405-411: the seconds to wait, 60 when the message names none. *)
Definition waitTime (message : jsstring) : Z :=
  match exec retryAfterRe message with
  | Some res => parseInt (group_of 1 res)
  | None => 60
  end.

(** Line 402. *)
Definition isRateLimit (message : jsstring) : bool :=
  includes (codes "Rate limit") message.

(** What the [switch] of lines 383-400 does with a run. *)
Inductive verdict : Type :=
| Return (r : run)
| Raise (message : jsstring)
| Again.

Definition inspect (r : run) : verdict :=
  if eqs (status r) (codes "completed") then Return r
  else if eqs (status r) (codes "failed") then
    Raise (codes "Run failed" ++
           match last_error r with
           | Some e => codes ": " ++ e
           | None => []
           end)
  else if eqs (status r) (codes "cancelled") || eqs (status r) (codes "expired")
  then Raise (codes "Run " ++ status r)
  else if eqs (status r) (codes "requires_action")
  then Raise (codes "Run requires action - not supported")
  else Again.

(** One attempt inside the [try]: the retrieve call may itself throw. *)
Definition attempt (o : outcome run) : verdict :=
  match o with
  | Ok r => inspect r
  | Throw message => Raise message
  end.

(** How the loop ends.  [Polling] stands for a loop that is about to
    call retrieve again when the script of what the service answers is
    over. *)
Inductive ending : Type :=
| Completed (r : run)
| Failed (message : jsstring)
| Polling.

(** A run of the loop: its ending, the number of retrieve calls, and the
    milliseconds of each [setTimeout], in order. *)
Record polled : Type := {
  ending_of : ending;
  polls : nat;
  sleeps : list Z
}.

Definition stop (e : ending) : polled :=
  {| ending_of := e; polls := 0; sleeps := [] |}.

(** One more retrieve call in front of a run. *)
Definition called (p : polled) : polled :=
  {| ending_of := ending_of p; polls := S (polls p); sleeps := sleeps p |}.

(** One more sleep in front of a run. *)
Definition slept (ms : Z) (p : polled) : polled :=
  {| ending_of := ending_of p; polls := polls p; sleeps := ms :: sleeps p |}.

(** Lines 376-421, from [attempts] on; [script] lists what the retrieve
    calls answer, in order. *)
Fixpoint pollFrom (attempts : nat) (script : list (outcome run)) : polled :=
  if (attempts <? maxAttempts)%nat then
    match script with
    | [] => stop Polling
    | o :: script' =>
        called
          match attempt o with
          | Return r => stop (Completed r)
          | Again => slept 1000 (pollFrom (S attempts) script')
          | Raise message =>
              if isRateLimit message
              then slept (waitTime message * 1000) (pollFrom attempts script')
              else stop (Failed message)
          end
    end
  else stop (Failed (codes "Run timed out after 30 seconds")).

Definition waitForRunCompletion (script : list (outcome run)) : polled :=
  pollFrom 0 script.

(** A status that the [switch] sends to its default branch. *)
Definition nonTerminal (r : run) : bool :=
  match inspect r with Again => true | _ => false end.

Definition stillRunning (o : outcome run) : bool :=
  match o with
  | Ok r => nonTerminal r
  | Throw _ => false
  end.

Definition in_progress : run :=
  {| status := codes "in_progress"; last_error := None |}.
Definition queued : run :=
  {| status := codes "queued"; last_error := None |}.
Definition completed : run :=
  {| status := codes "completed"; last_error := None |}.
Definition failedWith (e : option jsstring) : run :=
  {| status := codes "failed"; last_error := e |}.

(** An attempt that ends in the rate-limit branch of the [catch]. *)
Definition rateLimited (o : outcome run) : bool :=
  match attempt o with
  | Raise message => isRateLimit message
  | _ => false
  end.

Definition timedOut : ending := Failed (codes "Run timed out after 30 seconds").

(** The message of the error thrown for a failed run. *)
Definition failedMessage (e : option jsstring) : jsstring :=
  codes "Run failed" ++
  match e with Some msg => codes ": " ++ msg | None => [] end.

End Poll.

(** ** The input sanitizer of [generateAnswers.ts] *)
Module Sanitizer.
Import JS Regex.

(** The punctuation of the allow-list of line 291: full stop, comma,
    question mark, exclamation mark, semicolon, colon, both parentheses,
    apostrophe and double quote. *)
Definition isPunct (c : char) : bool :=
  (c =? 46) || (c =? 44) || (c =? 63) || (c =? 33) || (c =? 59)
  || (c =? 58) || (c =? 40) || (c =? 41) || (c =? 39) || (c =? 34).

Definition allowed (c : char) : bool := isWord c || isSpace c || isPunct c.

(** Line 290: [^\s+|\s+$]. *)
Definition endsRe : regex :=
  Alt (Seq Bol (Plus true space)) (Seq (Plus true space) Eol).

(** Line 291: one code unit outside the allow-list. *)
Definition specialRe : regex := Cls (fun c => negb (allowed c)).

(** Line 292: [\s+]. *)
Definition spacesRe : regex := Plus true space.

(** [sanitizeInput]: the empty string is falsy and returned as it is;
    else the three global replaces of lines 290-292. *)
Definition sanitizeInput (input : jsstring) : jsstring :=
  match input with
  | [] => []
  | _ =>
      replaceAll spacesRe [32]
        (replaceAll specialRe [32] (replaceAll endsRe [] input))
  end.

(** What the three replaces compute.  Line 290: the leading and the
    trailing run of whitespace are removed. *)
Definition stripEnds (s : jsstring) : jsstring := trimEnd (trimStart s).

(** Line 291: every code unit outside the allow-list becomes a space. *)
Definition replaceSpecial (s : jsstring) : jsstring :=
  map (fun c => if allowed c then c else 32) s.

(** Line 292: every maximal run of whitespace becomes one space, emitted
    here at the last code unit of the run. *)
Fixpoint normalizeSpaces (s : jsstring) : jsstring :=
  match s with
  | [] => []
  | c :: t =>
      if isSpace c then
        match t with
        | [] => [32]
        | c' :: _ => if isSpace c' then normalizeSpaces t
                     else 32 :: normalizeSpaces t
        end
      else c :: normalizeSpaces t
  end.

Fixpoint noSpaceRun (s : jsstring) : bool :=
  match s with
  | [] => true
  | c :: t => negb (isSpace c && startsWithSpace t) && noSpaceRun t
  end.

End Sanitizer.

(** ** The documents and the HTTP responses *)
Module Docs.
Import JS.

Module JudgeQuestion.
Record t : Type := { id : jsstring; content : jsstring }.
End JudgeQuestion.

(** The judge profile of a game; [theme] and [questions] may be absent. *)
Module Judge.
Record t : Type := {
  theme : option jsstring;
  asst_id : jsstring;
  questions : option (list JudgeQuestion.t)
}.
End Judge.

Module AIAnswer.
Record t : Type := {
  id : jsstring;
  gameId : jsstring;
  playerId : jsstring;
  playerName : jsstring;
  questionId : jsstring;
  question : jsstring;
  assistantPrompt : option jsstring;
  answer : jsstring;
  timestamp : jsstring
}.
End AIAnswer.

Module AIAnswerError.
Record t : Type := {
  playerId : jsstring;
  questionId : jsstring;
  error : jsstring;
  details : option jsstring
}.
End AIAnswerError.

Module Judgement.
Record t : Type := {
  id : jsstring;
  gameId : jsstring;
  aiAnswerId : jsstring;
  playerId : jsstring;
  playerName : jsstring;
  questionId : jsstring;
  contextScore : Z;
  technicalScore : Z;
  clarityScore : Z;
  totalScore : Z;
  justification : jsstring;
  timestamp : jsstring
}.
End Judgement.

(** A player document; [prompt], [totalScore] and [themeName] are absent
    until they are written. *)
Module Player.
Record t : Type := {
  id : jsstring;
  gameId : jsstring;
  screenName : jsstring;
  email : jsstring;
  prompt : option jsstring;
  totalScore : option Z;
  themeName : option jsstring
}.
End Player.

(** A game document; an absent [aiResponses] or [judgements] reads as the
    empty list. *)
Module Game.
Record t : Type := {
  id : jsstring;
  status : jsstring;
  judge : option Judge.t;
  aiResponses : list AIAnswer.t;
  judgements : list Judgement.t
}.
End Game.

(** One entry of the answer fan-out: the two are told apart by the
    presence of the [error] field. *)
Inductive entry : Type :=
| Answer (a : AIAnswer.t)
| AnswerError (e : AIAnswerError.t).

Inductive body : Type :=
| ErrorBody (error : jsstring) (message : option jsstring)
| AnswersBody (message gameId : jsstring)
    (processedCount errorCount totalPlayers totalQuestions expectedTotal : nat)
    (responses : list entry)
| JudgementsBody (message gameId : jsstring) (processedCount : nat)
    (judgements : list Judgement.t).

Record HttpResponse : Type := { status : nat; jsonBody : body }.

(** The two containers.  A player is read and patched by its id and its
    partition key, the id of its game. *)
Record store : Type := {
  games : gmap (list N) Game.t;
  players : gmap (list N * list N) Player.t
}.

(** [patch] with one operation [add] at the path of a property: the
    property is created, or its value replaced when it exists. *)
Definition addAiResponses (v : list AIAnswer.t) (g : Game.t) : Game.t :=
  {| Game.id := Game.id g; Game.status := Game.status g;
     Game.judge := Game.judge g;
     Game.aiResponses := v;
     Game.judgements := Game.judgements g |}.

Definition addJudgements (v : list Judgement.t) (g : Game.t) : Game.t :=
  {| Game.id := Game.id g; Game.status := Game.status g;
     Game.judge := Game.judge g;
     Game.aiResponses := Game.aiResponses g;
     Game.judgements := v |}.

Definition addScore (total : Z) (theme : jsstring) (p : Player.t) : Player.t :=
  {| Player.id := Player.id p; Player.gameId := Player.gameId p;
     Player.screenName := Player.screenName p; Player.email := Player.email p;
     Player.prompt := Player.prompt p;
     Player.totalScore := Some total;
     Player.themeName := Some theme |}.

Definition eqs (a b : jsstring) : bool := bool_decide (a = b).

End Docs.

(** ** The conversation runner of [generateJudgements.ts]

    The callback of lines 102-195, for one answer. *)
Module Runner.
Import JS Poll Parser Docs.

(** A content block of an assistant message. *)
Inductive content : Type :=
| TextBlock (value : jsstring)
| OtherBlock.

(** What the assistant service answers during one conversation. *)
Record conversation : Type := {
  createThread : outcome (list N);          (* threads.create: thread.id *)
  createMessage : outcome unit;             (* threads.messages.create *)
  createRun : outcome (list N);             (* threads.runs.create: run.id *)
  retrieves : list (outcome run);           (* threads.runs.retrieve, in order *)
  listMessages : outcome (option (list (list content)));
                                            (* threads.messages.list: data *)
  delThread : outcome unit;                 (* threads.del *)
  now : list N                              (* new Date().toISOString() *)
}.

(** The calls made and the errors logged, in order. *)
Inductive event : Type :=
| ThreadCreated
| MessagePosted (text : jsstring)
| RunStarted (assistant_id : jsstring)
| RunPolled (p : polled)
| MessagesListed
| ThreadDeleted (thread : jsstring)
| ErrorLogged (text : jsstring).

(** How a block of code ends: with a value, with a thrown error, or not
    at all ([Stuck]: the poll loop is still polling). *)
Inductive step (A : Type) : Type :=
| Value (a : A)
| Fault (message : jsstring)
| Stuck.
Arguments Value {A} a.
Arguments Fault {A} message.
Arguments Stuck {A}.

(** Sequential code that logs events and may throw. *)
Definition M (A : Type) : Type := list event * step A.

Definition ret {A} (a : A) : M A := ([], Value a).
Definition fault {A} (message : jsstring) : M A := ([], Fault message).
Definition bind {A B} (x : M A) (k : A -> M B) : M B :=
  match x with
  | (t, Value a) => let (t', r) := k a in (t ++ t', r)
  | (t, Fault message) => (t, Fault message)
  | (t, Stuck) => (t, Stuck)
  end.

Notation "x <- c1 ;; c2" := (bind c1 (fun x => c2))
  (at level 100, c1 at next level, right associativity).

(** An awaited call of the service. *)
Definition call {A} (e : event) (o : outcome A) : M A :=
  ([e], match o with Ok a => Value a | Throw message => Fault message end).

Definition lift {A} (o : outcome A) : M A :=
  ([], match o with Ok a => Value a | Throw message => Fault message end).

Definition poll (script : list (outcome run)) : M run :=
  let p := waitForRunCompletion script in
  ([RunPolled p],
   match ending_of p with
   | Completed r => Value r
   | Failed message => Fault message
   | Polling => Stuck
   end).

(** Line 111: the user turn, the question and the answer in double
    quotes. *)
Definition userTurn (response : AIAnswer.t) : jsstring :=
  codes "Q: " ++ [34] ++ AIAnswer.question response ++ [34] ++ [10; 10] ++
  codes "A: " ++ [34] ++ AIAnswer.answer response ++ [34].

(** Lines 141-143: the first block that has a [text] property. *)
Fixpoint findText (blocks : list content) : option jsstring :=
  match blocks with
  | [] => None
  | TextBlock v :: _ => Some v
  | OtherBlock :: blocks' => findText blocks'
  end.

(** Lines 105-175, the [try] block. *)
Definition tryBlock (gameId : jsstring) (judge : option Judge.t)
    (c : conversation) (response : AIAnswer.t) : M Judgement.t :=
  thread <- call ThreadCreated (createThread c) ;;
  _ <- call (MessagePosted (userTurn response)) (createMessage c) ;;
  assistant <-
    match judge with
    | Some j => ret (Judge.asst_id j)
    | None => fault (codes "Cannot read properties of undefined (reading 'asst_id')")
    end ;;
  run <- call (RunStarted assistant) (createRun c) ;;
  completedRun <- poll (retrieves c) ;;
  data <- call MessagesListed (listMessages c) ;;
  lastMessage <-
    match data with
    | None | Some [] => fault (codes "No messages found in thread")
    | Some (msg :: _) => ret msg
    end ;;
  text <-
    match findText lastMessage with
    | Some v => ret v
    | None => fault (codes "No text content found in assistant response")
    end ;;
  judgementContent <- lift (parseFormattedResponse text) ;;
  ret {| Judgement.id := gameId ++ codes "-judge-" ++ AIAnswer.id response;
         Judgement.gameId := gameId;
         Judgement.aiAnswerId := AIAnswer.id response;
         Judgement.playerId := AIAnswer.playerId response;
         Judgement.playerName := AIAnswer.playerName response;
         Judgement.questionId := AIAnswer.questionId response;
         Judgement.contextScore := contextScore judgementContent;
         Judgement.technicalScore := technicalScore judgementContent;
         Judgement.clarityScore := clarityScore judgementContent;
         Judgement.totalScore := totalScore judgementContent;
         Judgement.justification := justification judgementContent;
         Judgement.timestamp := now c |}.

(** Lines 182-194, the [finally] block: the thread is deleted when one
    was created and has an id; an error of the deletion is logged. *)
Definition cleanUp (c : conversation) : list event :=
  match createThread c with
  | Ok thread =>
      match thread with
      | [] => []
      | _ :: _ =>
          ThreadDeleted thread ::
          match delThread c with
          | Ok _ => []
          | Throw _ => [ErrorLogged (codes "Error cleaning up thread:")]
          end
      end
  | Throw _ => []
  end.

(** Lines 176-181, the [catch] block: the error is logged and thrown on. *)
Definition logFault {A} (response : AIAnswer.t) (r : step A) : list event :=
  match r with
  | Fault _ =>
      [ErrorLogged (codes "Error processing response " ++ AIAnswer.id response
                    ++ codes ":")]
  | _ => []
  end.

(** The whole callback.  When the poll loop never ends, neither [catch]
    nor [finally] is reached. *)
Definition judgeAnswer (gameId : jsstring) (judge : option Judge.t)
    (c : conversation) (response : AIAnswer.t) : M Judgement.t :=
  let (t, r) := tryBlock gameId judge c response in
  match r with
  | Stuck => (t, Stuck)
  | _ => (t ++ logFault response r ++ cleanUp c, r)
  end.

(** The callback ended: it returned or threw. *)
Definition ended {A} (r : step A) : bool :=
  match r with Stuck => false | _ => true end.

Definition isDeletion (e : event) : bool :=
  match e with ThreadDeleted _ => true | _ => false end.

(** How many times the thread was deleted. *)
Definition deletions (t : list event) : nat := length (List.filter isDeletion t).

(** The same conversation with another answer of [threads.del]. *)
Definition withDel (d : outcome unit) (c : conversation) : conversation :=
  {| createThread := createThread c; createMessage := createMessage c;
     createRun := createRun c; retrieves := retrieves c;
     listMessages := listMessages c; delThread := d; now := now c |}.

(** No deletion among the events of a block. *)
Definition clean {A} (x : M A) : Prop := deletions (fst x) = 0%nat.

(** The number of deletions that the [finally] block makes. *)
Definition created (c : conversation) : nat :=
  match createThread c with
  | Ok (_ :: _) => 1
  | _ => 0
  end.

End Runner.

(** ** The handler of [generateJudgements.ts] *)
Module Judgements.
Import JS Poll Parser Docs Runner.

(** What the collaborators answer during one invocation.  [settledAt]
    orders the callbacks of the fan-out by the time at which they end. *)
Record env : Type := {
  gameReadFault : option (list N);        (* the read of the game throws *)
  conversations : AIAnswer.t -> conversation;
  settledAt : AIAnswer.t -> nat;
  gamePatchFault : option (list N);       (* the patch of the game throws *)
  playerFault : list N -> bool            (* the read or the patch of that
                                             player throws *)
}.

(** [Promise.all]: the values in order when every promise is fulfilled;
    the reason of the rejection that comes first in time, as soon as one
    promise is rejected; nothing while promises are pending and none is
    rejected. *)
Inductive joined (A : Type) : Type :=
| Fulfilled (values : list A)
| Rejected (message : jsstring)
| Pending.
Arguments Fulfilled {A} values.
Arguments Rejected {A} message.
Arguments Pending {A}.

Fixpoint firstRejection {A} (tasks : list (nat * step A))
    : option (nat * jsstring) :=
  match tasks with
  | [] => None
  | (time, r) :: tasks' =>
      match r, firstRejection tasks' with
      | Fault message, Some (time', message') =>
          if (time' <? time)%nat then Some (time', message')
          else Some (time, message)
      | Fault message, None => Some (time, message)
      | _, later => later
      end
  end.

Fixpoint fulfilled {A} (tasks : list (nat * step A)) : option (list A) :=
  match tasks with
  | [] => Some []
  | (_, Value a) :: tasks' =>
      match fulfilled tasks' with
      | Some vs => Some (a :: vs)
      | None => None
      end
  | _ :: _ => None
  end.

Definition promiseAll {A} (tasks : list (nat * step A)) : joined A :=
  match firstRejection tasks with
  | Some (_, message) => Rejected message
  | None =>
      match fulfilled tasks with
      | Some vs => Fulfilled vs
      | None => Pending
      end
  end.

(** Lines 45-50. *)
Record PlayerScore : Type := {
  totalScores : list Z;
  contextScores : list Z;
  technicalScores : list Z;
  clarityScores : list Z
}.

Definition noScores : PlayerScore :=
  {| totalScores := []; contextScores := [];
     technicalScores := []; clarityScores := [] |}.

(** Lines 218-229: the four pushes. *)
Definition push (j : Judgement.t) (s : PlayerScore) : PlayerScore :=
  {| totalScores := totalScores s ++ [Judgement.totalScore j];
     contextScores := contextScores s ++ [Judgement.contextScore j];
     technicalScores := technicalScores s ++ [Judgement.technicalScore j];
     clarityScores := clarityScores s ++ [Judgement.clarityScore j] |}.

(** The names that a plain object inherits from [Object.prototype];
    looked up in [playerScores], each of them gives the inherited member,
    which is truthy. *)
Definition inheritedNames : list (list N) :=
  map codes
    [ "constructor"; "__proto__"; "hasOwnProperty"; "isPrototypeOf";
      "propertyIsEnumerable"; "toLocaleString"; "toString"; "valueOf";
      "__defineGetter__"; "__defineSetter__"; "__lookupGetter__";
      "__lookupSetter__" ]%string.

Definition inherited (k : jsstring) : bool := existsb (eqs k) inheritedNames.

(** Lines 210-229 for one judgement whose player id is no inherited
    name.  The object [playerScores] is kept as the list of its own
    properties in the order of their creation.  [Object.keys] lists the
    keys that are array indices before the others; the order of the keys
    makes no difference to the updates that follow. *)
Fixpoint record (j : Judgement.t) (playerScores : list (list N * PlayerScore))
    : list (list N * PlayerScore) :=
  match playerScores with
  | [] => [(Judgement.playerId j, push j noScores)]
  | (k, v) :: rest =>
      if eqs k (Judgement.playerId j) then (k, push j v) :: rest
      else (k, v) :: record j rest
  end.

(** Lines 210-229 for one judgement.  For a player id that is an
    inherited name the test of line 210 finds the inherited member, no
    entry is created, and the push of line 218 on its undefined
    [totalScores] throws. *)
Definition recordScores (j : Judgement.t)
    (playerScores : list (list N * PlayerScore))
    : outcome (list (list N * PlayerScore)) :=
  if inherited (Judgement.playerId j)
  then Throw (codes "Cannot read properties of undefined (reading 'push')")
  else Ok (record j playerScores).

(** Lines 209-230: the [forEach], from the scores collected so far. *)
Fixpoint collectScores (judgements : list Judgement.t)
    (playerScores : list (list N * PlayerScore))
    : outcome (list (list N * PlayerScore)) :=
  match judgements with
  | [] => Ok playerScores
  | j :: judgements' =>
      match recordScores j playerScores with
      | Ok playerScores' => collectScores judgements' playerScores'
      | Throw message => Throw message
      end
  end.

(** What the [forEach] collects when it does not throw. *)
Definition groupScores (judgements : list Judgement.t)
    : list (list N * PlayerScore) :=
  fold_left (fun acc j => record j acc) judgements [].

(** Line 258. *)
Definition themeOf (game : Game.t) : jsstring :=
  match Game.judge game with
  | Some j =>
      match Judge.theme j with
      | Some (c :: t) => c :: t
      | _ => codes "Unknown Theme"
      end
  | None => codes "Unknown Theme"
  end.

(** Lines 237-240: [reduce] with the sum of numbers, from 0. *)
Definition combinedTotalScore (scores : PlayerScore) : Z :=
  fold_left add (totalScores scores) 0%Z.

(** Lines 234-270 for one key of [playerScores].  The updates of the
    players run concurrently; each reads and patches the document of its
    own player, so they are taken one after the other. *)
Definition updatePlayer (e : env) (gameId theme : jsstring)
    (players : gmap (list N * list N) Player.t)
    (entry : list N * PlayerScore) : gmap (list N * list N) Player.t :=
  let (playerId, scores) := entry in
  if playerFault e playerId then players
  else
    match players !! (playerId, gameId) with
    | Some player =>
        <[(playerId, gameId) := addScore (combinedTotalScore scores) theme player]>
          players
    | None => players
    end.

(** Lines 232-274: the updates, for the keys of [playerScores]. *)
Definition updatePlayers (e : env) (gameId theme : jsstring)
    (playerScores : list (list N * PlayerScore))
    (players : gmap (list N * list N) Player.t)
    : gmap (list N * list N) Player.t :=
  fold_left (updatePlayer e gameId theme) playerScores players.

(** Lines 207-274, the Score Aggregator: the player documents after it,
    or the error that the grouping throws. *)
Definition aggregate (e : env) (gameId theme : jsstring)
    (judgements : list Judgement.t)
    (players : gmap (list N * list N) Player.t)
    : outcome (gmap (list N * list N) Player.t) :=
  match collectScores judgements [] with
  | Ok playerScores => Ok (updatePlayers e gameId theme playerScores players)
  | Throw message => Throw message
  end.

(** The scores kept under a player id. *)
Fixpoint scoresFor (playerId : jsstring) (playerScores : list (list N * PlayerScore))
    : option PlayerScore :=
  match playerScores with
  | [] => None
  | (k, v) :: rest => if eqs k playerId then Some v else scoresFor playerId rest
  end.

(** The sum of a player's per-judgement totals, as the specification
    words it. *)
Definition sumZ (l : list Z) : Z := fold_right Z.add 0%Z l.

Definition totalsOf (playerId : jsstring) (judgements : list Judgement.t) : list Z :=
  map Judgement.totalScore
    (List.filter (fun j => eqs (Judgement.playerId j) playerId) judgements).

(** What the caller gets: a response, or none while the fan-out is
    pending. *)
Inductive reply : Type :=
| Replied (r : HttpResponse)
| NoReply.

Definition respond (status : nat) (error : string) : HttpResponse :=
  {| status := status; jsonBody := ErrorBody (codes error) None |}.

(** Lines 286-296. *)
Definition serverError (message : jsstring) : HttpResponse :=
  {| status := 500;
     jsonBody := ErrorBody (codes "Internal server error occurred") (Some message) |}.

(** The fan-out of lines 101-196: one callback for each answer. *)
Definition fanOut (e : env) (gameId : jsstring) (game : Game.t)
    : list (nat * step Judgement.t) :=
  map (fun response =>
         (settledAt e response,
          snd (judgeAnswer gameId (Game.judge game) (conversations e response)
                 response)))
    (Game.aiResponses game).

Definition generateJudgements (e : env) (gameId : option (list N)) (st : store)
    : reply * store :=
  match gameId with
  | None | Some [] => (Replied (respond 400 "Missing gameId parameter"), st)
  | Some gameId =>
      match gameReadFault e with
      | Some message => (Replied (serverError message), st)
      | None =>
          match games st !! gameId with
          | None => (Replied (respond 404 "Game not found"), st)
          | Some game =>
              match Game.aiResponses game with
              | [] =>
                  (Replied (respond 404 "No AI responses found for judgement"), st)
              | _ :: _ =>
                  match promiseAll (fanOut e gameId game) with
                  | Pending => (NoReply, st)
                  | Rejected message => (Replied (serverError message), st)
                  | Fulfilled judgements =>
                      match gamePatchFault e with
                      | Some message => (Replied (serverError message), st)
                      | None =>
                          let games' :=
                            <[gameId := addJudgements judgements game]> (games st) in
                          match aggregate e gameId (themeOf game) judgements
                                  (players st) with
                          | Throw message =>
                              (Replied (serverError message),
                               {| games := games'; players := players st |})
                          | Ok players' =>
                              (Replied
                                 {| status := 200;
                                    jsonBody :=
                                      JudgementsBody
                                        (codes "Successfully generated judgements and updated player scores")
                                        gameId (length judgements) judgements |},
                               {| games := games'; players := players' |})
                          end
                      end
                  end
              end
          end
      end
  end.

End Judgements.

(** ** The handler of [generateAnswers.ts] *)
Module Answers.
Import JS Docs Sanitizer.

(** What [chat.completions.create] resolves to: [choices] may be absent,
    a choice may lack its message, a message its content. *)
Module Completion.
Record chatMessage : Type := { content : option (list N) }.
Record choice : Type := { message : option chatMessage }.
Record t : Type := { choices : option (list choice) }.
End Completion.

(** What the collaborators answer during one invocation.  [complete]
    is the completion call made for a player and a question with the
    prompt given; it may resolve to no response at all. *)
Record env : Type := {
  gameReadFault : option (list N);
  playerQuery : outcome (list Player.t);
  complete : Player.t -> JudgeQuestion.t -> list N -> outcome (option Completion.t);
  now : Player.t -> JudgeQuestion.t -> list N;
  gamePatchFault : option (list N)
}.

(** Lines 296-304. *)
Definition createPrompt (assistantPrompt question : jsstring) : jsstring :=
  codes "You are an AI assistant with the following characteristics:" ++ [10] ++
  assistantPrompt ++ [10; 10] ++
  codes "Please respond to this question in a helpful, accurate, and appropriate manner:"
  ++ [10; 34] ++ question ++ [34; 10; 10] ++
  codes "Keep your answer concise (no more than 1-2 sentences).".

(** Lines 123-132: the prompt sent for a pair. *)
Definition promptFor (player : Player.t) (judgeQ : JudgeQuestion.t) : jsstring :=
  createPrompt (sanitizeInput (default [] (Player.prompt player)))
    (sanitizeInput (JudgeQuestion.content judgeQ)).

(** Line 169: the content of the first choice, the empty string when the
    message or its content is missing or empty. *)
Definition answerOf (c : Completion.choice) : jsstring :=
  match Completion.message c with
  | Some msg => default [] (Completion.content msg)
  | None => []
  end.

(** Lines 153-157. *)
Definition noChoices (response : option Completion.t) : bool :=
  match response with
  | None => true
  | Some r =>
      match Completion.choices r with
      | None | Some [] => true
      | Some (_ :: _) => false
      end
  end.

(** Lines 192-195. *)
Definition isContentFilterError (errorMessage : jsstring) : bool :=
  includes (codes "content_filter") errorMessage
  || includes (codes "content filter") errorMessage
  || includes (codes "moderation") errorMessage.

Definition emptyResponse (player : Player.t) (judgeQ : JudgeQuestion.t) : entry :=
  AnswerError
    {| AIAnswerError.playerId := Player.id player;
       AIAnswerError.questionId := JudgeQuestion.id judgeQ;
       AIAnswerError.error := codes "Empty response from AI service";
       AIAnswerError.details := None |}.

Definition faulted (player : Player.t) (judgeQ : JudgeQuestion.t)
    (errorMessage : jsstring) : entry :=
  AnswerError
    {| AIAnswerError.playerId := Player.id player;
       AIAnswerError.questionId := JudgeQuestion.id judgeQ;
       AIAnswerError.error :=
         if isContentFilterError errorMessage
         then codes "Content filter triggered"
         else codes "Error generating response";
       AIAnswerError.details := Some errorMessage |}.

Definition answered (e : env) (gameId : jsstring) (player : Player.t)
    (judgeQ : JudgeQuestion.t) (answer : jsstring) : entry :=
  Answer
    {| AIAnswer.id :=
         gameId ++ codes "-" ++ Player.id player ++ codes "-" ++ JudgeQuestion.id judgeQ;
       AIAnswer.gameId := Player.gameId player;
       AIAnswer.playerId := Player.id player;
       AIAnswer.playerName :=
         match Player.screenName player with
         | [] => codes "Unknown Player"
         | name => name
         end;
       AIAnswer.questionId := JudgeQuestion.id judgeQ;
       AIAnswer.question := JudgeQuestion.content judgeQ;
       AIAnswer.assistantPrompt := Player.prompt player;
       AIAnswer.answer := answer;
       AIAnswer.timestamp := now e player judgeQ |}.

(** Lines 120-206: the callback for one pair; whatever is thrown inside
    is caught and turned into an entry. *)
Definition processPair (e : env) (gameId : jsstring) (player : Player.t)
    (judgeQ : JudgeQuestion.t) : entry :=
  match complete e player judgeQ (promptFor player judgeQ) with
  | Ok response =>
      match response with
      | None => emptyResponse player judgeQ
      | Some r =>
          match Completion.choices r with
          | None | Some [] => emptyResponse player judgeQ
          | Some (c :: _) => answered e gameId player judgeQ (answerOf c)
          end
      end
  | Throw errorMessage => faulted player judgeQ errorMessage
  end.

(** Lines 118-208: every callback ends with an entry, so [Promise.all]
    is fulfilled with the entries in the order of the pairs. *)
Definition fanOut (e : env) (gameId : jsstring) (players : list Player.t)
    (judgeQuestions : list JudgeQuestion.t) : list entry :=
  flat_map (fun player => map (processPair e gameId player) judgeQuestions) players.

(** Lines 211-213 and 241-243. *)
Fixpoint successes (responses : list entry) : list AIAnswer.t :=
  match responses with
  | [] => []
  | Answer a :: rest => a :: successes rest
  | AnswerError _ :: rest => successes rest
  end.

Fixpoint failures (responses : list entry) : list AIAnswerError.t :=
  match responses with
  | [] => []
  | Answer _ :: rest => failures rest
  | AnswerError err :: rest => err :: failures rest
  end.

(** Lines 216-238: the successful answers are stored when there are any;
    a fault of the patch is logged and the store stays as it was. *)
Definition storeAnswers (e : env) (gameId : jsstring) (game : Game.t)
    (successfulResponses : list AIAnswer.t) (st : store) : store :=
  match successfulResponses with
  | [] => st
  | _ :: _ =>
      match gamePatchFault e with
      | Some _ => st
      | None =>
          {| games := <[gameId := addAiResponses successfulResponses game]> (games st);
             players := players st |}
      end
  end.

(** Line 85. *)
Definition judgeQuestionsOf (game : Game.t) : list JudgeQuestion.t :=
  match Game.judge game with
  | Some j => default [] (Judge.questions j)
  | None => []
  end.

Definition respond (status : nat) (error : string) : HttpResponse :=
  {| status := status; jsonBody := ErrorBody (codes error) None |}.

(** Lines 270-281. *)
Definition serverError (message : jsstring) : HttpResponse :=
  {| status := 500;
     jsonBody := ErrorBody (codes "Internal server error occurred") (Some message) |}.

(** Lines 257-269. *)
Definition summary (gameId : jsstring) (players : list Player.t)
    (judgeQuestions : list JudgeQuestion.t) (aiResponses : list entry)
    : HttpResponse :=
  {| status := 200;
     jsonBody :=
       AnswersBody (codes "Processed player assistants with questions") gameId
         (length (successes aiResponses)) (length (failures aiResponses))
         (length players) (length judgeQuestions)
         (length players * length judgeQuestions) aiResponses |}.

Definition generateAnswers (e : env) (gameId : option (list N)) (st : store)
    : HttpResponse * store :=
  match gameId with
  | None | Some [] => (respond 400 "Missing gameId parameter", st)
  | Some gameId =>
      match gameReadFault e with
      | Some message => (serverError message, st)
      | None =>
          match games st !! gameId with
          | None => (respond 404 "Game not found", st)
          | Some game =>
              match judgeQuestionsOf game with
              | [] => (respond 404 "No judge questions found", st)
              | judgeQuestions =>
                  match playerQuery e with
                  | Throw message => (serverError message, st)
                  | Ok [] => (respond 404 "No players found for this game", st)
                  | Ok players =>
                      let aiResponses := fanOut e gameId players judgeQuestions in
                      (summary gameId players judgeQuestions aiResponses,
                       storeAnswers e gameId game (successes aiResponses) st)
                  end
              end
          end
      end
  end.

(** The pair that an entry names. *)
Definition pairOf (r : entry) : list N * list N :=
  match r with
  | Answer a => (AIAnswer.playerId a, AIAnswer.questionId a)
  | AnswerError err => (AIAnswerError.playerId err, AIAnswerError.questionId err)
  end.

(** The entries of a response. *)
Definition responsesOf (r : HttpResponse) : list entry :=
  match jsonBody r with
  | AnswersBody _ _ _ _ _ _ _ responses => responses
  | _ => []
  end.

(** The handler, once the game, its questions and its players are there. *)
Definition ready (e : env) (gameId : jsstring) (st : store) (game : Game.t)
    (players : list Player.t) : Prop :=
  gameId <> [] /\ gameReadFault e = None /\ games st !! gameId = Some game
  /\ judgeQuestionsOf game <> [] /\ playerQuery e = Ok players /\ players <> [].

End Answers.

(** ** A game to run the handlers on *)
Module Samples.
Import JS Poll Parser Docs Runner.

Definition q1 : JudgeQuestion.t :=
  {| JudgeQuestion.id := codes "q1"; JudgeQuestion.content := codes "What is a star?" |}.
Definition q2 : JudgeQuestion.t :=
  {| JudgeQuestion.id := codes "q2"; JudgeQuestion.content := codes "How far is the Moon?" |}.
Definition q3 : JudgeQuestion.t :=
  {| JudgeQuestion.id := codes "q3"; JudgeQuestion.content := codes "Why is Mars red?" |}.

Definition judge : Judge.t :=
  {| Judge.theme := Some (codes "Space"); Judge.asst_id := codes "asst_1";
     Judge.questions := Some [q1; q2; q3] |}.

Definition ann : Player.t :=
  {| Player.id := codes "p1"; Player.gameId := codes "g1";
     Player.screenName := codes "Ann"; Player.email := codes "ann@example.org";
     Player.prompt := Some (codes "You are a pirate.");
     Player.totalScore := None; Player.themeName := None |}.

Definition bob : Player.t :=
  {| Player.id := codes "p2"; Player.gameId := codes "g1";
     Player.screenName := codes "Bob"; Player.email := codes "bob@example.org";
     Player.prompt := None;
     Player.totalScore := None; Player.themeName := None |}.

Definition clock : jsstring := codes "2025-01-01T00:00:00.000Z".

(** Ann's answer to a question. *)
Definition annAnswer (q : JudgeQuestion.t) (text : string) : AIAnswer.t :=
  {| AIAnswer.id := codes "g1-p1-" ++ JudgeQuestion.id q;
     AIAnswer.gameId := codes "g1"; AIAnswer.playerId := codes "p1";
     AIAnswer.playerName := codes "Ann";
     AIAnswer.questionId := JudgeQuestion.id q;
     AIAnswer.question := JudgeQuestion.content q;
     AIAnswer.assistantPrompt := Some (codes "You are a pirate.");
     AIAnswer.answer := codes text; AIAnswer.timestamp := clock |}.

Definition a1 : AIAnswer.t := annAnswer q1 "A sun far away, arr.".
Definition a2 : AIAnswer.t := annAnswer q2 "A long sail.".
Definition a3 : AIAnswer.t := annAnswer q3 "Rust, matey.".

(** A game with three answers to judge, and one with an answer of an
    earlier run. *)
Definition game1 : Game.t :=
  {| Game.id := codes "g1"; Game.status := codes "waiting";
     Game.judge := Some judge; Game.aiResponses := [a1; a2; a3];
     Game.judgements := [] |}.

Definition gameWithOld : Game.t :=
  {| Game.id := codes "g1"; Game.status := codes "waiting";
     Game.judge := Some judge; Game.aiResponses := [a1];
     Game.judgements := [] |}.

Definition store1 : store :=
  {| games := {[ codes "g1" := game1 ]};
     players := {[ (codes "p1", codes "g1") := ann ]} |}.

Definition storeWithOld : store :=
  {| games := {[ codes "g1" := gameWithOld ]};
     players := {[ (codes "p1", codes "g1") := ann; (codes "p2", codes "g1") := bob ]} |}.

(** A conversation that goes well and ends with the total [total]. *)
Definition scoring (total : string) : conversation :=
  {| createThread := Ok (codes "thread_1");
     createMessage := Ok tt;
     createRun := Ok (codes "run_1");
     retrieves := [Ok in_progress; Ok in_progress; Ok completed];
     listMessages :=
       Ok (Some [[TextBlock
                    (plainForm (codes "80") (codes "90") (codes "70")
                       (codes total) (codes "Fine."))]]);
     delThread := Ok tt;
     now := clock |}.

(** One whose run fails, one that gets no thread, and one whose thread
    cannot be deleted. *)
Definition failing : conversation :=
  {| createThread := Ok (codes "thread_2");
     createMessage := Ok tt;
     createRun := Ok (codes "run_2");
     retrieves := [Ok in_progress; Ok (failedWith (Some (codes "server_error")))];
     listMessages := Ok None;
     delThread := Ok tt;
     now := clock |}.

Definition noThread : conversation :=
  {| createThread := Throw (codes "503 Service Unavailable");
     createMessage := Ok tt;
     createRun := Ok (codes "run_3");
     retrieves := [Ok completed];
     listMessages := Ok None;
     delThread := Ok tt;
     now := clock |}.

Definition undeletable : conversation :=
  withDel (Throw (codes "socket hang up")) (scoring "250").

(** The judgement of Ann's answer to a question, with a total. *)
Definition annJudgement (q : JudgeQuestion.t) (total : Z) : Judgement.t :=
  {| Judgement.id := codes "g1-judge-g1-p1-" ++ JudgeQuestion.id q;
     Judgement.gameId := codes "g1";
     Judgement.aiAnswerId := codes "g1-p1-" ++ JudgeQuestion.id q;
     Judgement.playerId := codes "p1"; Judgement.playerName := codes "Ann";
     Judgement.questionId := JudgeQuestion.id q;
     Judgement.contextScore := 80; Judgement.technicalScore := 90;
     Judgement.clarityScore := 70; Judgement.totalScore := total;
     Judgement.justification := codes "Fine."; Judgement.timestamp := clock |}.

Definition annJudgements : list Judgement.t :=
  [annJudgement q1 250; annJudgement q2 300; annJudgement q3 180].

(** A player registered under the id constructor, her judgement, and the
    store with her in it. *)
Definition eve : Player.t :=
  {| Player.id := codes "constructor"; Player.gameId := codes "g1";
     Player.screenName := codes "Eve"; Player.email := codes "eve@example.org";
     Player.prompt := None;
     Player.totalScore := None; Player.themeName := None |}.

Definition eveJudgement : Judgement.t :=
  {| Judgement.id := codes "g1-judge-g1-constructor-q1";
     Judgement.gameId := codes "g1";
     Judgement.aiAnswerId := codes "g1-constructor-q1";
     Judgement.playerId := codes "constructor"; Judgement.playerName := codes "Eve";
     Judgement.questionId := codes "q1";
     Judgement.contextScore := 80; Judgement.technicalScore := 90;
     Judgement.clarityScore := 70; Judgement.totalScore := 240;
     Judgement.justification := codes "Fine."; Judgement.timestamp := clock |}.

Definition storeWithEve : store :=
  {| games := {[ codes "g1" := game1 ]};
     players := {[ (codes "p1", codes "g1") := ann;
                   (codes "constructor", codes "g1") := eve ]} |}.

(** The judge gives Ann 250, 300 and 180. *)
Definition judging : Judgements.env :=
  {| Judgements.gameReadFault := None;
     Judgements.conversations := fun a =>
       if eqs (AIAnswer.questionId a) (codes "q1") then scoring "250"
       else if eqs (AIAnswer.questionId a) (codes "q2") then scoring "300"
       else scoring "180";
     Judgements.settledAt := fun a => length (AIAnswer.answer a);
     Judgements.gamePatchFault := None;
     Judgements.playerFault := fun _ => false |}.

(** The same, but the run for the second answer fails. *)
Definition judgingWithFault : Judgements.env :=
  {| Judgements.gameReadFault := None;
     Judgements.conversations := fun a =>
       if eqs (AIAnswer.questionId a) (codes "q2") then failing else scoring "250";
     Judgements.settledAt := fun a => length (AIAnswer.answer a);
     Judgements.gamePatchFault := None;
     Judgements.playerFault := fun _ => false |}.

Definition said (text : option (list N)) : option Answers.Completion.t :=
  Some {| Answers.Completion.choices :=
            Some [{| Answers.Completion.message :=
                       Some {| Answers.Completion.content := text |} |}] |}.

(** The completion service: the second question trips the content
    filter, the third comes back without content. *)
Definition answering : Answers.env :=
  {| Answers.gameReadFault := None;
     Answers.playerQuery := Ok [ann; bob];
     Answers.complete := fun player q prompt =>
       if eqs (JudgeQuestion.id q) (codes "q2")
       then Throw (codes "400 The response was filtered: content_filter")
       else if eqs (JudgeQuestion.id q) (codes "q3") then Ok (said None)
       else Ok (said (Some (codes "A ball of gas.")));
     Answers.now := fun _ _ => clock;
     Answers.gamePatchFault := None |}.

End Samples.

(** ** The lobby: [createNewGame.ts], [playerReg], [getGame.ts]

    The handlers that open a game, register its players and show it.
    None of them catches what its calls throw: a fault of a call ends the
    handler with that fault. *)
Module Lobby.
Import JS Docs.

(** The judge of a game: the judge profile spread into the game, with
    [questions] replaced by the questions selected for the game.  A
    selected question is undefined when [splice] had nothing to give. *)
Record gameJudge : Type := {
  profile : Judge.t;
  selected : list (option JudgeQuestion.t)
}.

(** The game document of these handlers; [players], [playerIds] and
    [judge] may be absent. *)
Record game : Type := {
  id : jsstring;
  status : jsstring;
  players : option (list Player.t);
  playerIds : option (list (list N));
  judge : option gameJudge
}.

(** A message sent to a group of the hub. *)
Record groupMessage : Type := {
  group : jsstring;
  message : jsstring;
  player : Player.t
}.

(** The two containers and the messages sent so far.  A player is kept
    under its id and its partition key, the id of its game. *)
Record state : Type := {
  games : gmap (list N) game;
  registered : gmap (list N * list N) Player.t;
  sent : list groupMessage
}.

Inductive payload : Type :=
| Text (text : jsstring)
| GameJson (g : game)                           (* JSON.stringify(game) *)
| GameView (id : jsstring) (players : option (list Player.t))
    (theme : option jsstring)                   (* JSON.stringify(gameObj) *)
| Registration (message : jsstring) (createdPlayer : Player.t)
    (theme : option jsstring).

Record response : Type := { code : nat; body : payload }.

Definition eqs (a b : jsstring) : bool := bool_decide (a = b).

(** *** [createNewGame] *)

(** What the collaborators answer.  [random k n] is what
    [Math.floor(Math.random() * n)] evaluates to at the k-th call of
    [Math.random] in the invocation. *)
Record gameEnv : Type := {
  judges : outcome (list Judge.t);       (* the query of all judges *)
  random : nat -> nat -> nat;
  uuid : jsstring;
  upsertFault : option (list N)          (* the upsert of the game throws *)
}.

(** [a.splice(i, 1)[0]], with the array after it: the element at [i] is
    taken out; past the end nothing is taken and the value is undefined. *)
Definition splice1 {A} (i : nat) (a : list A) : option A * list A :=
  (a !! i, delete i a).

(** Lines 44-50: the loop, with [rounds] iterations to go; [call]
    numbers the next call of [Math.random]. *)
Fixpoint selectQuestions (rounds : nat) (random : nat -> nat -> nat) (call : nat)
    (judgeQuestions : list JudgeQuestion.t) : list (option JudgeQuestion.t) :=
  match rounds, judgeQuestions with
  | S rounds', _ :: _ =>
      let questionIndex := random call (length judgeQuestions) in
      let (selectedQuestion, rest) := splice1 questionIndex judgeQuestions in
      selectedQuestion :: selectQuestions rounds' random (S call) rest
  | _, _ => []
  end.

Definition newGame (gameId : jsstring) (judge : Judge.t)
    (selectedQuestions : list (option JudgeQuestion.t)) : game :=
  {| id := gameId; status := codes "waiting"; players := Some [];
     playerIds := None;
     judge := Some {| profile := judge; selected := selectedQuestions |} |}.

Definition upsertGame (g : game) (st : state) : state :=
  {| games := <[id g := g]> (games st); registered := registered st;
     sent := sent st |}.

(** Lines 11-69.  The upsert resolves to the response of the store, an
    object, so the test of line 64 never answers 500. *)
Definition createNewGame (e : gameEnv) (st : state) : outcome response * state :=
  match judges e with
  | Throw message => (Throw message, st)
  | Ok [] =>
      (Ok {| code := 404; body := Text (codes "No judges found in the database") |},
       st)
  | Ok resources =>
      let randomIndex := random e 0 (length resources) in
      match resources !! randomIndex with
      | None =>
          (Throw (codes "Cannot read properties of undefined (reading 'questions')"),
           st)
      | Some judge =>
          match Judge.questions judge with
          | None => (Throw (codes "judge.questions is not iterable"), st)
          | Some judgeQuestions =>
              let selectedQuestions :=
                selectQuestions 3 (random e) 1 judgeQuestions in
              let game := newGame (uuid e) judge selectedQuestions in
              match upsertFault e with
              | Some message => (Throw message, st)
              | None => (Ok {| code := 200; body := GameJson game |},
                         upsertGame game st)
              end
          end
      end
  end.

(** [Math.random] gives a number from 0 up to, not including, 1: the
    index taken among [n] is below [n]. *)
Definition inRange (random : nat -> nat -> nat) : Prop :=
  forall k n, (0 < n)%nat -> (random k n < n)%nat.

(** *** [playerReg] *)

Record regRequest : Type := {
  method : jsstring;
  gameId : jsstring;
  screenName : jsstring;
  email : jsstring;
  userId : jsstring
}.

(** [pubsub] is what comes of the message: nothing when the connection
    string is not set, else what [sendToAll] answers. *)
Record regEnv : Type := {
  playerUpsertFault : option (list N);
  gameReadFault : option (list N);
  gameReplaceFault : option (list N);
  pubsub : option (outcome unit)
}.

(** Line 56. *)
Definition newPlayer (r : regRequest) : Player.t :=
  {| Player.id := userId r; Player.gameId := gameId r;
     Player.screenName := screenName r; Player.email := email r;
     Player.prompt := None; Player.totalScore := None; Player.themeName := None |}.

(** Lines 91-114: the message is sent when the connection string is set
    and [sendToAll] does not throw; whatever is thrown is logged and
    swallowed. *)
Definition sendWebPubSubMessage (pubsub : option (outcome unit)) (text : jsstring)
    (p : Player.t) (st : state) : state :=
  match pubsub with
  | Some (Ok _) =>
      {| games := games st; registered := registered st;
         sent := sent st ++ [{| group := Player.gameId p; message := text;
                                player := p |}] |}
  | _ => st
  end.

Definition upsertPlayer (p : Player.t) (st : state) : state :=
  {| games := games st;
     registered := <[(Player.id p, Player.gameId p) := p]> (registered st);
     sent := sent st |}.

(** Lines 70-77: the player joins the lists of the game. *)
Definition joined (p : Player.t) (g : game) : game :=
  {| id := id g; status := status g;
     players := Some (default [] (players g) ++ [p]);
     playerIds := Some (default [] (playerIds g) ++ [Player.id p]);
     judge := judge g |}.

Definition replaceGame (key : jsstring) (g : game) (st : state) : state :=
  {| games := <[key := g]> (games st); registered := registered st;
     sent := sent st |}.

(** Lines 25-89.  The player is written before the game is looked up;
    the upsert resolves to the response of the store, an object, so the
    test of line 60 never answers 500.  The theme of the reply is read
    from the judge of the game after the message was sent. *)
Definition playerReg (e : regEnv) (r : regRequest) (st : state)
    : outcome response * state :=
  if negb (eqs (method r) (codes "POST")) then
    (Ok {| code := 405; body := Text (codes "Method Not Allowed") |}, st)
  else
    match screenName r, email r with
    | [], _ | _, [] =>
        (Ok {| code := 400;
               body := Text (codes "Screen name and email are required") |}, st)
    | _, _ =>
        let player := newPlayer r in
        match playerUpsertFault e with
        | Some message => (Throw message, st)
        | None =>
            let st := upsertPlayer player st in
            match gameReadFault e with
            | Some message => (Throw message, st)
            | None =>
                match games st !! gameId r with
                | None =>
                    (Ok {| code := 404; body := Text (codes "Game not found") |}, st)
                | Some game =>
                    match gameReplaceFault e with
                    | Some message => (Throw message, st)
                    | None =>
                        let updatedGame := joined player game in
                        let st := replaceGame (gameId r) updatedGame st in
                        let st :=
                          sendWebPubSubMessage (pubsub e)
                            (codes "A new player joined the game") player st in
                        match judge updatedGame with
                        | None =>
                            (Throw (codes "Cannot read properties of undefined (reading 'theme')"),
                             st)
                        | Some j =>
                            (Ok {| code := 201;
                                   body :=
                                     Registration
                                       (codes "Successfully created player")
                                       player (Judge.theme (profile j)) |},
                             st)
                        end
                    end
                end
            end
        end
    end.

(** The request goes past the checks of lines 29 and 43. *)
Definition valid (r : regRequest) : Prop :=
  method r = codes "POST" /\ screenName r <> [] /\ email r <> [].

(** *** [getGame] *)

(** Lines 9-41; [readFault] is what the read of the game throws, when it
    throws. *)
Definition getGame (readFault : option (list N)) (gameId : option (list N))
    (st : state) : outcome response :=
  match gameId with
  | None | Some [] =>
      Ok {| code := 400;
            body := Text (codes "Please pass a gameId on the query string") |}
  | Some gameId =>
      match readFault with
      | Some message => Throw message
      | None =>
          match games st !! gameId with
          | None => Ok {| code := 404; body := Text (codes "Game not found") |}
          | Some game =>
              match judge game with
              | None =>
                  Throw (codes "Cannot read properties of undefined (reading 'theme')")
              | Some j =>
                  Ok {| code := 200;
                        body := GameView (id game) (players game)
                                  (Judge.theme (profile j)) |}
              end
          end
      end
  end.

End Lobby.

(** ** The leaderboard: [getLeaderBoard.ts] *)
Module LeaderBoard.
Import JS Docs.

(** The two queries that the handler sends (lines 35 and 42): the five
    highest total scores among all players, or among the players of one
    game.  The database evaluates them; what it answers is given. *)
Inductive querySpec : Type :=
| TopOfAll
| TopOfGame (gameId : jsstring).

Record row : Type := {
  rank : nat;
  id : jsstring;
  name : jsstring;
  score : option Z;
  theme : option jsstring;
  gameId : jsstring
}.

Inductive body : Type :=
| Board (leaderboard : list row) (timestamp : jsstring)
| Failure (error message : jsstring).

Record response : Type := { status : nat; jsonBody : body }.

(** What the collaborators answer: the documents that [fetchAll]
    resolves to for a query, or the error it throws, and the clock. *)
Record env : Type := {
  query : querySpec -> outcome (list Player.t);
  now : jsstring
}.

(** Lines 34-50: the query with the filter when a gameId is given and
    not empty, else the query over all players. *)
Definition querySpecOf (gameId : option (list N)) : querySpec :=
  match gameId with
  | Some (c :: g) => TopOfGame (c :: g)
  | _ => TopOfAll
  end.

(** Lines 58-65. *)
Definition toRow (index : nat) (player : Player.t) : row :=
  {| rank := index + 1; id := Player.id player; name := Player.screenName player;
     score := Player.totalScore player; theme := Player.themeName player;
     gameId := Player.gameId player |}.

(** Lines 18-85. *)
Definition getLeaderBoard (e : env) (gameId : option (list N)) : response :=
  match query e (querySpecOf gameId) with
  | Throw message =>
      {| status := 500;
         jsonBody := Failure (codes "Error retrieving leaderboard") message |}
  | Ok players =>
      {| status := 200; jsonBody := Board (imap toRow players) (now e) |}
  end.

(** The rows of a reply. *)
Definition rowsOf (r : response) : list row :=
  match jsonBody r with
  | Board leaderboard _ => leaderboard
  | Failure _ _ => []
  end.

End LeaderBoard.

(** ** The earlier revisions kept in the repository

    [generateJudgements/generateJudgements.ts] holds the response parser
    as it was before the patterns were made flexible, and the earlier
    [createNewGame] selects the questions without the guard on the
    questions that are left. *)
Module Legacy.
Import JS Regex Parser.

(** Line 247: three backticks, replaced everywhere. *)
Definition fenceRe : regex := lit (codes "```").

(** Lines 250-253: the label, whitespace (any), group 1 of one or more
    digits, and the denominator when it is there. *)
Definition scoreRe (label denominator : string) : regex :=
  Seq (lit (codes label ++ codes " Score:"))
    (Seq (Star true space)
       (Seq (Grp 1 (Plus true digit)) (Opt (lit (codes "/" ++ codes denominator))))).

(** Lines 256-258: the justification up to the end of its line. *)
Definition lookLine : regex := Alt (lit nl) Eol.

Definition justRe : regex :=
  Seq (lit (codes "Justification:"))
    (Seq (Star true space) (Seq (Grp 1 (Plus false any)) (Ahead lookLine))).

Definition parseFormattedResponse (response : jsstring) : outcome parsed :=
  let response := trim (replaceAll fenceRe [] response) in
  let contextMatch := exec (scoreRe "Context" "300") response in
  let technicalMatch := exec (scoreRe "Technical" "400") response in
  let clarityMatch := exec (scoreRe "Clarity" "300") response in
  let finalMatch := exec (scoreRe "Final" "1000") response in
  let justificationMatch := exec justRe response in
  match contextMatch with
  | None => Throw (codes "Could not parse Context Score")
  | Some cm =>
  match technicalMatch with
  | None => Throw (codes "Could not parse Technical Score")
  | Some tm =>
  match clarityMatch with
  | None => Throw (codes "Could not parse Clarity Score")
  | Some lm =>
  match finalMatch with
  | None => Throw (codes "Could not parse Final Score")
  | Some fm =>
  match justificationMatch with
  | None => Throw (codes "Could not parse Justification")
  | Some jm =>
      Ok {| contextScore := parseInt (group_of 1 cm);
            technicalScore := parseInt (group_of 1 tm);
            clarityScore := parseInt (group_of 1 lm);
            totalScore := parseInt (group_of 1 fm);
            justification := trim (group_of 1 jm) |}
  end end end end end.

(** The earlier [createNewGame], lines 46-53: three rounds, whatever is
    left of the questions. *)
Fixpoint selectQuestions (rounds : nat) (random : nat -> nat -> nat) (call : nat)
    (judgeQuestions : list Docs.JudgeQuestion.t)
    : list (option Docs.JudgeQuestion.t) :=
  match rounds with
  | O => []
  | S rounds' =>
      let questionIndex := random call (length judgeQuestions) in
      let (selectedQuestion, rest) := Lobby.splice1 questionIndex judgeQuestions in
      selectedQuestion :: selectQuestions rounds' random (S call) rest
  end.

End Legacy.

(** ** Further documents to run the handlers on *)
Module FurtherSamples.
Import JS Docs Lobby.

(** A game document without a judge, with one answer to judge. *)
Definition gameNoJudge : Docs.Game.t :=
  {| Game.id := codes "g1"; Game.status := codes "waiting";
     Game.judge := None; Game.aiResponses := [Samples.a1];
     Game.judgements := [] |}.

Definition storeNoJudge : Docs.store :=
  {| Docs.games := {[ codes "g1" := gameNoJudge ]};
     Docs.players := {[ (codes "p1", codes "g1") := Samples.ann ]} |}.

(** A judge with two questions only, and the game of the samples in the
    lobby. *)
Definition shortJudge : Judge.t :=
  {| Judge.theme := Some (codes "Coffee"); Judge.asst_id := codes "asst_2";
     Judge.questions := Some [Samples.q1; Samples.q2] |}.

Definition opening : gameEnv :=
  {| judges := Ok [Samples.judge; shortJudge];
     random := fun k n => (n - 1)%nat;
     uuid := codes "g7";
     upsertFault := None |}.

Definition empty : state := {| games := ∅; registered := ∅; sent := [] |}.

Definition annRequest : regRequest :=
  {| method := codes "POST"; gameId := codes "g7"; screenName := codes "Ann";
     email := codes "ann@example.org"; userId := codes "p1" |}.

(** The lobby after a game was opened. *)
Definition opened : state := snd (createNewGame opening empty).

Definition registering : regEnv :=
  {| playerUpsertFault := None; gameReadFault := None; gameReplaceFault := None;
     pubsub := Some (Ok tt) |}.

End FurtherSamples.

(* ===================================================================== *)
(** * Part II: the theorems                                               *)
(* ===================================================================== *)


Module JSFacts.
Import JS.

Lemma dropSpaces_head (s : jsstring) : startsWithSpace (dropSpaces s) = false.
Proof.
  induction s as [|c t IH]; simpl; [reflexivity|].
  destruct (isSpace c) eqn:E; [exact IH|simpl; exact E].
Qed.

Lemma dropSpaces_snoc (s : jsstring) (c : char) :
  isSpace c = false -> dropSpaces (s ++ [c]) = dropSpaces s ++ [c].
Proof.
  intros Hc. induction s as [|d t IH]; simpl.
  - rewrite Hc. reflexivity.
  - destruct (isSpace d); [exact IH|reflexivity].
Qed.

Lemma trimEnd_cons (c : char) (t : jsstring) :
  isSpace c = false -> trimEnd (c :: t) = c :: trimEnd t.
Proof.
  intros Hc. unfold trimEnd. simpl rev at 2.
  rewrite dropSpaces_snoc by exact Hc.
  rewrite rev_app_distr. reflexivity.
Qed.

Lemma trim_head (s : jsstring) : startsWithSpace (trim s) = false.
Proof.
  unfold trim, trimStart.
  pose proof (dropSpaces_head s) as H.
  destruct (dropSpaces s) as [|c t]; [reflexivity|].
  simpl in H. rewrite trimEnd_cons by exact H. simpl. exact H.
Qed.

Lemma last_rev_head (s : jsstring) :
  last (rev s) = match s with c :: _ => Some c | [] => None end.
Proof.
  destruct s as [|c t]; [reflexivity|].
  simpl. apply last_snoc.
Qed.

Lemma trim_last (s : jsstring) : endsWithSpace (trim s) = false.
Proof.
  unfold endsWithSpace, trim, trimEnd. rewrite last_rev_head.
  pose proof (dropSpaces_head (rev (trimStart s))) as H.
  destruct (dropSpaces (rev (trimStart s))); [reflexivity|exact H].
Qed.

Lemma takeSpaces_dropSpaces s : takeSpaces s ++ dropSpaces s = s.
Proof.
  induction s as [|c t IH]; [reflexivity|]. cbn [takeSpaces dropSpaces].
  destruct (isSpace c); [cbn [app]; rewrite IH|]; reflexivity.
Qed.

Lemma takeSpaces_spaces s : forallb isSpace (takeSpaces s) = true.
Proof.
  induction s as [|c t IH]; [reflexivity|]. cbn [takeSpaces].
  destruct (isSpace c) eqn:E; [cbn [forallb]; rewrite E, IH|]; reflexivity.
Qed.

Lemma dropSpaces_forallb (p : char -> bool) s :
  forallb p s = true -> forallb p (dropSpaces s) = true.
Proof.
  induction s as [|c t IH]; [reflexivity|]. cbn [dropSpaces]. intros H.
  destruct (isSpace c); [|exact H].
  cbn [forallb] in H. apply andb_prop in H as [_ H]. apply IH, H.
Qed.

Lemma dropSpaces_idem s : dropSpaces (dropSpaces s) = dropSpaces s.
Proof.
  induction s as [|c t IH]; [reflexivity|]. cbn [dropSpaces].
  destruct (isSpace c) eqn:E; [exact IH|]. cbn [dropSpaces]. rewrite E. reflexivity.
Qed.

Lemma trim_dropSpaces s : trim (dropSpaces s) = trim s.
Proof. unfold trim, trimStart. rewrite dropSpaces_idem. reflexivity. Qed.


Lemma dropSpaces_all s : forallb isSpace s = true -> dropSpaces s = [].
Proof.
  induction s as [|c t IH]; [reflexivity|]. cbn [forallb dropSpaces]. intros H.
  apply andb_prop in H as [Hc Ht]. rewrite Hc. apply IH, Ht.
Qed.

Lemma dropSpaces_app s t :
  forallb isSpace s = false -> dropSpaces (s ++ t) = dropSpaces s ++ t.
Proof.
  induction s as [|c s IH]; [discriminate|]. cbn [forallb dropSpaces app].
  destruct (isSpace c); [exact IH|reflexivity].
Qed.

Lemma forallb_rev (p : N -> bool) s : forallb p (rev s) = forallb p s.
Proof.
  induction s as [|c s IH]; [reflexivity|]. cbn [rev forallb].
  rewrite forallb_app, IH. cbn [forallb]. rewrite andb_true_r. apply andb_comm.
Qed.

(** [trimEnd] cuts the input where only whitespace is left. *)
Lemma trimEnd_unfold c t :
  trimEnd (c :: t) = if forallb isSpace (c :: t) then [] else c :: trimEnd t.
Proof.
  unfold trimEnd. cbn [rev forallb].
  destruct (isSpace c) eqn:Ec; cbn [andb].
  - destruct (forallb isSpace t) eqn:Et.
    + rewrite dropSpaces_all; [reflexivity|].
      rewrite forallb_app, forallb_rev, Et. cbn [forallb]. rewrite Ec. reflexivity.
    + rewrite dropSpaces_app by (rewrite forallb_rev; exact Et).
      rewrite rev_app_distr. reflexivity.
  - rewrite dropSpaces_snoc by exact Ec. rewrite rev_app_distr. reflexivity.
Qed.

Lemma takeSpaces_length s : (length (takeSpaces s) <= length s)%nat.
Proof.
  induction s as [|c t IH]; [reflexivity|]. cbn [takeSpaces].
  destruct (isSpace c); cbn [length]; lia.
Qed.

Lemma dropSpaces_length s : (length (dropSpaces s) <= length s)%nat.
Proof.
  induction s as [|c t IH]; [reflexivity|]. cbn [dropSpaces].
  destruct (isSpace c); cbn [length]; lia.
Qed.

(** Numbers: an integer of at most 53 bits is a double. *)
Lemma nearest_safe z : (0 <= z <= 2 ^ 53)%Z -> nearest z = z.
Proof.
  intros Hz. unfold nearest.
  destruct (Z.eq_dec z (2 ^ 53)%Z) as [->|Hne]; [reflexivity|].
  destruct (Z.eq_dec z 0%Z) as [->|Hpos]; [reflexivity|].
  assert (Z.log2 z < 53)%Z as Hlog by (apply Z.log2_lt_pow2; lia).
  destruct (Z.leb_spec (Z.log2 z - 52) 0); [reflexivity|lia].
Qed.

Lemma double_safe z : (- 2 ^ 53 <= z <= 2 ^ 53)%Z -> double z = z.
Proof.
  intros Hz. unfold double. rewrite nearest_safe by lia.
  rewrite Z.mul_comm. apply Z.abs_sgn.
Qed.

Lemma nearest_nonneg z : (0 <= z)%Z -> (0 <= nearest z)%Z.
Proof.
  intros Hz. unfold nearest. destruct (_ <=? 0)%Z eqn:E; [exact Hz|].
  apply Z.leb_gt in E.
  assert (0 < 2 ^ (Z.log2 z - 52))%Z as Hulp by (apply Z.pow_pos_nonneg; lia).
  assert (0 <= z / 2 ^ (Z.log2 z - 52))%Z as Hq by (apply Z.div_pos; lia).
  destruct (_ || _); nia.
Qed.

Lemma double_nonneg z : (0 <= z)%Z -> (0 <= double z)%Z.
Proof.
  intros Hz. unfold double. pose proof (nearest_nonneg (Z.abs z) (Z.abs_nonneg z)).
  pose proof (Z.sgn_nonneg z). nia.
Qed.

Lemma add_safe a b : (- 2 ^ 53 <= a + b <= 2 ^ 53)%Z -> add a b = (a + b)%Z.
Proof. apply double_safe. Qed.

(** Numerals. *)
Lemma digitsValue_snoc ds d :
  digitsValue (ds ++ [d]) = (10 * digitsValue ds + (Z.of_N d - 48))%Z.
Proof. unfold digitsValue. rewrite fold_left_app. reflexivity. Qed.

Lemma digitsRev_S f n :
  digitsRev (S f) n
  = (48 + n mod 10) :: (if n / 10 =? 0 then [] else digitsRev f (n / 10)).
Proof. reflexivity. Qed.

Lemma digitsValue_digitsRev f : forall n,
  (N.to_nat n < f)%nat -> digitsValue (rev (digitsRev f n)) = Z.of_N n.
Proof.
  induction f as [|f IH]; intros n Hf; [lia|].
  rewrite digitsRev_S. cbn [rev]. rewrite digitsValue_snoc.
  pose proof (N.div_mod n 10 ltac:(discriminate)) as Hdm.
  destruct (N.eqb_spec (n / 10) 0) as [Hz|Hnz].
  - cbn [rev]. change (digitsValue []) with 0%Z. rewrite Hz in Hdm. lia.
  - rewrite IH; [lia|].
    assert (0 < n) by (destruct n; [exfalso; apply Hnz; reflexivity|lia]).
    assert (n / 10 < n) by (apply N.div_lt; lia). lia.
Qed.

Lemma digitsValue_numeral n : digitsValue (numeral n) = Z.of_N n.
Proof. unfold numeral. apply digitsValue_digitsRev. lia. Qed.

(** A numeral of a safe integer is read exactly. *)
Lemma parseInt_numeral n : n <= 2 ^ 53 -> parseInt (numeral n) = Z.of_N n.
Proof.
  intros Hn. unfold parseInt. rewrite digitsValue_numeral. apply double_safe.
  change (2 ^ 53)%Z with (Z.of_N (2 ^ 53)). lia.
Qed.

Lemma digitsValue_nonneg ds : forallb isDigit ds = true -> (0 <= digitsValue ds)%Z.
Proof.
  assert (forall acc, (0 <= acc)%Z -> forallb isDigit ds = true ->
            (0 <= fold_left (fun acc d => 10 * acc + (Z.of_N d - 48)) ds acc)%Z) as H.
  { induction ds as [|d ds IH]; intros acc Hacc Hds; [exact Hacc|].
    cbn [forallb fold_left] in *. apply andb_prop in Hds as [Hd Hds].
    apply IH; [|exact Hds]. unfold isDigit in Hd. apply andb_prop in Hd as [Hd _].
    apply N.leb_le in Hd. lia. }
  apply H. lia.
Qed.

Lemma parseInt_nonneg ds : forallb isDigit ds = true -> (0 <= parseInt ds)%Z.
Proof. intros H. apply double_nonneg, digitsValue_nonneg, H. Qed.

Lemma digitsRev_digits f : forall n, forallb isDigit (digitsRev f n) = true.
Proof.
  induction f as [|f IH]; intros n; [reflexivity|].
  rewrite digitsRev_S. cbn [forallb].
  assert (isDigit (48 + n mod 10) = true) as ->.
  { pose proof (N.mod_upper_bound n 10 ltac:(discriminate)) as Hr.
    revert Hr. generalize (n mod 10). intros r Hr.
    unfold isDigit. apply andb_true_intro. split; apply N.leb_le; lia. }
  destruct (n / 10 =? 0); [reflexivity|apply IH].
Qed.

Lemma digitsRev_length f : forall n k,
  n < 10 ^ N.of_nat (S k) -> (length (digitsRev f n) <= S k)%nat.
Proof.
  induction f as [|f IH]; intros n k Hn; [cbn [digitsRev length]; lia|].
  rewrite digitsRev_S. cbn [length].
  destruct (N.eqb_spec (n / 10) 0) as [Hz|Hnz]; [cbn [length]; lia|].
  destruct k as [|k].
  - exfalso. apply Hnz. apply N.div_small. exact Hn.
  - specialize (IH (n / 10) k). apply le_n_S, IH.
    apply N.Div0.div_lt_upper_bound.
    replace (N.of_nat (S (S k))) with (N.succ (N.of_nat (S k))) in Hn by lia.
    rewrite N.pow_succ_r' in Hn. exact Hn.
Qed.

Lemma numeral_digits n : forallb isDigit (numeral n) = true.
Proof. unfold numeral. rewrite forallb_rev. apply digitsRev_digits. Qed.

Lemma numeral_length n k :
  n < 10 ^ N.of_nat (S k) -> (length (numeral n) <= S k)%nat.
Proof. unfold numeral. rewrite length_rev. apply digitsRev_length. Qed.

Lemma numeral_nonempty n : numeral n <> [].
Proof.
  unfold numeral. rewrite digitsRev_S. cbn [rev].
  destruct (rev _); discriminate.
Qed.

End JSFacts.

Module RegexFacts.
Import JS Regex.

Lemma m_Seq r1 r2 k st cs : m (Seq r1 r2) k st cs = m r1 (m r2 k) st cs.
Proof. reflexivity. Qed.

Lemma m_Cls_cons p k n c s cs :
  m (Cls p) k (n, c :: s) cs = if p c then k (S n, s) cs else None.
Proof. reflexivity. Qed.

Lemma m_Cls_nil p k n cs : m (Cls p) k (n, []) cs = None.
Proof. reflexivity. Qed.

Lemma m_Star g r k n s cs :
  m (Star g r) k (n, s) cs = star (S (length s)) g (m r) k (n, s) cs.
Proof. reflexivity. Qed.

Lemma m_Grp i r k n s cs :
  m (Grp i r) k (n, s) cs
  = m r (fun st' cs' => k st' ((i, take (fst st' - n) s) :: cs')) (n, s) cs.
Proof. reflexivity. Qed.

Lemma m_Ahead r k st cs :
  m (Ahead r) k st cs
  = match m r final st cs with Some (_, cs') => k st cs' | None => None end.
Proof. reflexivity. Qed.

(** A pattern that must first read a code unit of a class fails where
    the input is over or starts outside the class. *)
Lemma firstp_nil r p k n cs : firstp r = Some p -> m r k (n, []) cs = None.
Proof.
  revert p k cs. induction r; intros q k cs H; simpl in H; try discriminate.
  - reflexivity.
  - rewrite m_Seq. eapply IHr1; eassumption.
  - rewrite m_Grp. eapply IHr; eassumption.
Qed.

Lemma firstp_reject r p k n c s cs :
  firstp r = Some p -> p c = false -> m r k (n, c :: s) cs = None.
Proof.
  revert p k cs. induction r; intros q k cs H Hc; simpl in H; try discriminate.
  - injection H as ->. rewrite m_Cls_cons, Hc. reflexivity.
  - rewrite m_Seq. eapply IHr1; eassumption.
  - rewrite m_Grp. eapply IHr; eassumption.
Qed.

Lemma searchFrom_hit r n s res :
  m r final (n, s) [] = Some res -> searchFrom r n s = Some (n, res).
Proof. intros H. destruct s; unfold searchFrom; rewrite H; reflexivity. Qed.

Lemma searchFrom_skip r n c s :
  m r final (n, c :: s) [] = None ->
  searchFrom r n (c :: s) = searchFrom r (S n) s.
Proof.
  intros H. unfold searchFrom at 1. rewrite H. reflexivity.
Qed.

Lemma searchFrom_skip_run r p xs n s :
  firstp r = Some p -> forallb (fun c => negb (p c)) xs = true ->
  searchFrom r n (xs ++ s) = searchFrom r (n + length xs) s.
Proof.
  intros Hp. revert n. induction xs as [|x xs IH]; intros n H;
    cbn [app length forallb] in *.
  - rewrite Nat.add_0_r. reflexivity.
  - apply andb_prop in H as [Hx Hxs]. apply negb_true_iff in Hx.
    rewrite searchFrom_skip by (eapply firstp_reject; eassumption).
    rewrite IH by exact Hxs. f_equal. lia.
Qed.

Lemma searchFrom_none r p n s :
  firstp r = Some p -> forallb (fun c => negb (p c)) s = true ->
  searchFrom r n s = None.
Proof.
  intros Hp H. rewrite <- (app_nil_r s).
  rewrite (searchFrom_skip_run _ _ _ _ _ Hp H).
  unfold searchFrom. rewrite (firstp_nil _ _ _ _ _ Hp). reflexivity.
Qed.

Lemma searchFrom_Bol r n s : searchFrom (Seq Bol r) (S n) s = None.
Proof.
  revert n. induction s as [|c s IH]; intros n; [reflexivity|].
  rewrite searchFrom_skip by reflexivity. apply IH.
Qed.

Lemma exec_Bol_none r s :
  m r final (0%nat, s) [] = None -> exec (Seq Bol r) s = None.
Proof.
  intros H. unfold exec. destruct s as [|c s].
  - unfold searchFrom. rewrite m_Seq. simpl. rewrite H. reflexivity.
  - rewrite searchFrom_skip; [apply searchFrom_Bol|].
    rewrite m_Seq. simpl. exact H.
Qed.

(** Literals. *)
Lemma canon_eqb_refl c : (canon c =? canon c) = true.
Proof. apply N.eqb_refl. Qed.

Lemma m_liti_app w k n s cs :
  m (liti w) k (n, w ++ s) cs = k ((n + length w)%nat, s) cs.
Proof.
  revert n. induction w as [|c w IH]; intros n; simpl.
  - rewrite Nat.add_0_r. reflexivity.
  - rewrite canon_eqb_refl. fold (liti w). rewrite IH.
    replace (S n + length w)%nat with (n + S (length w))%nat by lia. reflexivity.
Qed.

Lemma m_lit_app w k n s cs :
  m (lit w) k (n, w ++ s) cs = k ((n + length w)%nat, s) cs.
Proof.
  revert n. induction w as [|c w IH]; intros n; simpl.
  - rewrite Nat.add_0_r. reflexivity.
  - rewrite N.eqb_refl. fold (lit w). rewrite IH.
    replace (S n + length w)%nat with (n + S (length w))%nat by lia. reflexivity.
Qed.

Lemma m_lit_reject a w k n c t cs :
  (a =? c) = false -> m (lit (a :: w)) k (n, c :: t) cs = None.
Proof.
  intros H. cbn [lit fold_right]. rewrite m_Seq, m_Cls_cons, H. reflexivity.
Qed.

Lemma m_Alt r1 r2 k st cs :
  m (Alt r1 r2) k st cs
  = match m r1 k st cs with Some res => Some res | None => m r2 k st cs end.
Proof. reflexivity. Qed.

Lemma succ_eqb_false n : (S n =? n)%nat = false.
Proof. apply Nat.eqb_neq. lia. Qed.

Lemma star_greedy_S f body k st cs :
  star (S f) true body k st cs
  = match body (fun st' cs' =>
                  if (fst st' =? fst st)%nat then None
                  else star f true body k st' cs') st cs with
    | Some res => Some res
    | None => k st cs
    end.
Proof. reflexivity. Qed.

Lemma star_lazy_S f body k st cs :
  star (S f) false body k st cs
  = match k st cs with
    | Some res => Some res
    | None => body (fun st' cs' =>
                      if (fst st' =? fst st)%nat then None
                      else star f false body k st' cs') st cs
    end.
Proof. reflexivity. Qed.

(** A greedy iteration over a class takes the whole run when the rest of
    the pattern matches after it. *)
Lemma star_greedy_run p xs : forall fuel n s k cs v,
  forallb p xs = true -> stops p s = true -> (length xs < fuel)%nat ->
  k ((n + length xs)%nat, s) cs = Some v ->
  star fuel true (m (Cls p)) k (n, xs ++ s) cs = Some v.
Proof.
  induction xs as [|x xs IH]; intros fuel n s k cs v Hxs Hs Hf Hk;
    (destruct fuel as [|f]; [cbn [length] in Hf; lia|]);
    rewrite star_greedy_S; cbn [app length forallb fst] in *.
  - rewrite Nat.add_0_r in Hk.
    destruct s as [|c s]; [rewrite m_Cls_nil; exact Hk|].
    cbn [stops] in Hs. apply negb_true_iff in Hs.
    rewrite m_Cls_cons, Hs. exact Hk.
  - apply andb_prop in Hxs as [Hx Hxs].
    rewrite m_Cls_cons, Hx. cbn [fst]. rewrite succ_eqb_false.
    rewrite (IH f (S n) s k cs v); auto; [lia|].
    replace (S n + length xs)%nat with (n + S (length xs))%nat by lia. exact Hk.
Qed.

Lemma m_Star_greedy_run p xs n s k cs v :
  forallb p xs = true -> stops p s = true ->
  k ((n + length xs)%nat, s) cs = Some v ->
  m (Star true (Cls p)) k (n, xs ++ s) cs = Some v.
Proof.
  intros. rewrite m_Star. apply star_greedy_run; auto.
  rewrite length_app. lia.
Qed.

(** A lazy iteration over all code units stops at the first place where
    the rest of the pattern matches. *)
Lemma star_lazy_run xs : forall fuel n s k cs v,
  (forall c, In c xs -> forall n' t cs', k (n', c :: t) cs' = None) ->
  (length xs < fuel)%nat ->
  k ((n + length xs)%nat, s) cs = Some v ->
  star fuel false (m any) k (n, xs ++ s) cs = Some v.
Proof.
  induction xs as [|x xs IH]; intros fuel n s k cs v Hfail Hf Hk;
    (destruct fuel as [|f]; [cbn [length] in Hf; lia|]);
    rewrite star_lazy_S; cbn [app length fst] in *.
  - rewrite Nat.add_0_r in Hk. rewrite Hk. reflexivity.
  - rewrite (Hfail x (or_introl eq_refl)).
    unfold any at 1. rewrite m_Cls_cons. cbn [fst]. rewrite succ_eqb_false.
    apply IH; [intros; apply Hfail; right; assumption|lia|].
    replace (S n + length xs)%nat with (n + S (length xs))%nat by lia. exact Hk.
Qed.

Lemma m_Star_lazy_run xs n s k cs v :
  (forall c, In c xs -> forall n' t cs', k (n', c :: t) cs' = None) ->
  k ((n + length xs)%nat, s) cs = Some v ->
  m (Star false any) k (n, xs ++ s) cs = Some v.
Proof.
  intros. rewrite m_Star. apply star_lazy_run; auto.
  rewrite length_app. lia.
Qed.

Lemma m_liti_clash w b : forall k n s cs,
  clash w b = true -> m (liti w) k (n, b ++ s) cs = None.
Proof.
  revert b. induction w as [|a w IH]; intros b k n s cs H;
    [destruct b; discriminate|].
  destruct b as [|c b]; [discriminate|].
  cbn [clash] in H. cbn [liti fold_right app]. fold (liti w).
  rewrite m_Seq, m_Cls_cons.
  destruct (canon c =? canon a); [apply IH; exact H|reflexivity].
Qed.

Lemma clash_app w b s : clash w b = true -> clash w (b ++ s) = true.
Proof.
  revert b. induction w as [|a w IH]; intros b H; [destruct b; discriminate|].
  destruct b as [|c b]; [discriminate|].
  cbn [clash app] in *.
  destruct (canon c =? canon a); [apply IH; exact H|reflexivity].
Qed.

Lemma noStart_app w x y :
  noStart w x = true -> noStart w y = true -> noStart w (x ++ y) = true.
Proof.
  intros Hx Hy. induction x as [|c x IH]; [exact Hy|].
  cbn [noStart app] in *. apply andb_prop in Hx as [Hc Hx].
  rewrite IH by exact Hx.
  change (c :: x ++ y) with ((c :: x) ++ y).
  rewrite clash_app by exact Hc. reflexivity.
Qed.

Lemma noStart_forall a w xs :
  forallb (fun c => negb (canon c =? canon a)) xs = true ->
  noStart (a :: w) xs = true.
Proof.
  induction xs as [|c xs IH]; intros H; [reflexivity|].
  cbn [forallb noStart clash] in *. apply andb_prop in H as [Hc H].
  apply negb_true_iff in Hc. rewrite Hc, IH by exact H. reflexivity.
Qed.

Lemma searchFrom_noStart w r pre : forall n s,
  noStart w pre = true ->
  searchFrom (Seq (liti w) r) n (pre ++ s)
  = searchFrom (Seq (liti w) r) (n + length pre) s.
Proof.
  induction pre as [|c pre IH]; intros n s H; cbn [app length noStart] in *.
  - rewrite Nat.add_0_r. reflexivity.
  - apply andb_prop in H as [Hc H].
    rewrite searchFrom_skip.
    + rewrite IH by exact H. f_equal. lia.
    + rewrite m_Seq. change (c :: pre ++ s) with ((c :: pre) ++ s).
      apply m_liti_clash. exact Hc.
Qed.

Lemma exec_noStart_none a w r s :
  noStart (a :: w) s = true -> exec (Seq (liti (a :: w)) r) s = None.
Proof.
  intros H. unfold exec. rewrite <- (app_nil_r s).
  rewrite searchFrom_noStart by exact H.
  unfold searchFrom. rewrite m_Seq. reflexivity.
Qed.

(** Digits are none of the other characters of the patterns. *)
Lemma isDigit_cases c :
  isDigit c = true -> In c [48; 49; 50; 51; 52; 53; 54; 55; 56; 57].
Proof.
  unfold isDigit. intros H. apply andb_prop in H as [H1 H2].
  apply N.leb_le in H1, H2. cbn [In].
  assert (c = 48 \/ c = 49 \/ c = 50 \/ c = 51 \/ c = 52 \/ c = 53
          \/ c = 54 \/ c = 55 \/ c = 56 \/ c = 57) by lia.
  intuition auto.
Qed.

Lemma digits_reject (p : char -> bool) ds :
  forallb (fun c => negb (p c)) [48; 49; 50; 51; 52; 53; 54; 55; 56; 57] = true ->
  forallb isDigit ds = true ->
  forallb (fun c => negb (p c)) ds = true.
Proof.
  intros Hp Hd. rewrite forallb_forall in *. intros c Hc.
  apply Hp, isDigit_cases, Hd, Hc.
Qed.

(** One or more whitespace, read greedily: the whole run when the rest
    of the pattern matches after it. *)
Lemma m_spaces k n c t cs v :
  isSpace c = true ->
  k ((S n + length (takeSpaces t))%nat, dropSpaces t) cs = Some v ->
  m (Plus true space) k (n, c :: t) cs = Some v.
Proof.
  intros Hc Hk. unfold Plus. rewrite m_Seq. unfold space at 1.
  rewrite m_Cls_cons, Hc.
  rewrite <- (JSFacts.takeSpaces_dropSpaces t) at 1.
  apply m_Star_greedy_run; [apply JSFacts.takeSpaces_spaces| |exact Hk].
  pose proof (JSFacts.dropSpaces_head t) as H. unfold stops.
  destruct (dropSpaces t); [reflexivity|]. cbn in H. rewrite H. reflexivity.
Qed.

Lemma m_spaces_reject k n c t cs :
  isSpace c = false -> m (Plus true space) k (n, c :: t) cs = None.
Proof. intros Hc. apply (firstp_reject _ isSpace); [reflexivity|exact Hc]. Qed.

(** Whitespace up to the end of the input: every shorter run is tried
    and stops before whitespace, not at the end. *)
Lemma star_spaces_eol s : forall fuel n cs,
  (length s < fuel)%nat ->
  star fuel true (m space) (m Eol final) (n, s) cs
  = if forallb isSpace s then Some (((n + length s)%nat, []), cs) else None.
Proof.
  induction s as [|c t IH]; intros fuel n cs Hf;
    (destruct fuel as [|f]; [cbn [length] in Hf; lia|]);
    rewrite star_greedy_S; unfold space at 1; cbn [length forallb fst] in *.
  - rewrite m_Cls_nil, Nat.add_0_r. reflexivity.
  - rewrite m_Cls_cons. destruct (isSpace c) eqn:Ec; cbn [andb]; [|reflexivity].
    cbn [fst]. rewrite succ_eqb_false. fold space. rewrite IH by lia.
    destruct (forallb isSpace t); [|reflexivity].
    replace (S n + length t)%nat with (n + S (length t))%nat by lia. reflexivity.
Qed.

Lemma m_spaces_eol n c t :
  m (Seq (Plus true space) Eol) final (n, c :: t) []
  = if forallb isSpace (c :: t)
    then Some (((n + S (length t))%nat, []), [])
    else None.
Proof.
  unfold Plus. rewrite !m_Seq. unfold space at 1. rewrite m_Cls_cons.
  cbn [forallb]. destruct (isSpace c); cbn [andb]; [|reflexivity].
  rewrite m_Star, star_spaces_eol by lia.
  destruct (forallb isSpace t); [|reflexivity].
  replace (S n + length t)%nat with (n + S (length t))%nat by lia. reflexivity.
Qed.

(** The steps of a global replace. *)
Lemma searchFrom_ge r : forall s n i res,
  searchFrom r n s = Some (i, res) -> (n <= i)%nat.
Proof.
  induction s as [|c t IH]; intros n i res H; unfold searchFrom in H; fold searchFrom in H;
    destruct (m r final _ []) as [res'|].
  - injection H as <- _. lia.
  - discriminate.
  - injection H as <- _. lia.
  - apply IH in H. lia.
Qed.

Lemma replaceFrom_nil f r rep n :
  m r final (n, []) [] = None -> replaceFrom f r rep n [] = [].
Proof.
  intros H. destruct f; [reflexivity|]. cbn [replaceFrom].
  unfold searchFrom. rewrite H. reflexivity.
Qed.

Lemma replaceFrom_skip f r rep n c t :
  m r final (n, c :: t) [] = None ->
  replaceFrom (S f) r rep n (c :: t) = c :: replaceFrom (S f) r rep (S n) t.
Proof.
  intros H. cbn [replaceFrom]. rewrite searchFrom_skip by exact H.
  destruct (searchFrom r (S n) t) as [[i [[e rest] cs]]|] eqn:E; [|reflexivity].
  apply searchFrom_ge in E.
  replace (i - n)%nat with (S (i - S n)) by lia. reflexivity.
Qed.

Lemma replaceFrom_hit f r rep n s e rest cs :
  m r final (n, s) [] = Some ((e, rest), cs) -> (n < e)%nat ->
  replaceFrom (S f) r rep n s = rep ++ replaceFrom f r rep e rest.
Proof.
  intros H He. cbn [replaceFrom]. rewrite (searchFrom_hit _ _ _ _ H).
  rewrite Nat.sub_diag. cbn [take app].
  replace (e =? n)%nat with false by (symmetry; apply Nat.eqb_neq; lia).
  reflexivity.
Qed.

End RegexFacts.

Module SanitizerFacts.
Import JS Regex Sanitizer JSFacts RegexFacts.

Lemma isSpace_32 : isSpace 32 = true.
Proof. reflexivity. Qed.

Lemma allowed_32 : allowed 32 = true.
Proof. reflexivity. Qed.

Lemma replaceSpecial_allowed (s : jsstring) :
  Forall (fun c => allowed c = true) (replaceSpecial s).
Proof.
  induction s as [|c t IH]; simpl; constructor; auto.
  destruct (allowed c) eqn:E; auto.
Qed.

Lemma normalizeSpaces_allowed (s : jsstring) :
  Forall (fun c => allowed c = true) s ->
  Forall (fun c => allowed c = true) (normalizeSpaces s).
Proof.
  induction 1 as [|c t Hc Ht IH]; simpl; [constructor|].
  destruct (isSpace c).
  - destruct t as [|c' t']; [repeat constructor|].
    destruct (isSpace c'); [exact IH|constructor; [reflexivity|exact IH]].
  - constructor; assumption.
Qed.

Lemma normalizeSpaces_head (s : jsstring) :
  startsWithSpace (normalizeSpaces s) = startsWithSpace s.
Proof.
  induction s as [|c t IH]; simpl; [reflexivity|].
  destruct (isSpace c) eqn:E; simpl; [|exact E].
  destruct t as [|c' t']; [reflexivity|].
  destruct (isSpace c') eqn:E'; [|reflexivity].
  rewrite IH. simpl. exact E'.
Qed.

Lemma normalizeSpaces_noSpaceRun (s : jsstring) :
  noSpaceRun (normalizeSpaces s) = true.
Proof.
  induction s as [|c t IH]; simpl; [reflexivity|].
  destruct (isSpace c) eqn:E.
  - destruct t as [|c' t']; [reflexivity|].
    destruct (isSpace c') eqn:E'; [exact IH|].
    change (noSpaceRun (32 :: normalizeSpaces (c' :: t')))
      with (negb (isSpace 32 && startsWithSpace (normalizeSpaces (c' :: t')))
            && noSpaceRun (normalizeSpaces (c' :: t'))).
    rewrite IH, normalizeSpaces_head. simpl. rewrite E'. reflexivity.
  - change (noSpaceRun (c :: normalizeSpaces t))
      with (negb (isSpace c && startsWithSpace (normalizeSpaces t))
            && noSpaceRun (normalizeSpaces t)).
    rewrite E, IH. reflexivity.
Qed.

Lemma last_map (f : char -> char) (s : jsstring) :
  last (map f s) = option_map f (last s).
Proof.
  induction s as [|c [|d t] IH]; [reflexivity|reflexivity|].
  exact IH.
Qed.

Lemma normalizeSpaces_cons_nonempty (c : char) (t : jsstring) :
  normalizeSpaces (c :: t) <> [].
Proof.
  revert c. induction t as [|c' t' IH]; intros c; simpl.
  - destruct (isSpace c); discriminate.
  - destruct (isSpace c); [|discriminate].
    destruct (isSpace c') eqn:E'; [|discriminate].
    specialize (IH c'). simpl in IH. rewrite ?E' in IH. exact IH.
Qed.

Lemma last_cons_nonempty (x : char) (l : jsstring) :
  l <> [] -> last (x :: l) = last l.
Proof. destruct l; [congruence|reflexivity]. Qed.

Lemma normalizeSpaces_last (s : jsstring) :
  endsWithSpace (normalizeSpaces s) = endsWithSpace s.
Proof.
  unfold endsWithSpace.
  induction s as [|c t IH]; [reflexivity|].
  destruct t as [|c' t'].
  - simpl. destruct (isSpace c) eqn:E; simpl; [reflexivity|rewrite E; reflexivity].
  - change (last (c :: c' :: t')) with (last (c' :: t')). rewrite <- IH.
    pose proof (normalizeSpaces_cons_nonempty c' t') as Hne.
    change (normalizeSpaces (c :: c' :: t')) with
      (if isSpace c
       then if isSpace c' then normalizeSpaces (c' :: t')
            else 32 :: normalizeSpaces (c' :: t')
       else c :: normalizeSpaces (c' :: t')).
    destruct (isSpace c); [destruct (isSpace c')|];
      rewrite ?last_cons_nonempty by exact Hne; reflexivity.
Qed.

(** The global replace of line 291 is the map [replaceSpecial]. *)
Lemma replaceFrom_special s : forall f n,
  (length s <= f)%nat -> replaceFrom (S f) specialRe [32] n s = replaceSpecial s.
Proof.
  induction s as [|c t IH]; intros f n Hf; [apply replaceFrom_nil; reflexivity|].
  cbn [length] in Hf. cbn [replaceSpecial map]. fold (replaceSpecial t).
  destruct (allowed c) eqn:Ec.
  - rewrite replaceFrom_skip; [rewrite IH by lia; reflexivity|].
    unfold specialRe. rewrite m_Cls_cons, Ec. reflexivity.
  - destruct f as [|f]; [lia|].
    rewrite (replaceFrom_hit _ _ _ _ _ (S n) t []); [|unfold specialRe; rewrite m_Cls_cons, Ec; reflexivity|lia].
    rewrite IH by lia. reflexivity.
Qed.

Lemma normalizeSpaces_cons2 c c' t :
  normalizeSpaces (c :: c' :: t)
  = if isSpace c
    then if isSpace c' then normalizeSpaces (c' :: t)
         else 32 :: normalizeSpaces (c' :: t)
    else c :: normalizeSpaces (c' :: t).
Proof. reflexivity. Qed.

Lemma normalizeSpaces_space t : forall c,
  isSpace c = true -> normalizeSpaces (c :: t) = 32 :: normalizeSpaces (dropSpaces t).
Proof.
  induction t as [|c' t' IH]; intros c Hc.
  - cbn. rewrite Hc. reflexivity.
  - rewrite normalizeSpaces_cons2, Hc. cbn [dropSpaces].
    destruct (isSpace c') eqn:Ec'; [apply IH, Ec'|reflexivity].
Qed.

Lemma normalizeSpaces_nonspace c t :
  isSpace c = false -> normalizeSpaces (c :: t) = c :: normalizeSpaces t.
Proof. intros Hc. cbn [normalizeSpaces]. rewrite Hc. reflexivity. Qed.

(** The global replace of line 292 is [normalizeSpaces]. *)
Lemma replaceFrom_spaces : forall k s f n,
  (length s <= k)%nat -> (k <= f)%nat ->
  replaceFrom (S f) spacesRe [32] n s = normalizeSpaces s.
Proof.
  induction k as [|k IH]; intros s f n Hk Hf.
  - destruct s; [|cbn [length] in Hk; lia]. apply replaceFrom_nil. reflexivity.
  - destruct s as [|c t]; [apply replaceFrom_nil; reflexivity|].
    cbn [length] in Hk. destruct f as [|f]; [lia|].
    destruct (isSpace c) eqn:Ec.
    + rewrite (replaceFrom_hit _ _ _ _ _ (S n + length (takeSpaces t))%nat
                 (dropSpaces t) []); [| |lia].
      * rewrite (IH _ f) by (pose proof (dropSpaces_length t); lia).
        rewrite normalizeSpaces_space by exact Ec. reflexivity.
      * unfold spacesRe. apply m_spaces; [exact Ec|reflexivity].
    + rewrite replaceFrom_skip by (apply m_spaces_reject; exact Ec).
      rewrite (IH t (S f)) by lia.
      rewrite normalizeSpaces_nonspace by exact Ec. reflexivity.
Qed.

(** The global replace of line 290, past the start of the input, is
    [trimEnd]; from the start it is [stripEnds]. *)
Lemma m_endsRe_later n c t :
  m endsRe final (S n, c :: t) []
  = if forallb isSpace (c :: t)
    then Some (((S n + S (length t))%nat, []), [])
    else None.
Proof.
  unfold endsRe. rewrite m_Alt, m_Seq.
  change (m Bol ?k (S n, ?x) ?cs) with (@None ((nat * list N) * list (nat * list N))).
  cbv iota. apply m_spaces_eol.
Qed.

Lemma replaceFrom_ends_later s : forall f n,
  (length s <= f)%nat -> replaceFrom (S f) endsRe [] (S n) s = trimEnd s.
Proof.
  induction s as [|c t IH]; intros f n Hf; [apply replaceFrom_nil; reflexivity|].
  cbn [length] in Hf. rewrite trimEnd_unfold.
  pose proof (m_endsRe_later n c t) as Hm.
  destruct (forallb isSpace (c :: t)).
  - destruct f as [|f]; [lia|].
    rewrite (replaceFrom_hit _ _ _ _ _ _ _ _ Hm) by lia.
    apply replaceFrom_nil. reflexivity.
  - rewrite replaceFrom_skip by exact Hm. rewrite IH by lia. reflexivity.
Qed.

Lemma replaceAll_ends s : replaceAll endsRe [] s = stripEnds s.
Proof.
  unfold replaceAll, stripEnds, trimStart.
  destruct s as [|c t]; [reflexivity|].
  destruct (isSpace c) eqn:Ec.
  - cbn [dropSpaces]. rewrite Ec.
    rewrite (replaceFrom_hit _ _ _ _ _ (S (length (takeSpaces t))) (dropSpaces t) []);
      [| |lia].
    + apply replaceFrom_ends_later. apply dropSpaces_length.
    + unfold endsRe. rewrite m_Alt, m_Seq.
      change (m Bol ?k (0%nat, ?x) ?cs) with (k (0%nat, x) cs).
      rewrite (m_spaces final 0 c t [] _ Ec eq_refl). reflexivity.
  - cbn [dropSpaces]. rewrite Ec. rewrite trimEnd_cons by exact Ec.
    rewrite replaceFrom_skip.
    + rewrite replaceFrom_ends_later by (cbn [length]; lia). reflexivity.
    + unfold endsRe. rewrite m_Alt, !m_Seq.
      change (m Bol ?k (0%nat, ?x) ?cs) with (k (0%nat, x) cs).
      rewrite !m_spaces_reject by exact Ec. reflexivity.
Qed.

Lemma replaceAll_special s : replaceAll specialRe [32] s = replaceSpecial s.
Proof. apply replaceFrom_special. reflexivity. Qed.

Lemma replaceAll_spaces s : replaceAll spacesRe [32] s = normalizeSpaces s.
Proof. apply (replaceFrom_spaces (length s)); reflexivity. Qed.

(** The sanitizer in terms of what its replaces compute. *)
Lemma sanitizeInput_eq (input : jsstring) :
  sanitizeInput input = normalizeSpaces (replaceSpecial (trim input)).
Proof.
  destruct input as [|c t]; [reflexivity|].
  unfold sanitizeInput. rewrite replaceAll_ends, replaceAll_special, replaceAll_spaces.
  reflexivity.
Qed.



Lemma normalizeSpaces_only_32 (s : jsstring) :
  Forall (fun c => isSpace c = true -> c = 32) (normalizeSpaces s).
Proof.
  induction s as [|c t IH]; simpl; [constructor|].
  destruct (isSpace c) eqn:E.
  - destruct t as [|c' t']; [repeat constructor|].
    destruct (isSpace c'); [exact IH|constructor; [reflexivity|exact IH]].
  - constructor; [congruence|exact IH].
Qed.

(** C6, as amended: for every input the output of the sanitizer holds
    only allow-listed code units, its only whitespace is the space U+0020,
    and no two whitespace code units are adjacent.  The output starts
    (ends) with whitespace exactly when the first (last) code unit of the
    trimmed input is outside the allow-list: the ends are trimmed before
    the replacement, not after. *)
Theorem sanitizeInput_shape (input : jsstring) :
  Forall (fun c => allowed c = true) (sanitizeInput input)
  /\ Forall (fun c => isSpace c = true -> c = 32) (sanitizeInput input)
  /\ noSpaceRun (sanitizeInput input) = true
  /\ startsWithSpace (sanitizeInput input)
     = match trim input with c :: _ => negb (allowed c) | [] => false end
  /\ endsWithSpace (sanitizeInput input)
     = match last (trim input) with Some c => negb (allowed c) | None => false end.
Proof.
  rewrite sanitizeInput_eq. repeat split.
  - apply normalizeSpaces_allowed, replaceSpecial_allowed.
  - apply normalizeSpaces_only_32.
  - apply normalizeSpaces_noSpaceRun.
  - rewrite normalizeSpaces_head.
    pose proof (trim_head input) as H.
    destruct (trim input) as [|c t]; [reflexivity|].
    simpl in *. unfold allowed. rewrite H.
    destruct (isWord c), (isPunct c); simpl; rewrite ?H; reflexivity.
  - rewrite normalizeSpaces_last. unfold endsWithSpace.
    unfold replaceSpecial. rewrite last_map.
    pose proof (trim_last input) as H. unfold endsWithSpace in H.
    destruct (last (trim input)) as [c|]; [|reflexivity].
    simpl. unfold allowed. rewrite H.
    destruct (isWord c), (isPunct c); simpl; rewrite ?H; reflexivity.
Qed.

(** C6, the claim as stated fails: a special character at the start of
    the trimmed input leaves a leading space in the output. *)
Lemma sanitizeInput_leading_space :
  sanitizeInput (codes "#a") = codes " a"
  /\ startsWithSpace (sanitizeInput (codes "#a")) = true.
Proof. split; reflexivity. Qed.

(** A well-behaved input: the ends stay trimmed. *)
Example sanitizeInput_plain :
  sanitizeInput (codes "  What is   2+2?  ") = codes "What is 2 2?".
Proof. reflexivity. Qed.

(** *** Further properties of the sanitizer *)

(** *** What the sanitizer keeps *)

Lemma filter_dropSpaces (p : char -> bool) s :
  (forall c, isSpace c = true -> p c = false) ->
  List.filter p (dropSpaces s) = List.filter p s.
Proof.
  intros Hp. induction s as [|c t IH]; [reflexivity|]. cbn [dropSpaces List.filter].
  destruct (isSpace c) eqn:E; [|reflexivity].
  rewrite (Hp c E). exact IH.
Qed.

Lemma filter_rev (p : char -> bool) (s : jsstring) :
  List.filter p (rev s) = rev (List.filter p s).
Proof.
  induction s as [|c t IH]; [reflexivity|]. cbn [rev List.filter].
  rewrite List.filter_app, IH. cbn [List.filter].
  destruct (p c); [reflexivity|]. cbn [rev]. apply app_nil_r.
Qed.

Lemma filter_trim (p : char -> bool) s :
  (forall c, isSpace c = true -> p c = false) ->
  List.filter p (trim s) = List.filter p s.
Proof.
  intros Hp. unfold trim, trimEnd, trimStart.
  rewrite filter_rev, filter_dropSpaces, filter_rev, rev_involutive by exact Hp.
  apply filter_dropSpaces, Hp.
Qed.

Lemma filter_normalizeSpaces s :
  List.filter (fun c => negb (isSpace c)) (normalizeSpaces s)
  = List.filter (fun c => negb (isSpace c)) s.
Proof.
  induction s as [|c t IH]; [reflexivity|]. cbn [normalizeSpaces List.filter].
  destruct (isSpace c) eqn:E; cbn [negb].
  - destruct t as [|c' t']; [reflexivity|].
    destruct (isSpace c') eqn:E'; [exact IH|].
    cbn [List.filter]. rewrite isSpace_32. cbn [negb]. exact IH.
  - cbn [List.filter]. rewrite E. cbn [negb]. rewrite IH. reflexivity.
Qed.

Lemma filter_replaceSpecial s :
  List.filter (fun c => negb (isSpace c)) (replaceSpecial s)
  = List.filter (fun c => allowed c && negb (isSpace c)) s.
Proof.
  induction s as [|c t IH]; [reflexivity|].
  cbn [replaceSpecial map List.filter]. fold (replaceSpecial t).
  destruct (allowed c); cbn [andb].
  - rewrite IH. reflexivity.
  - rewrite isSpace_32. cbn [negb]. exact IH.
Qed.

Lemma normalizeSpaces_length s : (length (normalizeSpaces s) <= length s)%nat.
Proof.
  induction s as [|c t IH]; [reflexivity|]. cbn [normalizeSpaces].
  destruct (isSpace c).
  - destruct t as [|c' t']; [reflexivity|].
    destruct (isSpace c'); cbn [length] in *; lia.
  - cbn [length]. lia.
Qed.

Lemma trim_length s : (length (trim s) <= length s)%nat.
Proof.
  unfold trim, trimEnd, trimStart. rewrite length_rev.
  pose proof (dropSpaces_length (rev (dropSpaces s))) as H1.
  rewrite length_rev in H1. pose proof (dropSpaces_length s). lia.
Qed.

(** X1: the sanitizer neither drops, nor adds, nor reorders text: the code
    units of the output that are no whitespace are the allow-listed code
    units of the input that are no whitespace, in the same order; and the
    output is never longer than the input. *)
Theorem sanitizeInput_keeps_text (input : jsstring) :
  List.filter (fun c => negb (isSpace c)) (sanitizeInput input)
  = List.filter (fun c => allowed c && negb (isSpace c)) input
  /\ (length (sanitizeInput input) <= length input)%nat.
Proof.
  rewrite sanitizeInput_eq. split.
  - rewrite filter_normalizeSpaces, filter_replaceSpecial.
    apply filter_trim. intros c Hc. rewrite Hc. apply andb_false_r.
  - pose proof (normalizeSpaces_length (replaceSpecial (trim input))) as H.
    unfold replaceSpecial in H at 2. rewrite length_map in H.
    pose proof (trim_length input). lia.
Qed.

(** *** Empty output *)

Lemma trim_all_spaces s : forallb isSpace s = true -> trim s = [].
Proof.
  intros H. unfold trim, trimStart. rewrite dropSpaces_all by exact H. reflexivity.
Qed.

Lemma dropSpaces_nil_iff s : dropSpaces s = [] <-> forallb isSpace s = true.
Proof.
  split; [|apply dropSpaces_all].
  induction s as [|c t IH]; [reflexivity|]. cbn [dropSpaces forallb].
  destruct (isSpace c); [exact IH|discriminate].
Qed.

Lemma trim_nil_iff s : trim s = [] <-> forallb isSpace s = true.
Proof.
  split; [|apply trim_all_spaces].
  unfold trim, trimEnd, trimStart. intros H.
  apply (f_equal (@rev N)) in H. rewrite rev_involutive in H. cbn [rev] in H.
  apply dropSpaces_nil_iff in H. rewrite forallb_rev in H.
  pose proof (takeSpaces_dropSpaces s) as Hs. rewrite <- Hs.
  rewrite forallb_app, takeSpaces_spaces, H. reflexivity.
Qed.

(** X2: the sanitized text is empty exactly when the input is empty or all
    whitespace: a special character is replaced, never removed. *)
Theorem sanitizeInput_empty_iff (input : jsstring) :
  sanitizeInput input = [] <-> forallb isSpace input = true.
Proof.
  rewrite sanitizeInput_eq, <- trim_nil_iff.
  destruct (trim input) as [|c t]; [tauto|].
  split; [|discriminate].
  intros H. exfalso. cbn [replaceSpecial map] in H.
  exact (normalizeSpaces_cons_nonempty _ _ H).
Qed.

(** *** Fixed points *)

Lemma head_rev_last (s : jsstring) :
  startsWithSpace (rev s) = endsWithSpace s.
Proof.
  unfold startsWithSpace, endsWithSpace.
  pose proof (last_rev_head (rev s)) as H. rewrite rev_involutive in H.
  rewrite H. destruct (rev s); reflexivity.
Qed.

Lemma dropSpaces_id s : startsWithSpace s = false -> dropSpaces s = s.
Proof.
  destruct s as [|c t]; [reflexivity|]. cbn [startsWithSpace dropSpaces].
  intros ->. reflexivity.
Qed.

Lemma trim_id s :
  startsWithSpace s = false -> endsWithSpace s = false -> trim s = s.
Proof.
  intros Hs He. unfold trim, trimEnd, trimStart.
  rewrite (dropSpaces_id s Hs), dropSpaces_id by (rewrite head_rev_last; exact He).
  apply rev_involutive.
Qed.

Lemma replaceSpecial_id s :
  Forall (fun c => allowed c = true) s -> replaceSpecial s = s.
Proof.
  induction 1 as [|c t Hc Ht IH]; [reflexivity|].
  cbn [replaceSpecial map]. fold (replaceSpecial t). rewrite Hc, IH. reflexivity.
Qed.

Lemma normalizeSpaces_id s :
  Forall (fun c => isSpace c = true -> c = 32) s -> noSpaceRun s = true ->
  normalizeSpaces s = s.
Proof.
  induction 1 as [|c t Hc Ht IH]; [reflexivity|]. cbn [noSpaceRun]. intros Hrun.
  apply andb_prop in Hrun as [Hct Hrun]. specialize (IH Hrun).
  cbn [normalizeSpaces]. destruct (isSpace c) eqn:Ec.
  - rewrite (Hc eq_refl) in *. destruct t as [|c' t']; [reflexivity|].
    cbn [startsWithSpace andb negb] in Hct. apply negb_true_iff in Hct.
    rewrite Hct, IH. reflexivity.
  - rewrite IH. reflexivity.
Qed.

(** A text of allow-listed code units whose whitespace is single spaces
    between other code units goes through as it is. *)
Lemma sanitizeInput_clean s :
  Forall (fun c => allowed c = true) s ->
  Forall (fun c => isSpace c = true -> c = 32) s ->
  noSpaceRun s = true ->
  startsWithSpace s = false -> endsWithSpace s = false ->
  sanitizeInput s = s.
Proof.
  intros Hall H32 Hrun Hs He.
  rewrite sanitizeInput_eq, trim_id, replaceSpecial_id, normalizeSpaces_id;
    auto.
Qed.

Lemma dropSpaces_Forall (P : char -> Prop) s : Forall P s -> Forall P (dropSpaces s).
Proof.
  induction 1 as [|c t Hc Ht IH]; [constructor|]. cbn [dropSpaces].
  destruct (isSpace c); [exact IH|constructor; assumption].
Qed.

Lemma trim_Forall (P : char -> Prop) s : Forall P s -> Forall P (trim s).
Proof.
  intros H. unfold trim, trimEnd, trimStart.
  apply Forall_rev, dropSpaces_Forall, Forall_rev, dropSpaces_Forall, H.
Qed.

Lemma noSpaceRun_tail c t : noSpaceRun (c :: t) = true -> noSpaceRun t = true.
Proof. cbn [noSpaceRun]. intros H. apply andb_prop in H as [_ H]. exact H. Qed.

Lemma noSpaceRun_dropSpaces s : noSpaceRun s = true -> noSpaceRun (dropSpaces s) = true.
Proof.
  induction s as [|c t IH]; [reflexivity|]. intros H. cbn [dropSpaces].
  destruct (isSpace c); [apply IH, (noSpaceRun_tail _ _ H)|exact H].
Qed.

Lemma noSpaceRun_trimEnd s : noSpaceRun s = true -> noSpaceRun (trimEnd s) = true.
Proof.
  induction s as [|c t IH]; [reflexivity|]. intros H. rewrite trimEnd_unfold.
  destruct (forallb isSpace (c :: t)); [reflexivity|].
  pose proof (IH (noSpaceRun_tail _ _ H)) as IH'.
  cbn [noSpaceRun] in *. apply andb_prop in H as [Hc _]. rewrite IH', andb_true_r.
  destruct (isSpace c); [|reflexivity]. cbn [andb negb] in *.
  apply negb_true_iff in Hc. apply negb_true_iff.
  destruct t as [|c' t']; [reflexivity|]. cbn [startsWithSpace] in Hc.
  rewrite trimEnd_unfold. destruct (forallb isSpace (c' :: t')); [reflexivity|].
  exact Hc.
Qed.

Lemma noSpaceRun_trim s : noSpaceRun s = true -> noSpaceRun (trim s) = true.
Proof.
  intros H. unfold trim, trimStart. apply noSpaceRun_trimEnd, noSpaceRun_dropSpaces, H.
Qed.

(** X3: the sanitizer is not idempotent, but two passes are enough: the second
    pass trims what the first one left at the ends, and a third changes
    nothing. *)
Theorem sanitizeInput_twice_stable (input : jsstring) :
  sanitizeInput (sanitizeInput (sanitizeInput input))
  = sanitizeInput (sanitizeInput input).
Proof.
  set (t := sanitizeInput input).
  assert (Forall (fun c => allowed c = true) t) as Hall.
  { subst t. rewrite sanitizeInput_eq.
    apply normalizeSpaces_allowed, replaceSpecial_allowed. }
  assert (Forall (fun c => isSpace c = true -> c = 32) t) as H32.
  { subst t. rewrite sanitizeInput_eq. apply normalizeSpaces_only_32. }
  assert (noSpaceRun t = true) as Hrun.
  { subst t. rewrite sanitizeInput_eq. apply normalizeSpaces_noSpaceRun. }
  assert (sanitizeInput t = trim t) as ->.
  { rewrite sanitizeInput_eq, replaceSpecial_id by (apply trim_Forall, Hall).
    apply normalizeSpaces_id; [apply trim_Forall, H32|apply noSpaceRun_trim, Hrun]. }
  apply sanitizeInput_clean.
  - apply trim_Forall, Hall.
  - apply trim_Forall, H32.
  - apply noSpaceRun_trim, Hrun.
  - apply trim_head.
  - apply trim_last.
Qed.

Example sanitizeInput_not_idempotent :
  sanitizeInput (codes "#a") = codes " a"
  /\ sanitizeInput (sanitizeInput (codes "#a")) = codes "a".
Proof. split; reflexivity. Qed.

End SanitizerFacts.

Module ParserFacts.
Import JS Regex Parser JSFacts RegexFacts.

Lemma stops_app_nonspace w s : startsNonSpace w = true -> stops isSpace (w ++ s) = true.
Proof. destruct w; [discriminate|intros H; exact H]. Qed.

Lemma isDigit_not_space c : isDigit c = true -> isSpace c = false.
Proof.
  intros H. apply isDigit_cases in H. cbn [In] in H.
  repeat (destruct H as [<-|H]; [reflexivity|]). destruct H.
Qed.

Lemma isNumeral_cons ds :
  isNumeral ds = true ->
  exists d ds', ds = d :: ds' /\ isDigit d = true /\ forallb isDigit ds' = true.
Proof.
  destruct ds as [|d ds']; [discriminate|].
  unfold isNumeral. intros H. apply andb_prop in H as [H _].
  cbn [forallb] in H. apply andb_prop in H as [H1 H2]. eauto.
Qed.

Lemma isNumeral_digits ds : isNumeral ds = true -> forallb isDigit ds = true.
Proof.
  destruct ds; [discriminate|]. unfold isNumeral. intros H.
  apply andb_prop in H as [H _]. exact H.
Qed.

(** A score pattern read at its label: group 1 is the numeral. *)
Lemma labelRe_match w1 w2 ds s n :
  startsNonSpace w2 = true -> isNumeral ds = true -> stops isDigit s = true ->
  exists e,
    m (labelRe w1 w2) final (n, w1 ++ [32] ++ w2 ++ [32] ++ ds ++ s) []
    = Some ((e, s), [(1%nat, ds)]).
Proof.
  intros Hw2 Hds Hs.
  destruct (isNumeral_cons _ Hds) as (d & ds' & -> & Hd & Hds').
  eexists. unfold labelRe, Plus.
  rewrite m_Seq, m_liti_app, m_Seq, m_Seq.
  cbn [app]. unfold space at 1. rewrite m_Cls_cons.
  change (isSpace 32) with true. cbv iota.
  apply (m_Star_greedy_run isSpace []); [reflexivity| |].
  { apply (stops_app_nonspace w2). exact Hw2. }
  rewrite m_Seq, m_liti_app, m_Seq.
  apply (m_Star_greedy_run isSpace [32]); [reflexivity| |].
  { cbn [stops]. rewrite isDigit_not_space by exact Hd. reflexivity. }
  rewrite m_Grp, m_Seq. unfold digit at 1. rewrite m_Cls_cons, Hd.
  apply (m_Star_greedy_run isDigit ds'); [exact Hds'|exact Hs|].
  unfold final. cbn [fst snd]. do 4 f_equal.
  match goal with |- take ?k _ = _ => replace k with (length (d :: ds')) end.
  - change (d :: ds' ++ s) with ((d :: ds') ++ s). apply take_app_length.
  - cbn [length]. lia.
Qed.

Lemma lookBold_ok : lookahead_ok lookBold.
Proof.
  split.
  - intros n c t cs Hc. rewrite N.eqb_sym in Hc. unfold lookBold.
    change (nl ++ codes "**") with (10 :: codes "**"). change nl with [10].
    rewrite !m_Alt, m_Seq, !m_lit_reject by exact Hc. reflexivity.
  - intros n cs. reflexivity.
Qed.

Lemma lookPlain_ok : lookahead_ok lookPlain.
Proof.
  split.
  - intros n c t cs Hc. rewrite N.eqb_sym in Hc. unfold lookPlain.
    change nl with [10].
    rewrite !m_Alt, !m_Seq, !m_lit_reject by exact Hc. reflexivity.
  - intros n cs. reflexivity.
Qed.

(** A justification pattern read at its label, on the last line of the
    input: group 1 is the line from its first code unit that is no
    whitespace. *)
Lemma justRe_match w look sp body n :
  lookahead_ok look ->
  forallb isSpace sp = true -> startsNonSpace body = true ->
  forallb (fun c => negb (c =? 10)) body = true ->
  exists e,
    m (justRe w look) final (n, w ++ sp ++ body) [] = Some ((e, []), [(1%nat, body)]).
Proof.
  intros [Hfail Hend] Hsp Hb Hnl.
  destruct body as [|b bs]; [discriminate|].
  eexists. unfold justRe, Plus.
  rewrite m_Seq, m_liti_app, m_Seq.
  apply (m_Star_greedy_run isSpace sp); [exact Hsp|exact Hb|].
  rewrite m_Seq, m_Grp, m_Seq. unfold any at 1. rewrite m_Cls_cons. cbv iota.
  rewrite <- (app_nil_r bs) at 1.
  cbn [forallb] in Hnl. apply andb_prop in Hnl as [_ Hnl].
  apply m_Star_lazy_run.
  - intros c Hc n' t cs'. rewrite m_Ahead, Hfail; [reflexivity|].
    rewrite forallb_forall in Hnl. apply negb_true_iff, Hnl, Hc.
  - rewrite m_Ahead, Hend. unfold final. cbn [fst snd]. do 4 f_equal.
    match goal with |- take ?k _ = _ => replace k with (length (b :: bs)) end.
    + apply firstn_all.
    + cbn [length]. lia.
Qed.

Lemma dropSpaces_nonspace s :
  forallb isSpace s = false -> startsNonSpace (dropSpaces s) = true.
Proof.
  induction s as [|c t IH]; [discriminate|]. cbn [forallb dropSpaces].
  destruct (isSpace c) eqn:E; [exact IH|]. intros _. cbn. rewrite E. reflexivity.
Qed.

Lemma forallb_impl (p q : char -> bool) (l : jsstring) :
  (forall c, p c = true -> q c = true) ->
  forallb p l = true -> forallb q l = true.
Proof.
  intros Hpq H. rewrite forallb_forall in *. intros c Hc. apply Hpq, H, Hc.
Qed.

Lemma canon_not_star c : (c =? 42) = false -> noStar c = true.
Proof.
  unfold noStar, canon, isLower. intros H. apply N.eqb_neq in H.
  apply negb_true_iff, N.eqb_neq.
  destruct ((97 <=? c) && (c <=? 122)) eqn:E; cbn [isLower andb N.leb].
  - apply andb_prop in E as [E1 E2]. apply N.leb_le in E1, E2.
    change (if (97 <=? 42) && (42 <=? 122) then 42 - 32 else 42) with 42. lia.
  - exact H.
Qed.

Lemma isLine_parts j :
  isLine j = true ->
  forallb (fun c => negb (c =? 10)) j = true
  /\ forallb noStar j = true /\ forallb noTick j = true
  /\ forallb isSpace j = false.
Proof.
  unfold isLine. intros H. apply andb_prop in H as [H1 H2].
  apply negb_true_iff in H2. repeat split; [| | |exact H2];
    (eapply forallb_impl; [|exact H1]); intros c Hc;
    apply andb_prop in Hc as [Hc H96]; apply andb_prop in Hc as [H10 H42].
  - exact H10.
  - apply canon_not_star, negb_true_iff, H42.
  - unfold noTick. rewrite N.eqb_sym. exact H96.
Qed.

Lemma digits_noStar ds : forallb isDigit ds = true -> forallb noStar ds = true.
Proof. apply (digits_reject (fun c => canon c =? canon 42)). reflexivity. Qed.

Lemma digits_noTick ds : forallb isDigit ds = true -> forallb noTick ds = true.
Proof. apply (digits_reject (fun c => 96 =? c)). reflexivity. Qed.

Lemma exec_noStar_none w r s :
  forallb noStar s = true -> exec (Seq (liti (42 :: w)) r) s = None.
Proof. intros H. apply exec_noStart_none, noStart_forall, H. Qed.

Lemma exec_label w1 w2 pre ds s :
  noStart w1 pre = true -> startsNonSpace w2 = true ->
  isNumeral ds = true -> stops isDigit s = true ->
  exists res,
    exec (labelRe w1 w2) (pre ++ w1 ++ [32] ++ w2 ++ [32] ++ ds ++ s) = Some res
    /\ group_of 1 res = ds.
Proof.
  intros Hpre Hw2 Hds Hs.
  destruct (labelRe_match w1 w2 ds s (0 + length pre) Hw2 Hds Hs) as [e He].
  eexists. split.
  - unfold exec. unfold labelRe at 1. rewrite searchFrom_noStart by exact Hpre.
    apply searchFrom_hit. exact He.
  - reflexivity.
Qed.

(** The score patterns on a text without asterisks: the plain pattern is
    the one that matches. *)
Lemma firstMatch_score_plain label text pre ds s :
  forallb noStar text = true ->
  text = pre ++ codes label ++ [32] ++ codes "Score:" ++ [32] ++ ds ++ s ->
  noStart (codes label) pre = true ->
  isNumeral ds = true -> stops isDigit s = true ->
  exists res, firstMatch (scoreRes label) text = Some res /\ group_of 1 res = ds.
Proof.
  intros Hstar Htext Hpre Hds Hs.
  unfold scoreRes, firstMatch.
  unfold labelRe at 1 2. change (codes "**" ++ codes label) with (42 :: 42 :: codes label).
  rewrite !exec_noStar_none by exact Hstar.
  rewrite Htext.
  destruct (exec_label (codes label) (codes "Score:") pre ds s Hpre eq_refl Hds Hs)
    as (res & -> & Hg).
  eauto.
Qed.

(** The score patterns on a text with emphasized labels: the first
    pattern matches. *)
Lemma firstMatch_score_emph label text pre ds s :
  text = pre ++ (codes "**" ++ codes label) ++ [32] ++ codes "Score:**" ++ [32] ++ ds ++ s ->
  noStart (codes "**" ++ codes label) pre = true ->
  isNumeral ds = true -> stops isDigit s = true ->
  exists res, firstMatch (scoreRes label) text = Some res /\ group_of 1 res = ds.
Proof.
  intros Htext Hpre Hds Hs.
  unfold scoreRes, firstMatch. rewrite Htext.
  destruct (exec_label (codes "**" ++ codes label) (codes "Score:**") pre ds s
              Hpre eq_refl Hds Hs) as (res & -> & Hg).
  eauto.
Qed.

Lemma exec_just w look pre j :
  lookahead_ok look -> noStart w pre = true -> isLine j = true ->
  exists res,
    exec (justRe w look) (pre ++ w ++ [32] ++ j) = Some res
    /\ trim (group_of 1 res) = trim j.
Proof.
  intros Hlook Hpre Hj.
  destruct (isLine_parts j Hj) as (Hnl & _ & _ & Hsp).
  destruct (justRe_match w look (32 :: takeSpaces j) (dropSpaces j) (0 + length pre) Hlook)
    as [e He].
  { cbn [forallb]. rewrite takeSpaces_spaces. reflexivity. }
  { apply dropSpaces_nonspace, Hsp. }
  { apply dropSpaces_forallb, Hnl. }
  cbn [app] in He. rewrite takeSpaces_dropSpaces in He.
  eexists. split.
  - unfold exec. unfold justRe at 1. rewrite searchFrom_noStart by exact Hpre.
    apply searchFrom_hit. exact He.
  - unfold group_of. cbn. apply trim_dropSpaces.
Qed.

Lemma firstMatch_just_plain text pre j :
  forallb noStar text = true ->
  text = pre ++ codes "Justification:" ++ [32] ++ j ->
  noStart (codes "Justification:") pre = true -> isLine j = true ->
  exists res,
    firstMatch justificationRes text = Some res
    /\ trim (group_of 1 res) = trim j.
Proof.
  intros Hstar Htext Hpre Hj.
  unfold justificationRes, firstMatch.
  unfold justRe at 1 2.
  change (codes "**Justification:**") with (42 :: codes "*Justification:**").
  change (codes "**Justification**:") with (42 :: codes "*Justification**:").
  rewrite !exec_noStar_none by exact Hstar.
  rewrite Htext.
  destruct (exec_just (codes "Justification:") lookPlain pre j lookPlain_ok Hpre Hj)
    as (res & -> & Hg).
  eauto.
Qed.

Lemma firstMatch_just_emph text pre j :
  text = pre ++ codes "**Justification:**" ++ [32] ++ j ->
  noStart (codes "**Justification:**") pre = true -> isLine j = true ->
  exists res,
    firstMatch justificationRes text = Some res
    /\ trim (group_of 1 res) = trim j.
Proof.
  intros Htext Hpre Hj.
  unfold justificationRes, firstMatch. rewrite Htext.
  destruct (exec_just (codes "**Justification:**") lookBold pre j lookBold_ok Hpre Hj)
    as (res & -> & Hg).
  eauto.
Qed.


(** No code fence and no header: the response is parsed as it is. *)
Lemma codeBlock_none text :
  forallb noTick text = true -> exec codeBlockRe text = None.
Proof.
  intros H. unfold exec. apply (searchFrom_none _ (N.eqb 96)); [reflexivity|exact H].
Qed.

Lemma header1_none b s :
  clash (codes "###") b = true -> removeFirst header1Re (b ++ s) = b ++ s.
Proof.
  intros H. unfold removeFirst, header1Re.
  rewrite exec_Bol_none; [reflexivity|].
  rewrite m_Seq. apply m_liti_clash, H.
Qed.

Lemma header2_none_plain b s :
  clash (codes "**") b = true -> clash (codes "Evaluation") b = true ->
  removeFirst header2Re (b ++ s) = b ++ s.
Proof.
  intros H1 H2. unfold removeFirst, header2Re.
  rewrite exec_Bol_none; [reflexivity|].
  rewrite m_Seq. unfold Opt at 1. rewrite m_Alt.
  rewrite m_liti_clash by exact H1.
  change (m Eps ?k ?st ?cs) with (k st cs).
  rewrite m_Seq. apply m_liti_clash, H2.
Qed.

Lemma header2_none_emph b s :
  clash (codes "Evaluation") b = true ->
  removeFirst header2Re (codes "**" ++ b ++ s) = codes "**" ++ b ++ s.
Proof.
  intros H. unfold removeFirst, header2Re.
  rewrite exec_Bol_none; [reflexivity|].
  rewrite m_Seq. unfold Opt at 1. rewrite m_Alt.
  rewrite m_liti_app, m_Seq, m_liti_clash by exact H.
  change (m Eps ?k ?st ?cs) with (k st cs).
  rewrite m_Seq. apply (m_liti_clash _ (codes "**")). reflexivity.
Qed.

Ltac no_start :=
  first
    [ reflexivity
    | apply noStart_forall; apply digits_reject; [reflexivity|assumption]
    | apply noStart_app; no_start ].

Ltac all_chars digits_lemma :=
  repeat rewrite forallb_app;
  repeat (apply andb_true_intro; split);
  first [reflexivity | apply digits_lemma; assumption | assumption].

Section Forms.
Variables c t l f j : jsstring.
Hypothesis Hc : isNumeral c = true.
Hypothesis Ht : isNumeral t = true.
Hypothesis Hl : isNumeral l = true.
Hypothesis Hf : isNumeral f = true.
Hypothesis Hj : isLine j = true.

Let Dc := isNumeral_digits c Hc.
Let Dt := isNumeral_digits t Ht.
Let Dl := isNumeral_digits l Hl.
Let Df := isNumeral_digits f Hf.

Lemma plainForm_noStar : forallb noStar (plainForm c t l f j) = true.
Proof.
  destruct (isLine_parts j Hj) as (_ & Hs & _ & _).
  pose proof Dc; pose proof Dt; pose proof Dl; pose proof Df.
  unfold plainForm. all_chars digits_noStar.
Qed.

Lemma plainForm_noTick : forallb noTick (plainForm c t l f j) = true.
Proof.
  destruct (isLine_parts j Hj) as (_ & _ & Hs & _).
  pose proof Dc; pose proof Dt; pose proof Dl; pose proof Df.
  unfold plainForm. all_chars digits_noTick.
Qed.

Lemma emphasizedForm_noTick : forallb noTick (emphasizedForm c t l f j) = true.
Proof.
  destruct (isLine_parts j Hj) as (_ & _ & Hs & _).
  pose proof Dc; pose proof Dt; pose proof Dl; pose proof Df.
  unfold emphasizedForm. all_chars digits_noTick.
Qed.

Lemma stripWrapping_plainForm :
  stripWrapping (plainForm c t l f j) = plainForm c t l f j.
Proof.
  unfold stripWrapping. rewrite codeBlock_none by apply plainForm_noTick.
  unfold plainForm.
  rewrite header1_none by reflexivity.
  rewrite header2_none_plain by reflexivity. reflexivity.
Qed.

Lemma stripWrapping_emphasizedForm :
  stripWrapping (emphasizedForm c t l f j) = emphasizedForm c t l f j.
Proof.
  unfold stripWrapping. rewrite codeBlock_none by apply emphasizedForm_noTick.
  unfold emphasizedForm.
  rewrite header1_none by reflexivity.
  change (codes "**Context Score:** " ++ ?x)
    with (codes "**" ++ codes "Context Score:** " ++ x).
  rewrite header2_none_emph by reflexivity. reflexivity.
Qed.

Lemma parse_plainForm :
  parseFormattedResponse (plainForm c t l f j) = Ok (judged c t l f j).
Proof.
  pose proof Dc; pose proof Dt; pose proof Dl; pose proof Df.
  unfold parseFormattedResponse. rewrite stripWrapping_plainForm. cbv zeta.
  pose proof plainForm_noStar as Hstar.
  destruct (firstMatch_score_plain "Context" _ [] c
              (nl ++ codes "Technical Score: " ++ t ++ nl ++
               codes "Clarity Score: " ++ l ++ nl ++
               codes "Final Score: " ++ f ++ nl ++ codes "Justification: " ++ j)
              Hstar eq_refl eq_refl Hc eq_refl) as (rc & -> & Gc).
  destruct (firstMatch_score_plain "Technical" _
              (codes "Context Score: " ++ c ++ nl) t
              (nl ++ codes "Clarity Score: " ++ l ++ nl ++
               codes "Final Score: " ++ f ++ nl ++ codes "Justification: " ++ j)
              Hstar) as (rt & -> & Gt);
    [unfold plainForm; rewrite <- ?app_assoc; reflexivity|no_start|exact Ht|reflexivity|].
  destruct (firstMatch_score_plain "Clarity" _
              (codes "Context Score: " ++ c ++ nl ++
               codes "Technical Score: " ++ t ++ nl) l
              (nl ++ codes "Final Score: " ++ f ++ nl ++ codes "Justification: " ++ j)
              Hstar) as (rl & -> & Gl);
    [unfold plainForm; rewrite <- ?app_assoc; reflexivity|no_start|exact Hl|reflexivity|].
  destruct (firstMatch_score_plain "Final" _
              (codes "Context Score: " ++ c ++ nl ++
               codes "Technical Score: " ++ t ++ nl ++
               codes "Clarity Score: " ++ l ++ nl) f
              (nl ++ codes "Justification: " ++ j)
              Hstar) as (rf & -> & Gf);
    [unfold plainForm; rewrite <- ?app_assoc; reflexivity|no_start|exact Hf|reflexivity|].
  destruct (firstMatch_just_plain _
              (codes "Context Score: " ++ c ++ nl ++
               codes "Technical Score: " ++ t ++ nl ++
               codes "Clarity Score: " ++ l ++ nl ++
               codes "Final Score: " ++ f ++ nl) j
              Hstar) as (rj & -> & Gj);
    [unfold plainForm; rewrite <- ?app_assoc; reflexivity|no_start|exact Hj|].
  rewrite Gc, Gt, Gl, Gf, Gj. reflexivity.
Qed.

Lemma parse_emphasizedForm :
  parseFormattedResponse (emphasizedForm c t l f j) = Ok (judged c t l f j).
Proof.
  pose proof Dc; pose proof Dt; pose proof Dl; pose proof Df.
  unfold parseFormattedResponse. rewrite stripWrapping_emphasizedForm. cbv zeta.
  destruct (firstMatch_score_emph "Context" (emphasizedForm c t l f j) [] c
              (codes "/300" ++ nl ++
               codes "**Technical Score:** " ++ t ++ codes "/400" ++ nl ++
               codes "**Clarity Score:** " ++ l ++ codes "/300" ++ nl ++
               codes "**Final Score:** " ++ f ++ codes "/1000" ++ nl ++
               codes "**Justification:** " ++ j)
              eq_refl eq_refl Hc eq_refl) as (rc & -> & Gc).
  destruct (firstMatch_score_emph "Technical" (emphasizedForm c t l f j)
              (codes "**Context Score:** " ++ c ++ codes "/300" ++ nl) t
              (codes "/400" ++ nl ++
               codes "**Clarity Score:** " ++ l ++ codes "/300" ++ nl ++
               codes "**Final Score:** " ++ f ++ codes "/1000" ++ nl ++
               codes "**Justification:** " ++ j)) as (rt & -> & Gt);
    [unfold emphasizedForm; rewrite <- ?app_assoc; reflexivity
    |no_start|exact Ht|reflexivity|].
  destruct (firstMatch_score_emph "Clarity" (emphasizedForm c t l f j)
              (codes "**Context Score:** " ++ c ++ codes "/300" ++ nl ++
               codes "**Technical Score:** " ++ t ++ codes "/400" ++ nl) l
              (codes "/300" ++ nl ++
               codes "**Final Score:** " ++ f ++ codes "/1000" ++ nl ++
               codes "**Justification:** " ++ j)) as (rl & -> & Gl);
    [unfold emphasizedForm; rewrite <- ?app_assoc; reflexivity
    |no_start|exact Hl|reflexivity|].
  destruct (firstMatch_score_emph "Final" (emphasizedForm c t l f j)
              (codes "**Context Score:** " ++ c ++ codes "/300" ++ nl ++
               codes "**Technical Score:** " ++ t ++ codes "/400" ++ nl ++
               codes "**Clarity Score:** " ++ l ++ codes "/300" ++ nl) f
              (codes "/1000" ++ nl ++ codes "**Justification:** " ++ j))
    as (rf & -> & Gf);
    [unfold emphasizedForm; rewrite <- ?app_assoc; reflexivity
    |no_start|exact Hf|reflexivity|].
  destruct (firstMatch_just_emph (emphasizedForm c t l f j)
              (codes "**Context Score:** " ++ c ++ codes "/300" ++ nl ++
               codes "**Technical Score:** " ++ t ++ codes "/400" ++ nl ++
               codes "**Clarity Score:** " ++ l ++ codes "/300" ++ nl ++
               codes "**Final Score:** " ++ f ++ codes "/1000" ++ nl) j)
    as (rj & -> & Gj);
    [unfold emphasizedForm; rewrite <- ?app_assoc; reflexivity|no_start|exact Hj|].
  rewrite Gc, Gt, Gl, Gf, Gj. reflexivity.
Qed.

End Forms.

(** The round trip on numerals as they are written. *)
Lemma parse_numerals (c t l f j : jsstring) :
  isNumeral c = true -> isNumeral t = true ->
  isNumeral l = true -> isNumeral f = true -> isLine j = true ->
  parseFormattedResponse (plainForm c t l f j) = Ok (judged c t l f j)
  /\ parseFormattedResponse (emphasizedForm c t l f j)
     = parseFormattedResponse (plainForm c t l f j).
Proof.
  intros Hc Ht Hl Hf Hj. split.
  - apply parse_plainForm; assumption.
  - rewrite parse_emphasizedForm, parse_plainForm by assumption. reflexivity.
Qed.

Lemma isNumeral_numeral n : n < 10 ^ 15 -> isNumeral (numeral n) = true.
Proof.
  intros Hn. unfold isNumeral.
  pose proof (numeral_nonempty n) as Hne.
  destruct (numeral n) as [|d ds] eqn:E; [congruence|]. rewrite <- E.
  rewrite numeral_digits. apply Nat.leb_le. apply (numeral_length n 14). exact Hn.
Qed.



(** The fields of that result are the integers written in the text. *)
Example judged_values :
  judged (codes "250") (codes "300") (codes "180") (codes "730")
    (codes "Clear and on topic. ")
  = {| contextScore := 250; technicalScore := 300; clarityScore := 180;
       totalScore := 730; justification := codes "Clear and on topic." |}.
Proof. reflexivity. Qed.

(** The code fence and the header are taken off first. *)
Example parse_fenced :
  parseFormattedResponse
    (codes "```" ++ nl ++ codes "### Evaluation:" ++ nl ++
     emphasizedForm (codes "51") (codes "120") (codes "90") (codes "261")
       (codes "Brief.") ++ nl ++ codes "```")
  = Ok (judged (codes "51") (codes "120") (codes "90") (codes "261") (codes "Brief.")).
Proof. vm_compute. reflexivity. Qed.

(** A missing label is reported by its name. *)
Example parse_missing_technical :
  parseFormattedResponse (codes "Context Score: 5")
  = Throw (codes "Could not parse Technical Score").
Proof. vm_compute. reflexivity. Qed.

(** *** Further properties of the parser *)

(** *** What a match tells about the input *)

Lemma m_liti_inv w : forall k n s cs res,
  m (liti w) k (n, s) cs = Some res ->
  exists w' s', s = w' ++ s' /\ length w' = length w
                /\ k ((n + length w)%nat, s') cs = Some res.
Proof.
  induction w as [|a w IH]; intros k n s cs res H.
  - exists [], s. cbn [length]. rewrite Nat.add_0_r. auto.
  - cbn [liti fold_right] in H. fold (liti w) in H. rewrite m_Seq in H.
    destruct s as [|c s]; [discriminate|]. rewrite m_Cls_cons in H.
    destruct (canon c =? canon a); [|discriminate].
    apply IH in H as (w' & s' & -> & Hlen & H).
    exists (c :: w'), s'. cbn [length app]. rewrite Hlen.
    replace (n + S (length w))%nat with (S n + length w)%nat by lia. auto.
Qed.

Lemma m_lit_inv w : forall k n s cs res,
  m (lit w) k (n, s) cs = Some res ->
  exists s', s = w ++ s' /\ k ((n + length w)%nat, s') cs = Some res.
Proof.
  induction w as [|a w IH]; intros k n s cs res H.
  - exists s. cbn [length]. rewrite Nat.add_0_r. auto.
  - cbn [lit fold_right] in H. fold (lit w) in H. rewrite m_Seq in H.
    destruct s as [|c s]; [discriminate|]. rewrite m_Cls_cons in H.
    destruct (N.eqb_spec a c) as [->|]; [|discriminate].
    apply IH in H as (s' & -> & H).
    exists s'. cbn [length app].
    replace (n + S (length w))%nat with (S n + length w)%nat by lia. auto.
Qed.

Lemma star_cls_inv p g fuel : forall k n s cs res,
  star fuel g (m (Cls p)) k (n, s) cs = Some res ->
  exists pre s', s = pre ++ s' /\ forallb p pre = true
                 /\ k ((n + length pre)%nat, s') cs = Some res.
Proof.
  induction fuel as [|f IH]; intros k n s cs res H.
  - exists [], s. cbn [length]. rewrite Nat.add_0_r. auto.
  - assert (forall res',
              m (Cls p)
                (fun st' cs' =>
                   if (fst st' =? n)%nat then None else star f g (m (Cls p)) k st' cs')
                (n, s) cs = Some res' ->
              exists pre s', s = pre ++ s' /\ forallb p pre = true
                             /\ k ((n + length pre)%nat, s') cs = Some res') as Hbody.
    { intros res' Hb. destruct s as [|c t]; [discriminate|].
      rewrite m_Cls_cons in Hb. destruct (p c) eqn:Ec; [|discriminate].
      cbn [fst] in Hb. rewrite succ_eqb_false in Hb.
      apply IH in Hb as (pre & s' & -> & Hpre & Hk).
      exists (c :: pre), s'. cbn [length app forallb]. rewrite Ec, Hpre.
      replace (n + S (length pre))%nat with (S n + length pre)%nat by lia. auto. }
    assert (forall res', k (n, s) cs = Some res' ->
              exists pre s', s = pre ++ s' /\ forallb p pre = true
                             /\ k ((n + length pre)%nat, s') cs = Some res') as Hstop.
    { intros res' Hk. exists [], s. cbn [length]. rewrite Nat.add_0_r. auto. }
    destruct g.
    + rewrite star_greedy_S in H. cbn [fst] in H.
      destruct (m (Cls p) _ (n, s) cs) as [res'|] eqn:E.
      * injection H as <-. apply (Hbody res' eq_refl).
      * apply Hstop, H.
    + rewrite star_lazy_S in H. cbn [fst] in H.
      destruct (k (n, s) cs) as [res'|] eqn:E.
      * injection H as <-. apply (Hstop res' eq_refl).
      * apply Hbody, H.
Qed.

Lemma m_Star_cls_inv p g k n s cs res :
  m (Star g (Cls p)) k (n, s) cs = Some res ->
  exists pre s', s = pre ++ s' /\ forallb p pre = true
                 /\ k ((n + length pre)%nat, s') cs = Some res.
Proof. rewrite m_Star. apply star_cls_inv. Qed.

Lemma m_Plus_cls_inv p g k n s cs res :
  m (Plus g (Cls p)) k (n, s) cs = Some res ->
  exists pre s', s = pre ++ s' /\ pre <> [] /\ forallb p pre = true
                 /\ k ((n + length pre)%nat, s') cs = Some res.
Proof.
  unfold Plus. rewrite m_Seq. intros H.
  destruct s as [|c t]; [discriminate|]. rewrite m_Cls_cons in H.
  destruct (p c) eqn:Ec; [|discriminate].
  apply m_Star_cls_inv in H as (pre & s' & -> & Hpre & Hk).
  exists (c :: pre), s'. cbn [length app forallb]. rewrite Ec, Hpre.
  replace (n + S (length pre))%nat with (S n + length pre)%nat by lia.
  repeat split; [discriminate|exact Hk].
Qed.

Lemma searchFrom_inv r : forall s n i res,
  searchFrom r n s = Some (i, res) ->
  exists pre s', s = pre ++ s' /\ m r final (i, s') [] = Some res.
Proof.
  induction s as [|c t IH]; intros n i res H; unfold searchFrom in H; fold searchFrom in H;
    destruct (m r final _ []) as [res'|] eqn:E.
  - injection H as <- <-. exists [], []. auto.
  - discriminate.
  - injection H as <- <-. exists [], (c :: t). auto.
  - apply IH in H as (pre & s' & -> & H). exists (c :: pre), s'. auto.
Qed.

(** A score pattern that matches has read a numeral of the input into
    group 1. *)
Lemma labelRe_inv w1 w2 n s res :
  m (labelRe w1 w2) final (n, s) [] = Some res ->
  exists a ds b,
    s = a ++ ds ++ b /\ ds <> [] /\ forallb isDigit ds = true
    /\ group 1 (snd res) = ds.
Proof.
  unfold labelRe. rewrite m_Seq. intros H.
  apply m_liti_inv in H as (x1 & s1 & -> & _ & H). rewrite m_Seq in H.
  apply m_Plus_cls_inv in H as (x2 & s2 & -> & _ & _ & H). rewrite m_Seq in H.
  apply m_liti_inv in H as (x3 & s3 & -> & _ & H). rewrite m_Seq in H.
  apply m_Star_cls_inv in H as (x4 & s4 & -> & _ & H). rewrite m_Grp in H.
  apply m_Plus_cls_inv in H as (ds & b & -> & Hne & Hds & H).
  unfold final in H. injection H as <-. cbn [fst snd group Nat.eqb].
  exists (x1 ++ x2 ++ x3 ++ x4), ds, b.
  rewrite <- !app_assoc. repeat split; try assumption.
  match goal with |- take ?k _ = _ => replace k with (length ds) by lia end.
  apply take_app_length.
Qed.

Lemma firstMatch_score_inv label s res :
  firstMatch (scoreRes label) s = Some res ->
  exists a ds b,
    s = a ++ ds ++ b /\ ds <> [] /\ forallb isDigit ds = true
    /\ group_of 1 res = ds.
Proof.
  unfold scoreRes, firstMatch, exec, group_of. intros H.
  do 3 (let E := fresh "E" in
        destruct (searchFrom _ 0 s) as [[i0 res0]|] eqn:E in H;
        [injection H as <-;
         apply searchFrom_inv in E as (pre & s' & -> & E);
         apply labelRe_inv in E as (a & ds & b & -> & Hne & Hds & Hg);
         exists (pre ++ a), ds, b; rewrite <- app_assoc;
         split; [reflexivity|split; [exact Hne|split; [exact Hds|exact Hg]]]|]).
  discriminate.
Qed.

(** X4: whatever the response, a result of the parser holds four scores
    that are not negative and a justification without whitespace at its
    ends. *)
Theorem parse_result_shape (response : jsstring) (p : parsed) :
  parseFormattedResponse response = Ok p ->
  (0 <= contextScore p)%Z /\ (0 <= technicalScore p)%Z
  /\ (0 <= clarityScore p)%Z /\ (0 <= totalScore p)%Z
  /\ startsWithSpace (justification p) = false
  /\ endsWithSpace (justification p) = false.
Proof.
  unfold parseFormattedResponse. cbv zeta.
  destruct (firstMatch (scoreRes "Context") _) as [cm|] eqn:Ec; [|discriminate].
  destruct (firstMatch (scoreRes "Technical") _) as [tm|] eqn:Et; [|discriminate].
  destruct (firstMatch (scoreRes "Clarity") _) as [lm|] eqn:El; [|discriminate].
  destruct (firstMatch (scoreRes "Final") _) as [fm|] eqn:Ef; [|discriminate].
  destruct (firstMatch justificationRes _) as [jm|]; [|discriminate].
  intros H. injection H as <-.
  apply firstMatch_score_inv in Ec as (? & ? & ? & _ & _ & Hc & ->).
  apply firstMatch_score_inv in Et as (? & ? & ? & _ & _ & Ht & ->).
  apply firstMatch_score_inv in El as (? & ? & ? & _ & _ & Hl & ->).
  apply firstMatch_score_inv in Ef as (? & ? & ? & _ & _ & Hf & ->).
  cbn [contextScore technicalScore clarityScore totalScore justification].
  repeat split; try (apply parseInt_nonneg; assumption).
  - apply trim_head.
  - apply trim_last.
Qed.

Lemma parse_result_shape_witness :
  (0 <= contextScore (judged (codes "51") (codes "120") (codes "90") (codes "261")
                        (codes "Brief.")))%Z
  /\ endsWithSpace
       (justification (judged (codes "51") (codes "120") (codes "90") (codes "261")
                         (codes "Brief."))) = false.
Proof.
  destruct (parse_result_shape
              (codes "```" ++ nl ++ codes "### Evaluation:" ++ nl ++
               emphasizedForm (codes "51") (codes "120") (codes "90") (codes "261")
                 (codes "Brief.") ++ nl ++ codes "```")
              (judged (codes "51") (codes "120") (codes "90") (codes "261")
                 (codes "Brief.")))
    as (H1 & _ & _ & _ & _ & H6); [vm_compute; reflexivity|].
  split; [exact H1|exact H6].
Defined.

(** *** A response without a digit *)

Lemma forallb_take (p : char -> bool) n s : forallb p s = true -> forallb p (take n s) = true.
Proof.
  revert n. induction s as [|c t IH]; intros [|n] H; try reflexivity.
  cbn [take forallb] in *. apply andb_prop in H as [Hc Ht]. rewrite Hc, IH; auto.
Qed.

Lemma forallb_drop (p : char -> bool) n s : forallb p s = true -> forallb p (drop n s) = true.
Proof.
  revert n. induction s as [|c t IH]; intros [|n] H; try reflexivity; [exact H|].
  cbn [drop forallb] in *. apply andb_prop in H as [Hc Ht]. apply IH, Ht.
Qed.

Lemma forallb_trim (p : char -> bool) s : forallb p s = true -> forallb p (trim s) = true.
Proof.
  intros H. unfold trim, trimEnd, trimStart.
  rewrite forallb_rev. apply dropSpaces_forallb. rewrite forallb_rev.
  apply dropSpaces_forallb, H.
Qed.

Lemma removeFirst_forallb (p : char -> bool) r s :
  forallb p s = true -> forallb p (removeFirst r s) = true.
Proof.
  intros H. unfold removeFirst. destruct (exec r s) as [[i [[e rest] cs]]|]; [|exact H].
  rewrite forallb_app, forallb_take, forallb_drop by exact H. reflexivity.
Qed.

(** The capture of the code fence is a piece of the response. *)
Lemma codeBlock_inv s res :
  exec codeBlockRe s = Some res ->
  exists pre body post, s = pre ++ codes "```" ++ body ++ codes "```" ++ post
                        /\ group_of 1 res = body.
Proof.
  unfold exec. destruct res as [i res]. intros H.
  apply searchFrom_inv in H as (pre & s' & -> & H).
  unfold codeBlockRe in H. rewrite m_Seq in H.
  apply m_lit_inv in H as (s1 & -> & H). rewrite m_Seq, m_Grp in H.
  apply m_Star_cls_inv in H as (body & s2 & -> & _ & H).
  apply m_lit_inv in H as (post & -> & H).
  unfold final in H. injection H as <-.
  exists pre, body, post. split; [reflexivity|].
  unfold group_of. cbn [fst snd group Nat.eqb].
  match goal with |- take ?k _ = _ => replace k with (length body) by lia end.
  apply take_app_length.
Qed.

Lemma stripWrapping_forallb (p : char -> bool) s :
  forallb p s = true -> forallb p (stripWrapping s) = true.
Proof.
  intros H. unfold stripWrapping. do 2 apply removeFirst_forallb.
  destruct (exec codeBlockRe s) as [res|] eqn:E; [|exact H].
  apply codeBlock_inv in E as (pre & body & post & -> & ->).
  apply forallb_trim. rewrite !forallb_app in H.
  repeat (apply andb_prop in H as [? H]). assumption.
Qed.

(** X5: a response that holds no digit is rejected, and the error names the
    first score. *)
Theorem parse_rejects_digitless (response : jsstring) :
  forallb (fun c => negb (isDigit c)) response = true ->
  parseFormattedResponse response = Throw (codes "Could not parse Context Score").
Proof.
  intros H. apply (stripWrapping_forallb _ _) in H.
  unfold parseFormattedResponse. cbv zeta.
  destruct (firstMatch (scoreRes "Context") _) as [cm|] eqn:Ec; [|reflexivity].
  exfalso. apply firstMatch_score_inv in Ec as (a & ds & b & Heq & Hne & Hds & _).
  rewrite Heq, !forallb_app in H.
  apply andb_prop in H as [_ H]. apply andb_prop in H as [H _].
  destruct ds as [|d ds]; [congruence|]. cbn [forallb] in *.
  apply andb_prop in Hds as [Hd _]. rewrite Hd in H. discriminate.
Qed.

Lemma parse_rejects_digitless_witness :
  parseFormattedResponse (codes "I am sorry, I cannot score this answer.")
  = Throw (codes "Could not parse Context Score").
Proof. apply parse_rejects_digitless. reflexivity. Defined.

(** *** The code fence and the header *)

Lemma codeBlock_match pre body post :
  forallb noTick pre = true -> forallb noTick body = true ->
  exists res,
    exec codeBlockRe (pre ++ codes "```" ++ body ++ codes "```" ++ post) = Some res
    /\ group_of 1 res = body.
Proof.
  intros Hpre Hbody.
  assert (exists e,
            m codeBlockRe final
              ((0 + length pre)%nat, codes "```" ++ body ++ codes "```" ++ post) []
            = Some ((e, post), [(1%nat, body)])) as [e He].
  { eexists. unfold codeBlockRe. rewrite m_Seq, m_lit_app, m_Seq, m_Grp.
    apply m_Star_lazy_run.
    - intros c Hc n' t cs'. rewrite forallb_forall in Hbody.
      apply m_lit_reject. apply negb_true_iff. exact (Hbody c Hc).
    - rewrite m_lit_app. unfold final. cbn [fst snd]. do 4 f_equal.
      match goal with |- take ?k _ = _ => replace k with (length body) by lia end.
      apply take_app_length. }
  eexists. split.
  - unfold exec.
    rewrite (searchFrom_skip_run codeBlockRe (N.eqb 96)) by (reflexivity || exact Hpre).
    apply searchFrom_hit. exact He.
  - reflexivity.
Qed.

(** X6: of a response with a code fence, the parser reads what is inside the
    first fence, trimmed; what stands before and after the fence is
    ignored. *)
Theorem parse_reads_fence (pre body post : jsstring) :
  forallb noTick pre = true -> forallb noTick body = true ->
  parseFormattedResponse (pre ++ codes "```" ++ body ++ codes "```" ++ post)
  = parseFormattedResponse (trim body).
Proof.
  intros Hpre Hbody.
  assert (stripWrapping (pre ++ codes "```" ++ body ++ codes "```" ++ post)
          = stripWrapping (trim body)) as H.
  { unfold stripWrapping.
    destruct (codeBlock_match pre body post Hpre Hbody) as (res & -> & ->).
    rewrite codeBlock_none by (apply forallb_trim, Hbody). reflexivity. }
  unfold parseFormattedResponse. rewrite H. reflexivity.
Qed.

Lemma parse_reads_fence_witness :
  parseFormattedResponse
    (codes "Here is my evaluation:" ++ nl ++ codes "```" ++
     (nl ++ plainForm (codes "51") (codes "120") (codes "90") (codes "261")
              (codes "Brief.") ++ nl) ++
     codes "```" ++ codes " Context Score: 999")
  = parseFormattedResponse
      (trim (nl ++ plainForm (codes "51") (codes "120") (codes "90") (codes "261")
                     (codes "Brief.") ++ nl)).
Proof.
  apply (parse_reads_fence (codes "Here is my evaluation:" ++ nl)); reflexivity.
Defined.

Lemma canon_not_hash c : (c =? 35) = false -> (canon c =? canon 35) = false.
Proof.
  unfold canon, isLower. intros H. apply N.eqb_neq in H. apply N.eqb_neq.
  change (if (97 <=? 35) && (35 <=? 122) then 35 - 32 else 35) with 35.
  destruct ((97 <=? c) && (c <=? 122)) eqn:E; [|exact H].
  apply andb_prop in E as [E1 E2]. apply N.leb_le in E1, E2. lia.
Qed.

Lemma isSpace_noTick s : forallb isSpace s = true -> forallb noTick s = true.
Proof.
  apply forallb_impl. intros c Hc. unfold noTick. apply negb_true_iff.
  destruct (N.eqb_spec 96 c) as [<-|]; [discriminate|reflexivity].
Qed.

(** X7: a response that opens with the header of a markdown evaluation is
    parsed as the text after the header. *)
Theorem parse_skips_header (sp text : jsstring) :
  forallb isSpace sp = true -> forallb noTick text = true ->
  match text with
  | c :: _ => negb (isSpace c) && negb (c =? 35)
  | [] => true
  end = true ->
  parseFormattedResponse (codes "### Evaluation:" ++ sp ++ text)
  = parseFormattedResponse text.
Proof.
  intros Hsp Htick Hhead.
  assert (stops isSpace text = true) as Hstop.
  { destruct text as [|c t]; [reflexivity|]. apply andb_prop in Hhead as [H _]. exact H. }
  assert (stripWrapping (codes "### Evaluation:" ++ sp ++ text) = stripWrapping text)
    as H.
  { unfold stripWrapping.
    rewrite !codeBlock_none;
      [|exact Htick
       |rewrite !forallb_app, Htick, (isSpace_noTick sp Hsp); reflexivity].
    f_equal.
    transitivity text.
    - unfold removeFirst, exec.
      assert (m header1Re final
                (0%nat, codes "### Evaluation:" ++ sp ++ text) []
              = Some (((length (codes "### Evaluation:" ++ sp)), text), [])) as Hm.
      { unfold header1Re. rewrite m_Seq.
        change (m Bol ?k (0%nat, ?x) ?cs) with (k (0%nat, x) cs).
        change (codes "### Evaluation:" ++ sp ++ text)
          with (codes "###" ++ [32] ++ codes "Evaluation" ++ codes ":" ++ sp ++ text).
        rewrite m_Seq, m_liti_app, m_Seq.
        apply (m_Star_greedy_run isSpace [32]); [reflexivity|reflexivity|].
        rewrite m_Seq, m_liti_app, m_Seq. unfold Opt. rewrite m_Alt, m_liti_app.
        rewrite (m_Star_greedy_run isSpace sp _ text final []
                   ((length (codes "### Evaluation:" ++ sp)), text, []) Hsp Hstop);
          [reflexivity|].
        unfold final. rewrite length_app. reflexivity. }
      rewrite (searchFrom_hit _ _ _ _ Hm). cbn [take app].
      rewrite app_assoc. apply drop_app_length.
    - symmetry. destruct text as [|c t].
      + reflexivity.
      + apply andb_prop in Hhead as [_ Hc]. apply negb_true_iff in Hc.
        apply (header1_none [c] t). cbn [clash codes map list_ascii_of_string].
        change (N_of_ascii "#") with 35. rewrite canon_not_hash by exact Hc.
        reflexivity. }
  unfold parseFormattedResponse. rewrite H. reflexivity.
Qed.

Lemma parse_skips_header_witness :
  parseFormattedResponse
    (codes "### Evaluation:" ++ nl ++
     plainForm (codes "51") (codes "120") (codes "90") (codes "261") (codes "Brief."))
  = parseFormattedResponse
      (plainForm (codes "51") (codes "120") (codes "90") (codes "261") (codes "Brief.")).
Proof. apply (parse_skips_header nl); reflexivity. Defined.

End ParserFacts.

Module PollFacts.
Import JS Regex Poll RegexFacts.

Lemma pollFrom_step attempts o script :
  (attempts < maxAttempts)%nat ->
  pollFrom attempts (o :: script)
  = called
      match attempt o with
      | Return r => stop (Completed r)
      | Again => slept 1000 (pollFrom (S attempts) script)
      | Raise message =>
          if isRateLimit message
          then slept (waitTime message * 1000) (pollFrom attempts script)
          else stop (Failed message)
      end.
Proof.
  intros H. apply Nat.ltb_lt in H. cbn [pollFrom]. rewrite H. reflexivity.
Qed.

Lemma pollFrom_exhausted attempts script :
  (maxAttempts <= attempts)%nat -> pollFrom attempts script = stop timedOut.
Proof.
  intros H. apply Nat.ltb_ge in H. destruct script; cbn [pollFrom]; rewrite H; reflexivity.
Qed.

(** Statuses of the default branch use up the attempts one by one. *)
Lemma pollFrom_nonTerminal script : forall attempts rest,
  forallb stillRunning script = true ->
  (attempts + length script = maxAttempts)%nat ->
  pollFrom attempts (script ++ rest)
  = {| ending_of := timedOut;
       polls := length script;
       sleeps := repeat 1000%Z (length script) |}.
Proof.
  induction script as [|o script IH]; intros attempts rest Hall Hlen.
  - cbn [length] in Hlen. rewrite pollFrom_exhausted by lia. reflexivity.
  - cbn [length] in Hlen. cbn [forallb] in Hall.
    apply andb_prop in Hall as [Hr Hall'].
    destruct o as [r|msg]; [|discriminate].
    cbn [app]. rewrite pollFrom_step by lia.
    cbn [attempt]. unfold stillRunning, nonTerminal in Hr.
    destruct (inspect r); try discriminate.
    rewrite (IH (S attempts) rest Hall') by lia. reflexivity.
Qed.

(** A script of failed runs that carry a rate-limit message is polled to
    its end. *)
Lemma pollFrom_rate_limited_failures n : forall attempts e,
  (attempts < maxAttempts)%nat -> isRateLimit (failedMessage (Some e)) = true ->
  pollFrom attempts (repeat (Ok (failedWith (Some e))) n)
  = {| ending_of := Polling;
       polls := n;
       sleeps := repeat (waitTime (failedMessage (Some e)) * 1000)%Z n |}.
Proof.
  induction n as [|n IH]; intros attempts e Ha He.
  - cbn [repeat pollFrom]. apply Nat.ltb_lt in Ha. rewrite Ha. reflexivity.
  - cbn [repeat]. rewrite pollFrom_step by exact Ha.
    change (attempt (Ok (failedWith (Some e)))) with (Raise (failedMessage (Some e))).
    cbv iota. rewrite He, IH by assumption. reflexivity.
Qed.

(** The advertised delay is read from the message. *)
Lemma waitTime_advertised pre ds post :
  forallb (fun c => negb (84 =? c)) pre = true ->
  Parser.isNumeral ds = true ->
  waitTime (pre ++ codes "Try again in " ++ ds ++ codes " seconds" ++ post)
  = parseInt ds.
Proof.
  intros Hpre Hds.
  destruct ds as [|d ds']; [discriminate|].
  unfold Parser.isNumeral in Hds. apply andb_prop in Hds as [Hds _].
  cbn [forallb] in Hds. apply andb_prop in Hds as [Hd Hds'].
  assert (exists e,
            m retryAfterRe final
              ((0 + length pre)%nat,
               codes "Try again in " ++ (d :: ds') ++ codes " seconds" ++ post) []
            = Some ((e, post), [(1%nat, d :: ds')])) as [e He].
  { eexists. unfold retryAfterRe, Plus.
    rewrite m_Seq, m_lit_app, m_Seq, m_Grp, m_Seq.
    cbn [app]. unfold digit at 1. rewrite m_Cls_cons, Hd.
    apply (m_Star_greedy_run isDigit ds'); [exact Hds'|reflexivity|].
    rewrite m_lit_app. unfold final. cbn [fst snd]. do 4 f_equal.
    match goal with |- take ?k _ = _ => replace k with (length (d :: ds')) end.
    - change (d :: ds' ++ ?x) with ((d :: ds') ++ x). apply take_app_length.
    - cbn [length]. lia. }
  unfold waitTime, exec.
  rewrite (searchFrom_skip_run retryAfterRe (N.eqb 84)) by (reflexivity || exact Hpre).
  rewrite (searchFrom_hit _ _ _ _ He). reflexivity.
Qed.

Lemma waitTime_default message :
  exec retryAfterRe message = None -> waitTime message = 60%Z.
Proof. unfold waitTime. intros ->. reflexivity. Qed.

(** Rate-limit waits do not count: the loop ends as it does on the script
    without the rate-limited attempts. *)
Lemma pollFrom_skips_rate_limits script : forall attempts,
  ending_of (pollFrom attempts script)
  = ending_of (pollFrom attempts (List.filter (fun o => negb (rateLimited o)) script)).
Proof.
  induction script as [|o script IH]; intros attempts; [reflexivity|].
  destruct (Nat.ltb_spec attempts maxAttempts) as [Ha|Ha].
  2:{ rewrite !pollFrom_exhausted by exact Ha. reflexivity. }
  rewrite pollFrom_step by exact Ha. cbn [List.filter]. unfold rateLimited at 1.
  destruct (attempt o) as [r|message|] eqn:E.
  - cbn [negb]. rewrite pollFrom_step, E by exact Ha. reflexivity.
  - destruct (isRateLimit message) eqn:Em; cbn [negb].
    + cbn [called slept ending_of]. apply IH.
    + rewrite pollFrom_step, E, Em by exact Ha. reflexivity.
  - cbn [negb]. rewrite pollFrom_step, E by exact Ha.
    cbn [called slept ending_of]. apply IH.
Qed.


(** C3, as amended: the statuses in_progress, in_progress, completed
    make exactly three retrieve calls and the loop returns the completed
    run; a failed status ends the loop at the first call with the run's
    failure, provided the failure message does not contain the words
    Rate limit; thirty statuses of the default branch in a row end the
    loop with the timeout error after thirty calls. *)
Theorem poll_sequences (r1 r2 r3 : run) (e : option jsstring)
    (script rest : list (outcome run)) :
  status r1 = codes "in_progress" -> status r2 = codes "in_progress" ->
  status r3 = codes "completed" ->
  isRateLimit (failedMessage e) = false ->
  length script = 30%nat -> forallb stillRunning script = true ->
  waitForRunCompletion (Ok r1 :: Ok r2 :: Ok r3 :: rest)
  = {| ending_of := Completed r3; polls := 3; sleeps := [1000; 1000]%Z |}
  /\ waitForRunCompletion (Ok (failedWith e) :: rest)
     = {| ending_of := Failed (failedMessage e); polls := 1; sleeps := [] |}
  /\ waitForRunCompletion (script ++ rest)
     = {| ending_of := Failed (codes "Run timed out after 30 seconds");
          polls := 30; sleeps := repeat 1000%Z 30 |}.
Proof.
  intros H1 H2 H3 He Hlen Hall. unfold waitForRunCompletion. repeat split.
  - rewrite !pollFrom_step by (unfold maxAttempts; lia).
    destruct r1 as [s1 e1], r2 as [s2 e2], r3 as [s3 e3]. cbn in H1, H2, H3. subst.
    reflexivity.
  - rewrite pollFrom_step by (unfold maxAttempts; lia).
    change (attempt (Ok (failedWith e))) with (Raise (failedMessage e)).
    cbv iota. rewrite He. reflexivity.
  - rewrite (pollFrom_nonTerminal script 0 rest Hall) by (rewrite Hlen; reflexivity).
    rewrite Hlen. reflexivity.
Qed.

Lemma poll_sequences_witness :
  waitForRunCompletion [Ok in_progress; Ok in_progress; Ok completed]
  = {| ending_of := Completed completed; polls := 3; sleeps := [1000; 1000]%Z |}
  /\ waitForRunCompletion [Ok (failedWith (Some (codes "server_error")))]
     = {| ending_of := Failed (codes "Run failed: server_error");
          polls := 1; sleeps := [] |}
  /\ waitForRunCompletion (repeat (Ok queued) 30 ++ [])
     = {| ending_of := Failed (codes "Run timed out after 30 seconds");
          polls := 30; sleeps := repeat 1000%Z 30 |}.
Proof.
  apply (poll_sequences in_progress in_progress completed
           (Some (codes "server_error")) (repeat (Ok queued) 30) []);
    reflexivity.
Defined.

(** C3, the claim as stated fails: a failed run whose error message
    names a rate limit does not end the loop; the loop waits and polls
    again, here a hundred times and still polling. *)
Lemma failed_run_polled_again :
  waitForRunCompletion
    (repeat (Ok (failedWith
                   (Some (codes "Rate limit is exceeded. Try again in 26 seconds."))))
       100)
  = {| ending_of := Polling; polls := 100; sleeps := repeat 26000%Z 100 |}.
Proof. vm_compute. reflexivity. Qed.




(** An error that names a rate limit without a delay waits 60 seconds. *)
Example rate_limit_default_wait :
  waitForRunCompletion [Throw (codes "429 Rate limit reached"); Ok completed]
  = {| ending_of := Completed completed; polls := 2; sleeps := [60000%Z] |}.
Proof. reflexivity. Qed.

(** *** Further properties of the poll loop *)

(** *** Bounds of the loop *)

Lemma pollFrom_bounds script : forall attempts,
  forallb (fun o => negb (rateLimited o)) script = true ->
  (polls (pollFrom attempts script) <= maxAttempts - attempts)%nat
  /\ sleeps (pollFrom attempts script)
     = repeat 1000%Z (length (sleeps (pollFrom attempts script)))
  /\ (length (sleeps (pollFrom attempts script))
      <= polls (pollFrom attempts script))%nat
  /\ ((maxAttempts - attempts <= length script)%nat ->
      ending_of (pollFrom attempts script) <> Polling).
Proof.
  induction script as [|o script IH]; intros attempts Hall.
  - destruct (Nat.ltb_spec attempts maxAttempts) as [Ha|Ha].
    + cbn [pollFrom]. apply Nat.ltb_lt in Ha as Hb. rewrite Hb.
      cbn [stop polls sleeps ending_of length repeat].
      unfold maxAttempts in *. repeat split; lia.
    + rewrite pollFrom_exhausted by exact Ha.
      cbn [stop polls sleeps ending_of length repeat].
      repeat split; try lia; intros _; discriminate.
  - destruct (Nat.ltb_spec attempts maxAttempts) as [Ha|Ha].
    2:{ rewrite pollFrom_exhausted by exact Ha.
        cbn [stop polls sleeps ending_of length repeat].
        repeat split; try lia; intros _; discriminate. }
    cbn [forallb] in Hall. apply andb_prop in Hall as [Ho Hall].
    apply negb_true_iff in Ho. unfold rateLimited in Ho.
    rewrite pollFrom_step by exact Ha.
    destruct (attempt o) as [r|message|].
    + cbn [called stop polls sleeps ending_of length repeat].
      repeat split; try lia; intros _; discriminate.
    + rewrite Ho. cbn [called stop polls sleeps ending_of length repeat].
      repeat split; try lia; intros _; discriminate.
    + destruct (IH (S attempts) Hall) as (Hp & Hs & Hl & He).
      cbn [called slept polls sleeps ending_of length repeat].
      repeat split; try lia.
      * f_equal. exact Hs.
      * intros H. apply He. cbn [length] in H. lia.
Qed.

(** X8: as long as no answer names a rate limit, the loop makes at most
    thirty retrieve calls, every sleep lasts one second, there are no
    more sleeps than calls, and the loop has ended once the service has
    answered thirty times. *)
Theorem poll_bounded (script : list (outcome run)) :
  forallb (fun o => negb (rateLimited o)) script = true ->
  (polls (waitForRunCompletion script) <= 30)%nat
  /\ sleeps (waitForRunCompletion script)
     = repeat 1000%Z (length (sleeps (waitForRunCompletion script)))
  /\ (length (sleeps (waitForRunCompletion script))
      <= polls (waitForRunCompletion script))%nat
  /\ ((30 <= length script)%nat ->
      ending_of (waitForRunCompletion script) <> Polling).
Proof.
  intros H. unfold waitForRunCompletion.
  destruct (pollFrom_bounds script 0 H) as (Hp & Hs & Hl & He).
  change (maxAttempts - 0)%nat with 30%nat in *. auto.
Qed.

Lemma poll_bounded_witness :
  (polls (waitForRunCompletion (repeat (Ok queued) 40)) <= 30)%nat
  /\ ending_of (waitForRunCompletion (repeat (Ok queued) 40)) <> Polling.
Proof.
  destruct (poll_bounded (repeat (Ok queued) 40)) as (Hp & _ & _ & He);
    [reflexivity|].
  split; [exact Hp|]. apply He. cbn [repeat length]. lia.
Defined.

(** *** The first answer that settles the run *)

Lemma pollFrom_running pre : forall attempts rest,
  forallb stillRunning pre = true ->
  (attempts + length pre <= maxAttempts)%nat ->
  pollFrom attempts (pre ++ rest)
  = {| ending_of := ending_of (pollFrom (attempts + length pre) rest);
       polls := (length pre + polls (pollFrom (attempts + length pre) rest))%nat;
       sleeps := repeat 1000%Z (length pre)
                 ++ sleeps (pollFrom (attempts + length pre) rest) |}.
Proof.
  induction pre as [|o pre IH]; intros attempts rest Hall Hlen.
  - cbn [app length repeat plus]. rewrite Nat.add_0_r.
    destruct (pollFrom attempts rest). reflexivity.
  - cbn [length] in Hlen. cbn [forallb] in Hall.
    apply andb_prop in Hall as [Hr Hall'].
    destruct o as [r|msg]; [|discriminate].
    cbn [app]. rewrite pollFrom_step by lia.
    cbn [attempt]. unfold stillRunning, nonTerminal in Hr.
    destruct (inspect r); try discriminate.
    rewrite (IH (S attempts) rest Hall') by lia.
    cbn [length]. replace (S attempts + length pre)%nat
      with (attempts + S (length pre))%nat by lia.
    reflexivity.
Qed.

(** X9: the loop ends at the first answer that is no status of the default
    branch: with the run when it is completed, with the error when the
    attempt raises one that names no rate limit.  What the service would
    answer after that is never asked for. *)
Theorem poll_stops_at_first_settled (pre rest : list (outcome run))
    (o : outcome run) :
  forallb stillRunning pre = true -> (length pre < 30)%nat ->
  (forall r, attempt o = Return r ->
     waitForRunCompletion (pre ++ o :: rest)
     = {| ending_of := Completed r; polls := S (length pre);
          sleeps := repeat 1000%Z (length pre) |})
  /\ (forall message, attempt o = Raise message -> isRateLimit message = false ->
        waitForRunCompletion (pre ++ o :: rest)
        = {| ending_of := Failed message; polls := S (length pre);
             sleeps := repeat 1000%Z (length pre) |}).
Proof.
  intros Hpre Hlen. unfold waitForRunCompletion.
  rewrite (pollFrom_running pre 0 (o :: rest) Hpre) by (unfold maxAttempts; lia).
  rewrite pollFrom_step by (unfold maxAttempts; lia).
  split.
  - intros r ->. cbn [called stop ending_of polls sleeps].
    rewrite app_nil_r. f_equal. lia.
  - intros message -> ->. cbn [called stop ending_of polls sleeps].
    rewrite app_nil_r. f_equal. lia.
Qed.

Lemma poll_stops_at_first_settled_witness :
  waitForRunCompletion
    ([Ok queued; Ok in_progress]
     ++ Ok {| status := codes "cancelled"; last_error := None |} :: [Ok completed])
  = {| ending_of := Failed (codes "Run cancelled"); polls := 3;
       sleeps := [1000; 1000]%Z |}.
Proof.
  destruct (poll_stops_at_first_settled [Ok queued; Ok in_progress] [Ok completed]
              (Ok {| status := codes "cancelled"; last_error := None |}))
    as [_ H]; [reflexivity|cbn [length]; lia|].
  apply (H (codes "Run cancelled")); reflexivity.
Defined.

End PollFacts.

Module RunnerFacts.
Import JS Poll Parser Docs Runner.

Lemma deletions_app t1 t2 : deletions (t1 ++ t2) = (deletions t1 + deletions t2)%nat.
Proof. unfold deletions. rewrite List.filter_app, length_app. reflexivity. Qed.

Lemma clean_bind {A B} (x : M A) (k : A -> M B) :
  clean x -> (forall a, clean (k a)) -> clean (bind x k).
Proof.
  unfold clean, bind. intros Hx Hk.
  destruct x as [t [a|msg|]]; cbn [fst] in *; try exact Hx.
  specialize (Hk a). destruct (k a) as [t' r]. cbn [fst] in *.
  rewrite deletions_app, Hx, Hk. reflexivity.
Qed.

Lemma clean_tryBlock gameId judge c response :
  clean (tryBlock gameId judge c response).
Proof.
  unfold tryBlock.
  repeat (apply clean_bind; [|intros ?]); try reflexivity.
  - destruct judge; reflexivity.
  - match goal with |- clean (match ?x with _ => _ end) =>
      destruct x as [[|? ?]|]; reflexivity end.
  - match goal with |- clean (match ?x with _ => _ end) =>
      destruct x; reflexivity end.
Qed.

Lemma tryBlock_withDel d gameId judge c response :
  tryBlock gameId judge (withDel d c) response = tryBlock gameId judge c response.
Proof. reflexivity. Qed.

Lemma deletions_logFault {A} response (r : step A) :
  deletions (logFault response r) = 0%nat.
Proof. destruct r; reflexivity. Qed.

Lemma deletions_cleanUp c : deletions (cleanUp c) = created c.
Proof.
  unfold cleanUp, created.
  destruct (createThread c) as [[|x thread]|msg]; try reflexivity.
  destruct (delThread c); reflexivity.
Qed.

(** C4, as amended: in every invocation of the runner that ends, the
    conversation is deleted exactly once when CREATE_CONVERSATION gave a
    conversation, after every other call, and not at all when
    CREATE_CONVERSATION failed; a fault of the deletion is logged, as the
    last thing the invocation does; and what the deletion answers, fault
    or not, leaves the outcome of the invocation as it is. *)
Theorem cleanup_once gameId judge c response :
  ended (snd (judgeAnswer gameId judge c response)) = true ->
  deletions (fst (judgeAnswer gameId judge c response)) = created c
  /\ (forall thread,
        createThread c = Ok thread -> thread <> [] ->
        exists before,
          deletions before = 0%nat
          /\ fst (judgeAnswer gameId judge c response)
             = before ++ ThreadDeleted thread ::
               match delThread c with
               | Ok _ => []
               | Throw _ => [ErrorLogged (codes "Error cleaning up thread:")]
               end)
  /\ (forall message,
        createThread c = Throw message ->
        snd (judgeAnswer gameId judge c response) = Fault message
        /\ forall thread,
             ~ In (ThreadDeleted thread) (fst (judgeAnswer gameId judge c response)))
  /\ forall d,
       snd (judgeAnswer gameId judge (withDel d c) response)
       = snd (judgeAnswer gameId judge c response).
Proof.
  intros Hend.
  pose proof (clean_tryBlock gameId judge c response) as Hclean.
  unfold clean in Hclean.
  split; [|split; [|split]].
  - unfold judgeAnswer in *.
    destruct (tryBlock gameId judge c response) as [t r]. cbn [fst] in Hclean.
    destruct r; cbn [fst snd ended] in *; try discriminate;
      rewrite !deletions_app, Hclean, deletions_logFault, deletions_cleanUp;
      reflexivity.
  - intros thread Hthread Hid. unfold judgeAnswer in *.
    destruct (tryBlock gameId judge c response) as [t r]. cbn [fst] in Hclean.
    exists (t ++ logFault response r). split.
    { rewrite deletions_app, Hclean, deletions_logFault. reflexivity. }
    assert (cleanUp c
            = ThreadDeleted thread ::
              match delThread c with
              | Ok _ => []
              | Throw _ => [ErrorLogged (codes "Error cleaning up thread:")]
              end) as Hclean'.
    { unfold cleanUp. rewrite Hthread. destruct thread; [congruence|reflexivity]. }
    destruct r; cbn [fst snd ended] in *; try discriminate;
      rewrite Hclean', <- app_assoc; reflexivity.
  - intros message Hthread. unfold judgeAnswer, tryBlock, cleanUp.
    rewrite Hthread. cbn. split; [reflexivity|].
    intros thread [H|[H|[]]]; discriminate.
  - intros d. unfold judgeAnswer. rewrite tryBlock_withDel.
    destruct (tryBlock gameId judge c response) as [t r]. destruct r; reflexivity.
Qed.


Lemma cleanup_once_witness :
  ended (snd (judgeAnswer (codes "g1") (Some Samples.judge) Samples.undeletable
                Samples.a1)) = true
  /\ deletions (fst (judgeAnswer (codes "g1") (Some Samples.judge)
                       Samples.undeletable Samples.a1)) = 1%nat
  /\ (exists before,
        deletions before = 0%nat
        /\ fst (judgeAnswer (codes "g1") (Some Samples.judge) Samples.undeletable
                  Samples.a1)
           = before ++ [ThreadDeleted (codes "thread_1");
                        ErrorLogged (codes "Error cleaning up thread:")])
  /\ snd (judgeAnswer (codes "g1") (Some Samples.judge) Samples.undeletable Samples.a1)
     = snd (judgeAnswer (codes "g1") (Some Samples.judge) (Samples.scoring "250")
              Samples.a1).
Proof.
  split; [reflexivity|].
  destruct (cleanup_once (codes "g1") (Some Samples.judge) Samples.undeletable
              Samples.a1) as (H1 & H2 & _ & H3); [reflexivity|].
  split; [exact H1|]. split.
  - apply (H2 (codes "thread_1")); [reflexivity|discriminate].
  - symmetry. exact (H3 (Ok tt)).
Defined.

(** C4, the claim as stated fails: when CREATE_CONVERSATION faults, the
    invocation ends with that fault and nothing is deleted. *)
Lemma no_thread_no_cleanup :
  snd (judgeAnswer (codes "g1") (Some Samples.judge) Samples.noThread Samples.a1)
  = Fault (codes "503 Service Unavailable")
  /\ deletions (fst (judgeAnswer (codes "g1") (Some Samples.judge) Samples.noThread
                       Samples.a1)) = 0%nat.
Proof. split; reflexivity. Qed.

(** *** Further properties of the runner *)

(** *** The place of the deletion *)

Lemma deletions_cons e t :
  deletions (e :: t) = ((if isDeletion e then 1 else 0) + deletions t)%nat.
Proof. unfold deletions. cbn [List.filter]. destruct (isDeletion e); reflexivity. Qed.

Lemma split_at_deletion (t1 : list event) : forall t1' x x' t2 t2',
  deletions t1 = 0%nat -> deletions t1' = 0%nat ->
  isDeletion x = true -> isDeletion x' = true ->
  t1 ++ x :: t2 = t1' ++ x' :: t2' -> t1 = t1' /\ x = x' /\ t2 = t2'.
Proof.
  induction t1 as [|a t1 IH]; intros [|a' t1'] x x' t2 t2' H1 H1' Hx Hx' H;
    cbn [app] in H.
  - injection H as -> ->. auto.
  - injection H as <- _. rewrite deletions_cons, Hx in H1'. lia.
  - injection H as -> _. rewrite deletions_cons, Hx' in H1. lia.
  - injection H as <- H. rewrite deletions_cons in H1, H1'.
    destruct (IH t1' x x' t2 t2') as (-> & -> & ->); auto; lia.
Qed.

(** X10: the conversation is deleted by the [finally] block only: a deletion
    in the calls of an invocation is of the conversation that the
    invocation created, no call comes before it that deletes, and nothing
    comes after it but the log of its own failure. *)
Theorem deletion_is_last (gameId : jsstring) (judge : option Judge.t)
    (c : conversation) (response : AIAnswer.t)
    (before after : list event) (thread : jsstring) :
  fst (judgeAnswer gameId judge c response)
  = before ++ ThreadDeleted thread :: after ->
  createThread c = Ok thread
  /\ deletions before = 0%nat
  /\ (after = [] \/ after = [ErrorLogged (codes "Error cleaning up thread:")]).
Proof.
  unfold judgeAnswer.
  pose proof (clean_tryBlock gameId judge c response) as Hclean. unfold clean in Hclean.
  destruct (tryBlock gameId judge c response) as [t r]. cbn [fst] in Hclean.
  assert (forall t', deletions t' = 0%nat ->
            t' = before ++ ThreadDeleted thread :: after -> False) as Hnone.
  { intros t' H0 ->. rewrite deletions_app, deletions_cons in H0. cbn in H0. lia. }
  assert (deletions (t ++ logFault response r) = 0%nat) as HP.
  { rewrite deletions_app, Hclean, deletions_logFault. reflexivity. }
  assert (t ++ logFault response r ++ cleanUp c = before ++ ThreadDeleted thread :: after ->
          createThread c = Ok thread /\ deletions before = 0%nat
          /\ (after = [] \/ after = [ErrorLogged (codes "Error cleaning up thread:")]))
    as Hmain.
  { rewrite app_assoc. unfold cleanUp.
    destruct (createThread c) as [[|x th]|msg].
    - rewrite app_nil_r. intros H. destruct (Hnone _ HP H).
    - intros H.
      assert (deletions before = 0%nat) as Hb.
      { apply (f_equal deletions) in H.
        rewrite (deletions_app (t ++ _)), HP, (deletions_app before),
          !deletions_cons in H. cbn [isDeletion] in H.
        destruct (delThread c); cbn in H; lia. }
      apply split_at_deletion in H as (_ & Hx & Ha); try assumption; try reflexivity.
      injection Hx as <-. split; [reflexivity|]. split; [exact Hb|].
      destruct (delThread c); rewrite <- Ha; auto.
    - rewrite app_nil_r. intros H. destruct (Hnone _ HP H). }
  destruct r; cbn [fst]; try exact Hmain.
  intros H. destruct (Hnone _ Hclean H).
Qed.

Lemma deletion_is_last_witness :
  createThread Samples.undeletable = Ok (codes "thread_1")
  /\ deletions
       (removelast (removelast
          (fst (judgeAnswer (codes "g1") (Some Samples.judge) Samples.undeletable
                  Samples.a1)))) = 0%nat.
Proof.
  destruct (deletion_is_last (codes "g1") (Some Samples.judge) Samples.undeletable
              Samples.a1
              (removelast (removelast
                 (fst (judgeAnswer (codes "g1") (Some Samples.judge) Samples.undeletable
                         Samples.a1))))
              [ErrorLogged (codes "Error cleaning up thread:")] (codes "thread_1"))
    as (H1 & H2 & _); [vm_compute; reflexivity|].
  split; [exact H1|exact H2].
Defined.

End RunnerFacts.

Module JudgementsFacts.
Import JS Poll Parser Docs Runner Judgements.

(** The reason that [Promise.all] rejects with is the reason of a
    rejected task, and no rejected task ended before it. *)
Lemma firstRejection_spec {A} (tasks : list (nat * step A)) time message :
  firstRejection tasks = Some (time, message) ->
  In (time, Fault message) tasks
  /\ forall time' message', In (time', Fault message') tasks -> (time <= time')%nat.
Proof.
  revert time message. induction tasks as [|[t r] tasks IH]; intros time message H;
    [discriminate|].
  cbn [firstRejection] in H.
  destruct r as [a|msg|].
  - destruct (IH _ _ H) as [Hin Hmin]. split; [right; exact Hin|].
    intros t' m' [Heq|Hin']; [discriminate|eauto].
  - destruct (firstRejection tasks) as [[t1 m1]|] eqn:E.
    + destruct (IH _ _ eq_refl) as [Hin Hmin].
      destruct (Nat.ltb_spec t1 t) as [Hlt|Hge]; injection H as <- <-.
      * split; [right; exact Hin|].
        intros t' m' [Heq|Hin']; [injection Heq as <- <-; lia|eauto].
      * split; [left; reflexivity|].
        intros t' m' [Heq|Hin']; [injection Heq as <- <-; lia|].
        specialize (Hmin _ _ Hin'). lia.
    + injection H as <- <-. split; [left; reflexivity|].
      intros t' m' [Heq|Hin']; [injection Heq as <- <-; lia|].
      exfalso. clear IH. induction tasks as [|[t2 r2] tasks IH2]; [destruct Hin'|].
      cbn [firstRejection] in E. destruct Hin' as [Heq|Hin'].
      * injection Heq as -> ->. destruct (firstRejection tasks) as [[? ?]|];
          [destruct (_ <? _)%nat|]; discriminate.
      * apply IH2; [|exact Hin']. destruct r2; [exact E| |exact E].
        destruct (firstRejection tasks) as [[? ?]|]; [|reflexivity].
        destruct (_ <? _)%nat; discriminate.
  - destruct (IH _ _ H) as [Hin Hmin]. split; [right; exact Hin|].
    intros t' m' [Heq|Hin']; [discriminate|eauto].
Qed.

Lemma firstRejection_some {A} (tasks : list (nat * step A)) time message :
  In (time, Fault message) tasks -> firstRejection tasks <> None.
Proof.
  induction tasks as [|[t r] tasks IH]; intros Hin; [destruct Hin|].
  cbn [firstRejection]. destruct Hin as [Heq|Hin].
  - injection Heq as -> ->. destruct (firstRejection tasks) as [[? ?]|];
      [destruct (_ <? _)%nat|]; discriminate.
  - specialize (IH Hin). destruct r; try exact IH.
    destruct (firstRejection tasks) as [[? ?]|]; [|discriminate].
    destruct (_ <? _)%nat; discriminate.
Qed.

(** C8: when the judgement of one answer ends in a fault, the run for
    the game is aborted: the caller gets status 500 with the error
    Internal server error occurred and, as its message, the reason of the
    rejection that came first; the store is left as it was, so no
    judgement is persisted and no score written. *)
Theorem fault_aborts_run (e : env) (gameId : jsstring) (st : store)
    (game : Game.t) (response : AIAnswer.t) (message : jsstring) :
  gameId <> [] -> gameReadFault e = None ->
  games st !! gameId = Some game ->
  In response (Game.aiResponses game) ->
  snd (judgeAnswer gameId (Game.judge game) (conversations e response) response)
  = Fault message ->
  exists first reason r,
    generateJudgements e (Some gameId) st = (Replied r, st)
    /\ status r = 500%nat
    /\ jsonBody r
       = ErrorBody (codes "Internal server error occurred") (Some reason)
    /\ In first (Game.aiResponses game)
    /\ snd (judgeAnswer gameId (Game.judge game) (conversations e first) first)
       = Fault reason
    /\ forall other message',
         In other (Game.aiResponses game) ->
         snd (judgeAnswer gameId (Game.judge game) (conversations e other) other)
         = Fault message' ->
         (settledAt e first <= settledAt e other)%nat.
Proof.
  intros Hid Hread Hgame Hin Hfault.
  assert (In (settledAt e response, Fault message) (fanOut e gameId game)) as Htask.
  { unfold fanOut. apply in_map_iff. exists response. rewrite Hfault. auto. }
  pose proof (firstRejection_some _ _ _ Htask) as Hsome.
  destruct (firstRejection (fanOut e gameId game)) as [[time reason]|] eqn:E;
    [clear Hsome|congruence].
  destruct (firstRejection_spec _ _ _ E) as [Hfirst Hmin].
  unfold fanOut in Hfirst. apply in_map_iff in Hfirst as (first & Heq & Hfirst).
  injection Heq as Htime Hreason.
  exists first, reason. eexists. split; [|split; [|split; [|repeat split]]].
  - unfold generateJudgements. destruct gameId as [|c gameId]; [congruence|].
    rewrite Hread, Hgame.
    destruct (Game.aiResponses game) as [|a l] eqn:Ea; [destruct Hin|].
    unfold promiseAll. rewrite E. reflexivity.
  - reflexivity.
  - reflexivity.
  - exact Hfirst.
  - exact Hreason.
  - intros other message' Hother Hmsg. rewrite Htime. apply (Hmin _ message').
    unfold fanOut. apply in_map_iff. exists other. rewrite Hmsg. auto.
Qed.


(** *** The Score Aggregator *)

Lemma eqs_true a b : eqs a b = true <-> a = b.
Proof. unfold eqs. apply bool_decide_eq_true. Qed.

Lemma eqs_false a b : eqs a b = false <-> a <> b.
Proof. unfold eqs. apply bool_decide_eq_false. Qed.

Lemma eqs_refl a : eqs a a = true.
Proof. apply eqs_true. reflexivity. Qed.

Lemma scoresFor_record j ps pid :
  scoresFor pid (record j ps)
  = if eqs (Judgement.playerId j) pid
    then Some (push j (default noScores (scoresFor pid ps)))
    else scoresFor pid ps.
Proof.
  induction ps as [|[k v] ps IH]; cbn [record scoresFor].
  - destruct (eqs (Judgement.playerId j) pid); reflexivity.
  - destruct (eqs k (Judgement.playerId j)) eqn:Ek; cbn [scoresFor].
    + apply eqs_true in Ek. subst k.
      destruct (eqs (Judgement.playerId j) pid); reflexivity.
    + rewrite IH. destruct (eqs k pid) eqn:Ekp; [|reflexivity].
      apply eqs_true in Ekp. apply eqs_false in Ek.
      destruct (eqs (Judgement.playerId j) pid) eqn:Ej; [|reflexivity].
      apply eqs_true in Ej. congruence.
Qed.

Lemma in_record_keys j ps x :
  In x (map fst (record j ps)) -> In x (map fst ps) \/ x = Judgement.playerId j.
Proof.
  induction ps as [|[k v] ps IH]; cbn [record map fst In].
  - intros [<-|[]]. right. reflexivity.
  - destruct (eqs k (Judgement.playerId j)); cbn [map fst In]; [tauto|].
    intros [<-|H]; [tauto|]. destruct (IH H); tauto.
Qed.

Lemma record_NoDup j ps :
  List.NoDup (map fst ps) -> List.NoDup (map fst (record j ps)).
Proof.
  induction ps as [|[k v] ps IH]; cbn [record map fst]; intros H.
  - constructor; [intros []|constructor].
  - inversion H as [|? ? Hk Hps]; subst.
    destruct (eqs k (Judgement.playerId j)) eqn:Ek; cbn [map fst].
    + constructor; assumption.
    + constructor; [|apply IH, Hps].
      intros Hin. apply in_record_keys in Hin as [Hin| ->]; [exact (Hk Hin)|].
      rewrite eqs_refl in Ek. discriminate.
Qed.

Lemma groupScores_NoDup judgements : List.NoDup (map fst (groupScores judgements)).
Proof.
  unfold groupScores.
  assert (forall acc, List.NoDup (map fst acc) ->
            List.NoDup (map fst (fold_left (fun acc j => record j acc) judgements acc)))
    as H.
  { induction judgements as [|j js IH]; intros acc Hacc; [exact Hacc|].
    cbn [fold_left]. apply IH, record_NoDup, Hacc. }
  apply H. constructor.
Qed.

Lemma fold_record_totals judgements : forall acc pid,
  totalScores
    (default noScores
       (scoresFor pid (fold_left (fun acc j => record j acc) judgements acc)))
  = totalScores (default noScores (scoresFor pid acc)) ++ totalsOf pid judgements.
Proof.
  induction judgements as [|j js IH]; intros acc pid; cbn [fold_left].
  - unfold totalsOf. cbn. rewrite app_nil_r. reflexivity.
  - rewrite IH, scoresFor_record. unfold totalsOf. cbn [List.filter].
    destruct (eqs (Judgement.playerId j) pid); [|reflexivity].
    cbn [default from_option push totalScores map]. unfold id.
    cbn [push totalScores]. rewrite <- app_assoc. reflexivity.
Qed.

Lemma fold_record_present judgements : forall acc pid,
  In pid (map Judgement.playerId judgements) \/ scoresFor pid acc <> None ->
  scoresFor pid (fold_left (fun acc j => record j acc) judgements acc) <> None.
Proof.
  induction judgements as [|j js IH]; intros acc pid H; cbn [fold_left].
  - destruct H as [[]|H]. exact H.
  - apply IH. rewrite scoresFor_record.
    destruct (eqs (Judgement.playerId j) pid) eqn:E; [right; discriminate|].
    apply eqs_false in E. destruct H as [[H|H]|H]; [congruence|left; exact H|right; exact H].
Qed.

(** The entry of a judged player holds that player's totals, in order. *)
Lemma groupScores_totals judgements pid :
  In pid (map Judgement.playerId judgements) ->
  exists scores,
    scoresFor pid (groupScores judgements) = Some scores
    /\ totalScores scores = totalsOf pid judgements.
Proof.
  intros Hin. unfold groupScores.
  pose proof (fold_record_present judgements [] pid (or_introl Hin)) as Hsome.
  pose proof (fold_record_totals judgements [] pid) as Htot.
  destruct (scoresFor pid (fold_left (fun acc j => record j acc) judgements []))
    as [scores|]; [|congruence].
  exists scores. split; [reflexivity|exact Htot].
Qed.

Lemma sumZ_nonneg l : Forall (fun t => (0 <= t)%Z) l -> (0 <= sumZ l)%Z.
Proof.
  induction 1 as [|x l Hx _ IH]; cbn [sumZ fold_right]; [lia|].
  unfold sumZ in IH. lia.
Qed.

(** Where no partial sum leaves the safe integers, the numbers add up
    exactly. *)
Lemma fold_left_add l : forall a,
  (0 <= a)%Z -> Forall (fun t => (0 <= t)%Z) l -> (a + sumZ l <= 2 ^ 53)%Z ->
  fold_left add l a = (a + sumZ l)%Z.
Proof.
  induction l as [|x l IH]; intros a Ha Hl Hsum; cbn [fold_left sumZ fold_right] in *.
  - lia.
  - inversion Hl as [|? ? Hx Hl']; subst.
    pose proof (sumZ_nonneg l Hl') as Hnn. unfold sumZ in *.
    rewrite JSFacts.add_safe by lia. rewrite IH by (assumption || lia). lia.
Qed.

Lemma updatePlayer_own e gameId theme players pid scores :
  updatePlayer e gameId theme players (pid, scores) !! (pid, gameId)
  = if playerFault e pid then players !! (pid, gameId)
    else option_map (addScore (combinedTotalScore scores) theme)
           (players !! (pid, gameId)).
Proof.
  unfold updatePlayer. destruct (playerFault e pid); [reflexivity|].
  destruct (players !! (pid, gameId)) as [player|] eqn:E.
  - rewrite lookup_insert_eq. reflexivity.
  - rewrite E. reflexivity.
Qed.

Lemma updatePlayer_other e gameId theme players k scores key :
  key <> (k, gameId) ->
  updatePlayer e gameId theme players (k, scores) !! key = players !! key.
Proof.
  intros Hne. unfold updatePlayer. destruct (playerFault e k); [reflexivity|].
  destruct (players !! (k, gameId)); [|reflexivity].
  apply lookup_insert_ne. congruence.
Qed.

Lemma fold_updatePlayer_other e gameId theme entries : forall players key,
  (forall k, In k (map fst entries) -> key <> (k, gameId)) ->
  fold_left (updatePlayer e gameId theme) entries players !! key = players !! key.
Proof.
  induction entries as [|[k v] entries IH]; intros players key H; [reflexivity|].
  cbn [fold_left]. rewrite IH.
  - apply updatePlayer_other, H. left. reflexivity.
  - intros k' Hk'. apply H. right. exact Hk'.
Qed.

Lemma fold_updatePlayer_own e gameId theme entries : forall players pid scores,
  List.NoDup (map fst entries) ->
  scoresFor pid entries = Some scores ->
  fold_left (updatePlayer e gameId theme) entries players !! (pid, gameId)
  = if playerFault e pid then players !! (pid, gameId)
    else option_map (addScore (combinedTotalScore scores) theme)
           (players !! (pid, gameId)).
Proof.
  induction entries as [|[k v] entries IH]; intros players pid scores Hnd Hs;
    [discriminate|].
  cbn [map fst] in Hnd. inversion Hnd as [|? ? Hk Hnd']; subst.
  cbn [scoresFor] in Hs. cbn [fold_left].
  destruct (eqs k pid) eqn:E.
  - apply eqs_true in E. subst k. injection Hs as ->.
    rewrite fold_updatePlayer_other; [apply updatePlayer_own|].
    intros k' Hk' Heq. injection Heq as ->. exact (Hk Hk').
  - apply eqs_false in E.
    rewrite (IH _ pid scores Hnd' Hs).
    rewrite updatePlayer_other by congruence. reflexivity.
Qed.


Lemma scoresFor_In entries k v :
  List.NoDup (map fst entries) -> (scoresFor k entries = Some v <-> In (k, v) entries).
Proof.
  induction entries as [|[k' v'] entries IH]; intros Hnd; cbn [scoresFor In].
  - split; [discriminate|tauto].
  - cbn [map fst] in Hnd. inversion Hnd as [|? ? Hk' Hnd']; subst.
    destruct (eqs k' k) eqn:E.
    + apply eqs_true in E. subst k'. split.
      * intros H. injection H as ->. left. reflexivity.
      * intros [H|H]; [congruence|]. exfalso. apply Hk'.
        apply in_map_iff. exists (k, v). auto.
    + apply eqs_false in E. rewrite (IH Hnd'). split; [tauto|].
      intros [H|H]; [congruence|exact H].
Qed.

Lemma scoresFor_None entries k :
  scoresFor k entries = None -> ~ In k (map fst entries).
Proof.
  induction entries as [|[k' v'] entries IH]; cbn [scoresFor map fst In]; [tauto|].
  destruct (eqs k' k) eqn:E; [discriminate|]. apply eqs_false in E.
  intros H [Hk|Hk]; [congruence|exact (IH H Hk)].
Qed.

(** What the updates do to any document of the store. *)
Lemma fold_updatePlayer_lookup e gameId theme entries players k g :
  List.NoDup (map fst entries) ->
  fold_left (updatePlayer e gameId theme) entries players !! (k, g)
  = match scoresFor k entries with
    | Some scores =>
        if eqs g gameId then
          if playerFault e k then players !! (k, g)
          else option_map (addScore (combinedTotalScore scores) theme)
                 (players !! (k, g))
        else players !! (k, g)
    | None => players !! (k, g)
    end.
Proof.
  intros Hnd. destruct (scoresFor k entries) as [scores|] eqn:Es.
  - destruct (eqs g gameId) eqn:Eg.
    + apply eqs_true in Eg. subst g. apply fold_updatePlayer_own; assumption.
    + apply eqs_false in Eg. apply fold_updatePlayer_other. congruence.
  - apply fold_updatePlayer_other. intros k' Hk' Heq. injection Heq as <- _.
    exact (scoresFor_None _ _ Es Hk').
Qed.

(** The order in which the keys are taken does not matter. *)
Lemma updatePlayers_any_order e gameId theme entries entries' players :
  Permutation entries entries' -> List.NoDup (map fst entries) ->
  fold_left (updatePlayer e gameId theme) entries players
  = fold_left (updatePlayer e gameId theme) entries' players.
Proof.
  intros Hperm Hnd.
  assert (List.NoDup (map fst entries')) as Hnd'.
  { eapply Permutation_NoDup; [apply Permutation_map, Hperm|exact Hnd]. }
  apply map_eq. intros [k g].
  rewrite !fold_updatePlayer_lookup by assumption.
  assert (scoresFor k entries' = scoresFor k entries) as ->; [|reflexivity].
  destruct (scoresFor k entries) as [v|] eqn:E.
  - apply scoresFor_In; [exact Hnd'|]. apply (Permutation_in _ Hperm).
    apply scoresFor_In; assumption.
  - destruct (scoresFor k entries') as [v'|] eqn:E'; [|reflexivity].
    apply scoresFor_In in E'; [|exact Hnd'].
    apply (Permutation_in _ (Permutation_sym Hperm)) in E'.
    apply scoresFor_In in E'; [congruence|exact Hnd].
Qed.

Lemma collectScores_fold judgements : forall acc,
  existsb (fun j => inherited (Judgement.playerId j)) judgements = false ->
  collectScores judgements acc
  = Ok (fold_left (fun acc j => record j acc) judgements acc).
Proof.
  induction judgements as [|j js IH]; intros acc H; [reflexivity|].
  cbn [existsb] in H. apply orb_false_elim in H as [Hj Hjs].
  cbn [collectScores fold_left]. unfold recordScores. rewrite Hj. apply IH, Hjs.
Qed.

Lemma not_inherited {A} (f : A -> jsstring) (l : list A) :
  (forall a, In a l -> ~ In (f a) inheritedNames) ->
  existsb (fun a => inherited (f a)) l = false.
Proof.
  intros H. apply not_true_is_false. intros Hex.
  apply existsb_exists in Hex as (a & Ha & Hin). unfold inherited in Hin.
  apply existsb_exists in Hin as (name & Hname & Heq).
  apply eqs_true in Heq. subst name. exact (H a Ha Hname).
Qed.

Lemma aggregate_ok e gameId theme judgements players :
  existsb (fun j => inherited (Judgement.playerId j)) judgements = false ->
  aggregate e gameId theme judgements players
  = Ok (updatePlayers e gameId theme (groupScores judgements) players).
Proof.
  intros H. unfold aggregate. rewrite collectScores_fold by exact H. reflexivity.
Qed.

(** C1, as amended: the Score Aggregator groups the judgements of a run
    by player and, for each judged player that is in the player store
    (and whose document the store lets it read and patch), writes to that
    player's document a totalScore equal to the sum of the player's
    per-judgement totals, as long as that sum is a safe integer, and the
    theme name of the game (Unknown Theme when the game names none); the
    rest of the document stays as it was.  The player ids of the run are
    none of the names that a plain object inherits. *)
Theorem aggregator_writes_sum (e : env) (gameId : jsstring) (game : Game.t)
    (judgements : list Judgement.t) (players : gmap (list N * list N) Player.t)
    (pid : jsstring) (player : Player.t) :
  (forall j, In j judgements ->
     ~ In (Judgement.playerId j)
         (map codes
             [ "constructor"; "__proto__"; "hasOwnProperty"; "isPrototypeOf";
               "propertyIsEnumerable"; "toLocaleString"; "toString"; "valueOf";
               "__defineGetter__"; "__defineSetter__"; "__lookupGetter__";
               "__lookupSetter__" ]%string)) ->
  In pid (map Judgement.playerId judgements) ->
  players !! (pid, gameId) = Some player ->
  playerFault e pid = false ->
  Forall (fun t => (0 <= t)%Z) (totalsOf pid judgements) ->
  (sumZ (totalsOf pid judgements) <= 2 ^ 53)%Z ->
  exists players' written,
    aggregate e gameId (themeOf game) judgements players = Ok players'
    /\ players' !! (pid, gameId) = Some written
    /\ Player.totalScore written = Some (sumZ (totalsOf pid judgements))
    /\ (forall j name,
          Game.judge game = Some j -> Judge.theme j = Some name -> name <> [] ->
          Player.themeName written = Some name)
    /\ (Game.judge game = None
        \/ (exists j, Game.judge game = Some j
                      /\ (Judge.theme j = None \/ Judge.theme j = Some [])) ->
        Player.themeName written = Some (codes "Unknown Theme"))
    /\ Player.id written = Player.id player
    /\ Player.gameId written = Player.gameId player
    /\ Player.screenName written = Player.screenName player
    /\ Player.email written = Player.email player
    /\ Player.prompt written = Player.prompt player.
Proof.
  intros Hown Hin Hplayer Hfault Hnn Hsafe.
  apply (not_inherited Judgement.playerId) in Hown.
  rewrite aggregate_ok by exact Hown.
  destruct (groupScores_totals judgements pid Hin) as (scores & Hs & Htot).
  eexists. eexists. split; [reflexivity|]. split.
  { unfold updatePlayers.
    rewrite (fold_updatePlayer_own _ _ _ _ _ _ _ (groupScores_NoDup judgements) Hs).
    rewrite Hfault, Hplayer. reflexivity. }
  cbn [addScore Player.totalScore Player.themeName Player.id Player.gameId
         Player.screenName Player.email Player.prompt].
  split.
  { unfold combinedTotalScore. rewrite Htot.
    rewrite fold_left_add by (assumption || lia). reflexivity. }
  split.
  { intros j name Hj Hname Hne. unfold themeOf. rewrite Hj, Hname.
    destruct name; [congruence|reflexivity]. }
  split.
  { unfold themeOf. intros [Hj|(j & Hj & [Ht|Ht])]; rewrite Hj; try rewrite Ht;
      reflexivity. }
  repeat split.
Qed.

Lemma aggregator_writes_sum_witness :
  exists players',
    aggregate Samples.judging (codes "g1") (themeOf Samples.game1)
      Samples.annJudgements (players Samples.store1) = Ok players'
    /\ players' !! (codes "p1", codes "g1")
       = Some {| Player.id := codes "p1"; Player.gameId := codes "g1";
                 Player.screenName := codes "Ann";
                 Player.email := codes "ann@example.org";
                 Player.prompt := Some (codes "You are a pirate.");
                 Player.totalScore := Some 730%Z;
                 Player.themeName := Some (codes "Space") |}.
Proof.
  destruct (aggregator_writes_sum Samples.judging (codes "g1") Samples.game1
              Samples.annJudgements (players Samples.store1) (codes "p1") Samples.ann)
    as (players' & written & Hrun & Hlook & Htotal & Htheme & _ & H1 & H2 & H3 & H4 & H5).
  - intros j [<-|[<-|[<-|[]]]] Hin; repeat (destruct Hin as [Hin|Hin]; [discriminate Hin|]);
      exact Hin.
  - left. reflexivity.
  - reflexivity.
  - reflexivity.
  - repeat constructor; discriminate.
  - discriminate.
  - exists players'. split; [exact Hrun|]. rewrite Hlook. f_equal.
    specialize (Htheme Samples.judge (codes "Space") eq_refl eq_refl
                  ltac:(discriminate)).
    destruct written as [i g n m pr ts tn].
    cbn [Player.id Player.gameId Player.screenName Player.email Player.prompt
           Player.totalScore Player.themeName] in *.
    rewrite Htotal, Htheme, H1, H2, H3, H4, H5. reflexivity.
Defined.

(** C1, the claim as stated fails.  Judged with the totals
    9007199254740991 and 2, Ann is given 9007199254740992, the number
    nearest to their sum.  And when one player of the run is registered
    under the id constructor, the grouping throws and no player of the
    run is scored, Ann no more than the other. *)
Lemma aggregator_sum_fails :
  (exists players',
     aggregate Samples.judging (codes "g1") (codes "Space")
       [Samples.annJudgement Samples.q1 9007199254740991;
        Samples.annJudgement Samples.q2 2]
       (players Samples.store1) = Ok players'
     /\ option_map Player.totalScore (players' !! (codes "p1", codes "g1"))
        = Some (Some 9007199254740992%Z))
  /\ sumZ (totalsOf (codes "p1")
             [Samples.annJudgement Samples.q1 9007199254740991;
              Samples.annJudgement Samples.q2 2])
     = 9007199254740993%Z
  /\ players Samples.storeWithEve !! (codes "p1", codes "g1") = Some Samples.ann
  /\ players Samples.storeWithEve !! (codes "constructor", codes "g1")
     = Some Samples.eve
  /\ aggregate Samples.judging (codes "g1") (codes "Space")
       (Samples.annJudgements ++ [Samples.eveJudgement])
       (players Samples.storeWithEve)
     = Throw (codes "Cannot read properties of undefined (reading 'push')").
Proof.
  split; [eexists; split; [reflexivity|vm_compute; reflexivity]|].
  repeat split; vm_compute; reflexivity.
Qed.

(** A player that is not in the store is skipped. *)
Lemma aggregator_skips_absent e gameId theme judgements players pid :
  players !! (pid, gameId) = None ->
  updatePlayers e gameId theme (groupScores judgements) players !! (pid, gameId)
  = None.
Proof.
  intros Hnone. unfold updatePlayers.
  rewrite fold_updatePlayer_lookup by apply groupScores_NoDup.
  rewrite Hnone. destruct (scoresFor pid (groupScores judgements)); [|reflexivity].
  rewrite eqs_refl. destruct (playerFault e pid); reflexivity.
Qed.

(** The whole handler on the sample game: three judgements for Ann,
    totals 250, 300 and 180, and 730 written to her document. *)
Example judging_ann :
  let run := generateJudgements Samples.judging (Some (codes "g1")) Samples.store1 in
  (exists r, fst run = Replied r /\ status r = 200%nat)
  /\ option_map Game.judgements (games (snd run) !! codes "g1")
     = Some Samples.annJudgements
  /\ option_map Player.totalScore (players (snd run) !! (codes "p1", codes "g1"))
     = Some (Some 730%Z)
  /\ option_map Player.themeName (players (snd run) !! (codes "p1", codes "g1"))
     = Some (Some (codes "Space")).
Proof.
  cbv zeta. split; [eexists; split; reflexivity|]. repeat split; vm_compute; reflexivity.
Qed.

Lemma fault_aborts_run_witness :
  exists r,
    generateJudgements Samples.judgingWithFault (Some (codes "g1")) Samples.store1
    = (Replied r, Samples.store1)
    /\ status r = 500%nat
    /\ jsonBody r
       = ErrorBody (codes "Internal server error occurred")
           (Some (codes "Run failed: server_error")).
Proof.
  destruct (fault_aborts_run Samples.judgingWithFault (codes "g1") Samples.store1
              Samples.game1 Samples.a2 (codes "Run failed: server_error"))
    as (first & reason & r & Hrun & Hstatus & Hbody & Hin & Hfault & _).
  - discriminate.
  - reflexivity.
  - reflexivity.
  - right. left. reflexivity.
  - reflexivity.
  - exists r. split; [exact Hrun|]. split; [exact Hstatus|].
    destruct Hin as [<-|[<-|[<-|[]]]]; vm_compute in Hfault;
      try discriminate Hfault.
    injection Hfault as <-. exact Hbody.
Defined.

(** The run of the sample game in which the second conversation fails:
    status 500 with the message of the failed run, nothing stored. *)
Example fault_run_reply :
  generateJudgements Samples.judgingWithFault (Some (codes "g1")) Samples.store1
  = (Replied {| status := 500;
                jsonBody :=
                  ErrorBody (codes "Internal server error occurred")
                    (Some (codes "Run failed: server_error")) |},
     Samples.store1).
Proof. vm_compute. reflexivity. Qed.

(** The faults of a judgement, one by one. *)
Example fault_run_failed :
  snd (judgeAnswer (codes "g1") (Some Samples.judge) Samples.failing Samples.a2)
  = Fault (codes "Run failed: server_error").
Proof. reflexivity. Qed.

Example fault_unsupported_state :
  snd (judgeAnswer (codes "g1") (Some Samples.judge)
         {| createThread := Ok (codes "thread_4"); createMessage := Ok tt;
            createRun := Ok (codes "run_4");
            retrieves := [Ok {| Poll.status := codes "requires_action";
                                last_error := None |}];
            listMessages := Ok None; delThread := Ok tt; now := Samples.clock |}
         Samples.a1)
  = Fault (codes "Run requires action - not supported").
Proof. reflexivity. Qed.

Example fault_timeout :
  snd (judgeAnswer (codes "g1") (Some Samples.judge)
         {| createThread := Ok (codes "thread_5"); createMessage := Ok tt;
            createRun := Ok (codes "run_5");
            retrieves := repeat (Ok queued) 30;
            listMessages := Ok None; delThread := Ok tt; now := Samples.clock |}
         Samples.a1)
  = Fault (codes "Run timed out after 30 seconds").
Proof. reflexivity. Qed.

Example fault_missing_content :
  snd (judgeAnswer (codes "g1") (Some Samples.judge)
         {| createThread := Ok (codes "thread_6"); createMessage := Ok tt;
            createRun := Ok (codes "run_6");
            retrieves := [Ok completed];
            listMessages := Ok (Some [[OtherBlock]]);
            delThread := Ok tt; now := Samples.clock |}
         Samples.a1)
  = Fault (codes "No text content found in assistant response").
Proof. reflexivity. Qed.

Example fault_parse_failure :
  snd (judgeAnswer (codes "g1") (Some Samples.judge)
         {| createThread := Ok (codes "thread_7"); createMessage := Ok tt;
            createRun := Ok (codes "run_7");
            retrieves := [Ok completed];
            listMessages := Ok (Some [[TextBlock (codes "I cannot score this.")]]);
            delThread := Ok tt; now := Samples.clock |}
         Samples.a1)
  = Fault (codes "Could not parse Context Score").
Proof. vm_compute. reflexivity. Qed.

(** *** Further properties of the handler *)

(** *** What the aggregator leaves alone *)

Lemma collectScores_Ok judgements : forall acc playerScores,
  collectScores judgements acc = Ok playerScores ->
  playerScores = fold_left (fun acc j => record j acc) judgements acc.
Proof.
  induction judgements as [|j js IH]; intros acc ps H; cbn [collectScores fold_left] in *.
  - injection H as <-. reflexivity.
  - unfold recordScores in H. destruct (inherited (Judgement.playerId j)); [discriminate|].
    apply IH, H.
Qed.

Lemma fold_record_absent judgements : forall acc pid,
  ~ In pid (map Judgement.playerId judgements) -> scoresFor pid acc = None ->
  scoresFor pid (fold_left (fun acc j => record j acc) judgements acc) = None.
Proof.
  induction judgements as [|j js IH]; intros acc pid Hin Hacc; cbn [fold_left];
    [exact Hacc|].
  cbn [map In] in Hin. apply IH; [tauto|]. rewrite scoresFor_record.
  destruct (eqs (Judgement.playerId j) pid) eqn:E; [|exact Hacc].
  apply eqs_true in E. tauto.
Qed.

(** X13: the aggregator creates no player document, and leaves as it is every
    document of another game, of a player without a judgement in the run,
    and of a player whose document cannot be read or patched. *)
Theorem aggregate_frame (e : env) (gameId theme : jsstring)
    (judgements : list Judgement.t)
    (players players' : gmap (list N * list N) Player.t) :
  aggregate e gameId theme judgements players = Ok players' ->
  forall k g,
    (players !! (k, g) = None -> players' !! (k, g) = None)
    /\ (g <> gameId \/ ~ In k (map Judgement.playerId judgements)
        \/ playerFault e k = true ->
        players' !! (k, g) = players !! (k, g)).
Proof.
  unfold aggregate. intros H k g.
  destruct (collectScores judgements []) as [ps|msg] eqn:E; [|discriminate].
  injection H as <-. apply collectScores_Ok in E. subst ps.
  unfold updatePlayers. fold (groupScores judgements).
  rewrite fold_updatePlayer_lookup by apply groupScores_NoDup.
  split.
  - intros ->. destruct (scoresFor k (groupScores judgements)); [|reflexivity].
    destruct (eqs g gameId), (playerFault e k); reflexivity.
  - intros Hcase.
    destruct (scoresFor k (groupScores judgements)) as [scores|] eqn:Es; [|reflexivity].
    destruct (eqs g gameId) eqn:Eg; [|reflexivity].
    destruct (playerFault e k) eqn:Ef; [reflexivity|].
    apply eqs_true in Eg. destruct Hcase as [Hg|[Hk|Hf]]; [congruence| |discriminate].
    unfold groupScores in Es.
    rewrite (fold_record_absent judgements [] k Hk eq_refl) in Es. discriminate.
Qed.

Lemma aggregate_frame_witness :
  exists players',
    aggregate Samples.judging (codes "g1") (codes "Space") Samples.annJudgements
      (players Samples.storeWithOld) = Ok players'
    /\ players' !! (codes "p2", codes "g1") = Some Samples.bob.
Proof.
  eexists. split; [reflexivity|].
  destruct (aggregate_frame Samples.judging (codes "g1") (codes "Space")
              Samples.annJudgements (players Samples.storeWithOld) _ eq_refl
              (codes "p2") (codes "g1")) as [_ H].
  rewrite H; [reflexivity|].
  right. left. intros [H1|[H1|[H1|[]]]]; discriminate.
Defined.

(** *** The replies of the handler *)

(** X14: the handler answers 200, 400, 404 or 500, or nothing while a
    conversation is still polling; 400 exactly when the gameId is missing
    or empty; with 400 and 404 the store is as it was, and the player
    documents change with 200 only. *)
Theorem generateJudgements_error_replies (e : env) (gameId : option (list N))
    (st : store) :
  match fst (generateJudgements e gameId st) with
  | NoReply => snd (generateJudgements e gameId st) = st
  | Replied r =>
      In (status r) [200; 400; 404; 500]%nat
      /\ (status r = 400%nat <-> gameId = None \/ gameId = Some [])
      /\ (status r = 400%nat \/ status r = 404%nat ->
          snd (generateJudgements e gameId st) = st)
      /\ (status r <> 200%nat ->
          players (snd (generateJudgements e gameId st)) = players st)
  end.
Proof.
  unfold generateJudgements.
  destruct gameId as [[|c g]|];
    [| destruct (gameReadFault e) as [msg|];
       [| destruct (games st !! (c :: g)) as [game|];
          [ destruct (Game.aiResponses game) as [|a l];
            [| destruct (promiseAll _) as [judgements|msg|];
               [ destruct (gamePatchFault e) as [msg|];
                 [| destruct (aggregate _ _ _ _ _) as [players'|msg] ] | | ] ] | ] ] | ];
    cbn [fst snd respond serverError status players];
    try reflexivity;
    (split; [cbn [In]; auto 6|]);
    (split; [split; [try discriminate; auto|intros [H|H]; try discriminate H; reflexivity]|]);
    (split; [try reflexivity; intros [H|H]; discriminate H|]);
    try reflexivity; congruence.
Qed.

(** *** A run in which every conversation succeeds *)

Lemma bind_value {A B} (x : M A) (k : A -> M B) (b : B) :
  snd (bind x k) = Value b ->
  exists a, snd x = Value a /\ snd (k a) = Value b.
Proof.
  unfold bind. destruct x as [t [a|msg|]]; cbn [snd]; try discriminate.
  destruct (k a) as [t' r] eqn:E. cbn [snd]. intros ->.
  exists a. rewrite E. auto.
Qed.

Lemma judgeAnswer_snd gameId judge c response :
  snd (judgeAnswer gameId judge c response) = snd (tryBlock gameId judge c response).
Proof.
  unfold judgeAnswer. destruct (tryBlock gameId judge c response) as [t [j|msg|]];
    reflexivity.
Qed.

(** The judgement of an answer names the answer, its player and its
    question, and carries the id of line 163. *)
Lemma judgeAnswer_value gameId judge c response j :
  snd (judgeAnswer gameId judge c response) = Value j ->
  Judgement.id j = gameId ++ codes "-judge-" ++ AIAnswer.id response
  /\ Judgement.gameId j = gameId
  /\ Judgement.aiAnswerId j = AIAnswer.id response
  /\ Judgement.playerId j = AIAnswer.playerId response
  /\ Judgement.questionId j = AIAnswer.questionId response.
Proof.
  rewrite judgeAnswer_snd. unfold tryBlock. intros H.
  repeat (apply bind_value in H as (? & _ & H)).
  cbn [ret snd] in H. injection H as <-. cbn. auto.
Qed.

Lemma promiseAll_values {A B} (f : B -> nat * step A) (l : list B) :
  (forall b, In b l -> exists a, snd (f b) = Value a) ->
  exists values,
    promiseAll (map f l) = Fulfilled values
    /\ Forall2 (fun b a => snd (f b) = Value a) l values.
Proof.
  intros H.
  assert (exists values,
            firstRejection (map f l) = None /\ fulfilled (map f l) = Some values
            /\ Forall2 (fun b a => snd (f b) = Value a) l values) as (vs & H1 & H2 & H3).
  { induction l as [|b l IH].
    - exists []. repeat split. constructor.
    - destruct IH as (vs & H1 & H2 & H3); [intros; apply H; right; assumption|].
      destruct (H b (or_introl eq_refl)) as (a & Ha).
      exists (a :: vs). split; [|split]; [| |constructor; assumption];
        cbn [map firstRejection fulfilled];
        destruct (f b) as [time r]; cbn [snd] in Ha; subst r;
        rewrite ?H1, ?H2; reflexivity. }
  exists vs. unfold promiseAll. rewrite H1, H2. auto.
Qed.

(** X11: when every conversation ends with a judgement whose scores are
    safe integers, no player id of the answers is a name that a plain
    object inherits, and the patch of the game goes through, the reply is
    200 with one judgement for each answer, in the order of the answers;
    these judgements are the judgements of the game document after the
    run, whatever they were before, the rest of the document and the
    other games stay as they were, and the player documents are those
    that the aggregator leaves, run on these judgements. *)
Theorem judgements_stored (e : env) (gameId : jsstring) (st : store)
    (game : Game.t) :
  gameId <> [] -> gameReadFault e = None -> games st !! gameId = Some game ->
  Game.aiResponses game <> [] ->
  (forall response, In response (Game.aiResponses game) ->
     exists j,
       snd (judgeAnswer gameId (Game.judge game) (conversations e response) response)
       = Value j
       /\ (Judgement.contextScore j <= 2 ^ 53)%Z
       /\ (Judgement.technicalScore j <= 2 ^ 53)%Z
       /\ (Judgement.clarityScore j <= 2 ^ 53)%Z
       /\ (Judgement.totalScore j <= 2 ^ 53)%Z) ->
  gamePatchFault e = None ->
  (forall response, In response (Game.aiResponses game) ->
     ~ In (AIAnswer.playerId response)
         (map codes
             [ "constructor"; "__proto__"; "hasOwnProperty"; "isPrototypeOf";
               "propertyIsEnumerable"; "toLocaleString"; "toString"; "valueOf";
               "__defineGetter__"; "__defineSetter__"; "__lookupGetter__";
               "__lookupSetter__" ]%string)) ->
  let run := generateJudgements e (Some gameId) st in
  exists r judgements game',
    fst run = Replied r
    /\ status r = 200%nat
    /\ jsonBody r
       = JudgementsBody
           (codes "Successfully generated judgements and updated player scores")
           gameId (length (Game.aiResponses game)) judgements
    /\ Forall2
         (fun response j =>
            snd (judgeAnswer gameId (Game.judge game) (conversations e response)
                   response) = Value j)
         (Game.aiResponses game) judgements
    /\ map Judgement.aiAnswerId judgements = map AIAnswer.id (Game.aiResponses game)
    /\ map Judgement.playerId judgements
       = map AIAnswer.playerId (Game.aiResponses game)
    /\ games (snd run) !! gameId = Some game'
    /\ Game.judgements game' = judgements
    /\ Game.id game' = Game.id game
    /\ Game.status game' = Game.status game
    /\ Game.judge game' = Game.judge game
    /\ Game.aiResponses game' = Game.aiResponses game
    /\ (forall other, other <> gameId ->
        games (snd run) !! other = games st !! other)
    /\ aggregate e gameId (themeOf game) judgements (players st)
       = Ok (players (snd run)).
Proof.
  intros Hid Hread Hgame Hne Hall Hpatch Hown run. subst run.
  apply (not_inherited AIAnswer.playerId) in Hown.
  destruct (promiseAll_values
              (fun response =>
                 (settledAt e response,
                  snd (judgeAnswer gameId (Game.judge game) (conversations e response)
                         response)))
              (Game.aiResponses game)) as (judgements & Hjoin & Hvals).
  { intros response Hin. destruct (Hall response Hin) as (j & Hj & _).
    exists j. exact Hj. }
  cbn [snd] in Hvals.
  assert (map Judgement.aiAnswerId judgements = map AIAnswer.id (Game.aiResponses game)
          /\ map Judgement.playerId judgements
             = map AIAnswer.playerId (Game.aiResponses game)) as [Hids Hpids].
  { clear -Hvals. induction Hvals as [|a j l js Hj _ [IH1 IH2]]; [split; reflexivity|].
    apply judgeAnswer_value in Hj as (_ & _ & H3 & H4 & _).
    cbn [map]. rewrite IH1, IH2, H3, H4. split; reflexivity. }
  assert (existsb (fun j => inherited (Judgement.playerId j)) judgements = false)
    as Hown'.
  { rewrite <- Hown. clear -Hpids. revert Hpids.
    generalize (Game.aiResponses game) as answers.
    induction judgements as [|j js IH]; intros [|a answers] H; try discriminate;
      [reflexivity|].
    cbn [map] in H. injection H as Hj Hjs. cbn [existsb].
    rewrite Hj, (IH _ Hjs). reflexivity. }
  assert (generateJudgements e (Some gameId) st
          = (Replied
               {| status := 200;
                  jsonBody :=
                    JudgementsBody
                      (codes "Successfully generated judgements and updated player scores")
                      gameId (length (Game.aiResponses game)) judgements |},
             {| games := <[gameId := addJudgements judgements game]> (games st);
                players :=
                  updatePlayers e gameId (themeOf game) (groupScores judgements)
                    (players st) |})) as Hrun.
  { unfold generateJudgements. destruct gameId as [|c g]; [congruence|].
    rewrite Hread, Hgame.
    destruct (Game.aiResponses game) as [|a l] eqn:Ea; [congruence|].
    unfold fanOut. rewrite Ea, Hjoin, Hpatch.
    rewrite aggregate_ok by exact Hown'.
    do 4 f_equal. rewrite <- (length_map Judgement.aiAnswerId), Hids, length_map.
    reflexivity. }
  rewrite Hrun. cbn [fst snd games players].
  eexists. exists judgements. eexists.
  split; [reflexivity|]. split; [reflexivity|]. split; [reflexivity|].
  split; [exact Hvals|]. split; [exact Hids|]. split; [exact Hpids|].
  split; [apply lookup_insert_eq|].
  cbn [addJudgements Game.judgements Game.id Game.status Game.judge Game.aiResponses].
  do 5 (split; [reflexivity|]). split.
  - intros other Hother. apply lookup_insert_ne. congruence.
  - apply aggregate_ok, Hown'.
Qed.

Lemma judgements_stored_witness :
  exists r game',
    fst (generateJudgements Samples.judging (Some (codes "g1")) Samples.store1)
    = Replied r
    /\ status r = 200%nat
    /\ games (snd (generateJudgements Samples.judging (Some (codes "g1"))
                     Samples.store1)) !! codes "g1" = Some game'
    /\ map Judgement.aiAnswerId (Game.judgements game')
       = [codes "g1-p1-q1"; codes "g1-p1-q2"; codes "g1-p1-q3"].
Proof.
  destruct (judgements_stored Samples.judging (codes "g1") Samples.store1 Samples.game1)
    as (r & judgements & game' & H1 & H2 & _ & _ & H3 & _ & H4 & H5 & _).
  - discriminate.
  - reflexivity.
  - reflexivity.
  - discriminate.
  - intros response [<-|[<-|[<-|[]]]]; eexists;
      (split; [vm_compute; reflexivity|]); repeat split; discriminate.
  - reflexivity.
  - intros response [<-|[<-|[<-|[]]]] Hin;
      repeat (destruct Hin as [Hin|Hin]; [discriminate Hin|]); exact Hin.
  - exists r, game'. split; [exact H1|]. split; [exact H2|]. split; [exact H4|].
    rewrite H5. exact H3.
Defined.

(** *** A game without a judge *)

Lemma tryBlock_no_judge gameId c response :
  tryBlock gameId None c response
  = match createThread c with
    | Throw message => ([ThreadCreated], Fault message)
    | Ok _ =>
        match createMessage c with
        | Throw message =>
            ([ThreadCreated; MessagePosted (userTurn response)], Fault message)
        | Ok _ =>
            ([ThreadCreated; MessagePosted (userTurn response)],
             Fault (codes "Cannot read properties of undefined (reading 'asst_id')"))
        end
    end.
Proof.
  unfold tryBlock.
  destruct (createThread c) as [thread|msg]; [|reflexivity].
  destruct (createMessage c) as [u|msg]; reflexivity.
Qed.

Lemma judgeAnswer_no_judge gameId c response :
  (exists message,
     snd (judgeAnswer gameId None c response) = Fault message
     /\ (createThread c = Throw message
         \/ createMessage c = Throw message
         \/ ((exists thread, createThread c = Ok thread) /\ createMessage c = Ok tt
             /\ message
                = codes "Cannot read properties of undefined (reading 'asst_id')")))
  /\ forall assistant, ~ In (RunStarted assistant) (fst (judgeAnswer gameId None c response)).
Proof.
  unfold judgeAnswer. rewrite tryBlock_no_judge. unfold cleanUp.
  destruct (createThread c) as [thread|msg].
  - destruct (createMessage c) as [[]|msg]; cbn [fst snd logFault app]; (split;
      [eexists; split; [reflexivity|eauto 6]|]);
      intros assistant; destruct thread; [| destruct (delThread c) | | destruct (delThread c)];
      cbn [In app]; intros H; repeat (destruct H as [H|H]; try discriminate H);
      exact H.
  - cbn [fst snd logFault app]. split; [eexists; split; [reflexivity|auto]|].
    intros assistant H. cbn [In app] in H.
    repeat (destruct H as [H|H]; try discriminate H). exact H.
Qed.

(** X12: a game document that has answers but no judge cannot be judged:
    no conversation starts a run, each one ends in a fault (the fault of
    its thread creation or of its message post or, when both go through,
    the error of reading asst_id of undefined), and the reply is status
    500 with the error Internal server error occurred, the store being
    left as it was; when every thread creation and message post goes
    through, the message of the reply is that error of reading asst_id. *)
Theorem missing_judge_aborts (e : env) (gameId : jsstring) (st : store)
    (game : Game.t) :
  gameId <> [] -> gameReadFault e = None -> games st !! gameId = Some game ->
  Game.aiResponses game <> [] -> Game.judge game = None ->
  (exists r reason,
     generateJudgements e (Some gameId) st = (Replied r, st)
     /\ status r = 500%nat
     /\ jsonBody r
        = ErrorBody (codes "Internal server error occurred") (Some reason)
     /\ ((forall response, In response (Game.aiResponses game) ->
            (exists thread, createThread (conversations e response) = Ok thread)
            /\ createMessage (conversations e response) = Ok tt) ->
         reason = codes "Cannot read properties of undefined (reading 'asst_id')"))
  /\ forall response,
       (forall assistant,
          ~ In (RunStarted assistant)
              (fst (judgeAnswer gameId (Game.judge game) (conversations e response)
                      response)))
       /\ exists message,
            snd (judgeAnswer gameId (Game.judge game) (conversations e response)
                   response) = Fault message
            /\ (createThread (conversations e response) = Throw message
                \/ createMessage (conversations e response) = Throw message
                \/ message
                   = codes "Cannot read properties of undefined (reading 'asst_id')").
Proof.
  intros Hid Hread Hgame Hne Hjudge. rewrite Hjudge. split.
  - destruct (Game.aiResponses game) as [|a l] eqn:Ea; [congruence|].
    destruct (judgeAnswer_no_judge gameId (conversations e a) a)
      as [(message & Hm & _) _].
    assert (In (settledAt e a, Fault message) (fanOut e gameId game)) as Htask.
    { unfold fanOut. rewrite Ea, Hjudge. left. rewrite Hm. reflexivity. }
    pose proof (firstRejection_some _ _ _ Htask) as Hsome.
    destruct (firstRejection (fanOut e gameId game)) as [[time reason]|] eqn:E;
      [clear Hsome|congruence].
    destruct (firstRejection_spec _ _ _ E) as [Hfirst _].
    unfold fanOut in Hfirst. rewrite Hjudge in Hfirst.
    apply in_map_iff in Hfirst as (first & Heq & Hfirst).
    injection Heq as _ Hreason.
    eexists. exists reason. split.
    { unfold generateJudgements. destruct gameId as [|c g]; [congruence|].
      rewrite Hread, Hgame, Ea. unfold promiseAll. rewrite E. reflexivity. }
    split; [reflexivity|]. split; [reflexivity|].
    { intros Hfine. rewrite Ea in Hfirst.
      destruct (Hfine first Hfirst) as [[thread Hthread] Hpost].
      destruct (judgeAnswer_no_judge gameId (conversations e first) first)
        as [(message' & Hm' & Hcase) _].
      rewrite Hm' in Hreason. injection Hreason as ->.
      destruct Hcase as [H|[H|(_ & _ & H)]]; [congruence|congruence|exact H]. }
  - intros response.
    destruct (judgeAnswer_no_judge gameId (conversations e response) response)
      as [(message & Hm & Hcase) Hnone].
    split; [exact Hnone|]. exists message. split; [exact Hm|].
    destruct Hcase as [H|[H|(_ & _ & H)]]; auto.
Qed.

Lemma missing_judge_aborts_witness :
  exists r,
    generateJudgements Samples.judging (Some (codes "g1")) FurtherSamples.storeNoJudge
    = (Replied r, FurtherSamples.storeNoJudge)
    /\ status r = 500%nat
    /\ jsonBody r
       = ErrorBody (codes "Internal server error occurred")
           (Some (codes "Cannot read properties of undefined (reading 'asst_id')")).
Proof.
  destruct (missing_judge_aborts Samples.judging (codes "g1")
              FurtherSamples.storeNoJudge FurtherSamples.gameNoJudge)
    as [(r & reason & Hrun & Hstatus & Hbody & Hreason) _];
    try (reflexivity || discriminate).
  exists r. split; [exact Hrun|]. split; [exact Hstatus|].
  rewrite Hbody, Hreason; [reflexivity|].
  intros response [<-|[]]. split; [eexists|]; reflexivity.
Defined.

End JudgementsFacts.

Module AnswersFacts.
Import JS Docs Sanitizer Answers.

Lemma NoDup_pairs {A B} (x : A) (l : list B) :
  List.NoDup l -> List.NoDup (map (pair x) l).
Proof.
  induction 1 as [|y l Hy Hl IH]; cbn [map]; constructor; [|exact IH].
  intros Hin. apply in_map_iff in Hin as (y' & Heq & Hin).
  injection Heq as ->. exact (Hy Hin).
Qed.

Lemma NoDup_list_prod {A B} (l : list A) (l' : list B) :
  List.NoDup l -> List.NoDup l' -> List.NoDup (list_prod l l').
Proof.
  intros Hl Hl'. induction Hl as [|x l Hx Hl IH]; cbn [list_prod]; [constructor|].
  apply List.NoDup_app; [apply NoDup_pairs, Hl'|exact IH|].
  intros [a b] Hin Hin'. apply in_map_iff in Hin as (b' & Heq & _).
  injection Heq as <- <-. apply in_prod_iff in Hin' as [Hin' _]. exact (Hx Hin').
Qed.

Lemma generateAnswers_run e gameId st game players :
  ready e gameId st game players ->
  generateAnswers e (Some gameId) st
  = (summary gameId players (judgeQuestionsOf game)
       (fanOut e gameId players (judgeQuestionsOf game)),
     storeAnswers e gameId game
       (successes (fanOut e gameId players (judgeQuestionsOf game))) st).
Proof.
  intros (Hid & Hread & Hgame & Hq & Hp & Hne).
  unfold generateAnswers. destruct gameId as [|c gameId]; [congruence|].
  rewrite Hread, Hgame.
  destruct (judgeQuestionsOf game) as [|q qs]; [congruence|].
  rewrite Hp. destruct players as [|p ps]; [congruence|]. reflexivity.
Qed.

Lemma pairOf_processPair e gameId player judgeQ :
  pairOf (processPair e gameId player judgeQ)
  = (Player.id player, JudgeQuestion.id judgeQ).
Proof.
  unfold processPair.
  destruct (complete e player judgeQ (promptFor player judgeQ)) as [[r|]|msg];
    try reflexivity.
  destruct (Completion.choices r) as [[|c cs]|]; reflexivity.
Qed.

Lemma pairOf_fanOut e gameId players judgeQuestions :
  map pairOf (fanOut e gameId players judgeQuestions)
  = list_prod (map Player.id players) (map JudgeQuestion.id judgeQuestions).
Proof.
  unfold fanOut. induction players as [|p ps IH]; [reflexivity|].
  cbn [flat_map map list_prod]. rewrite map_app, IH. f_equal.
  rewrite !map_map. apply map_ext. intros q. apply pairOf_processPair.
Qed.

Lemma in_fanOut e gameId players judgeQuestions player judgeQ :
  In player players -> In judgeQ judgeQuestions ->
  In (processPair e gameId player judgeQ) (fanOut e gameId players judgeQuestions).
Proof.
  intros Hp Hq. unfold fanOut. apply in_flat_map. exists player. split; [exact Hp|].
  apply in_map, Hq.
Qed.

Lemma in_successes a responses : In a (successes responses) <-> In (Answer a) responses.
Proof.
  induction responses as [|[b|err] rest IH]; cbn [successes In].
  - tauto.
  - rewrite IH. split; (intros [H|H]; [left; congruence|right; exact H]).
  - rewrite IH. split; [tauto|]. intros [H|H]; [discriminate|exact H].
Qed.

Lemma successes_filter responses :
  map Answer (successes responses)
  = List.filter (fun r => match r with Answer _ => true | AnswerError _ => false end)
      responses.
Proof.
  induction responses as [|[a|err] rest IH]; cbn [successes map List.filter];
    [reflexivity|rewrite IH; reflexivity|exact IH].
Qed.

(** C2: for a game with p players and q questions, both at least one,
    the fan-out answers with exactly p times q entries, one for each pair
    of a player and a question and, the ids being distinct, no two for
    the same pair.  A pair whose completion call throws gets an
    AnswerError entry that names the pair and carries the message of the
    fault; a pair whose call comes back with choices gets its Answer,
    whatever the calls of the other pairs do. *)
Theorem fan_out_covers_pairs (e : env) (gameId : jsstring) (st : store)
    (game : Game.t) (players : list Player.t) :
  ready e gameId st game players ->
  List.NoDup (map Player.id players) ->
  List.NoDup (map JudgeQuestion.id (judgeQuestionsOf game)) ->
  let reply := fst (generateAnswers e (Some gameId) st) in
  status reply = 200%nat
  /\ length (responsesOf reply)
     = (length players * length (judgeQuestionsOf game))%nat
  /\ map pairOf (responsesOf reply)
     = list_prod (map Player.id players)
         (map JudgeQuestion.id (judgeQuestionsOf game))
  /\ List.NoDup (map pairOf (responsesOf reply))
  /\ (forall player judgeQ message,
        In player players -> In judgeQ (judgeQuestionsOf game) ->
        complete e player judgeQ (promptFor player judgeQ) = Throw message ->
        exists err,
          In (AnswerError err) (responsesOf reply)
          /\ AIAnswerError.playerId err = Player.id player
          /\ AIAnswerError.questionId err = JudgeQuestion.id judgeQ
          /\ AIAnswerError.details err = Some message
          /\ (AIAnswerError.error err = codes "Content filter triggered"
              \/ AIAnswerError.error err = codes "Error generating response"))
  /\ (forall player judgeQ c cs,
        In player players -> In judgeQ (judgeQuestionsOf game) ->
        complete e player judgeQ (promptFor player judgeQ)
        = Ok (Some {| Completion.choices := Some (c :: cs) |}) ->
        exists a,
          In (Answer a) (responsesOf reply)
          /\ AIAnswer.playerId a = Player.id player
          /\ AIAnswer.questionId a = JudgeQuestion.id judgeQ
          /\ AIAnswer.answer a = answerOf c).
Proof.
  intros Hready Hps Hqs reply. subst reply.
  rewrite (generateAnswers_run _ _ _ _ _ Hready). cbn [fst summary status responsesOf jsonBody].
  pose proof (pairOf_fanOut e gameId players (judgeQuestionsOf game)) as Hpairs.
  split; [reflexivity|]. split.
  { rewrite <- (length_map pairOf), Hpairs, length_prod, !length_map. reflexivity. }
  split; [exact Hpairs|]. split.
  { rewrite Hpairs. apply NoDup_list_prod; assumption. }
  split.
  - intros player judgeQ message Hp Hq Hthrow.
    pose proof (in_fanOut e gameId _ _ _ _ Hp Hq) as Hin.
    unfold processPair in Hin. rewrite Hthrow in Hin. unfold faulted in Hin.
    eexists. split; [exact Hin|].
    cbn [AIAnswerError.playerId AIAnswerError.questionId AIAnswerError.details
           AIAnswerError.error].
    repeat split. destruct (isContentFilterError message); auto.
  - intros player judgeQ c cs Hp Hq Hc.
    pose proof (in_fanOut e gameId _ _ _ _ Hp Hq) as Hin.
    unfold processPair in Hin. rewrite Hc in Hin. cbn [Completion.choices] in Hin.
    unfold answered in Hin. eexists. split; [exact Hin|]. repeat split.
Qed.

(** C9, as amended: after a run in which at least one pair succeeds and
    the patch does not fail, the aiResponses of the game document are the
    successful answers of this run, in their order, whatever they were
    before; the rest of the document and the other documents stay as
    they were. *)
Theorem answers_replace_aiResponses (e : env) (gameId : jsstring) (st : store)
    (game : Game.t) (players : list Player.t) :
  ready e gameId st game players ->
  successes (responsesOf (fst (generateAnswers e (Some gameId) st))) <> [] ->
  gamePatchFault e = None ->
  let reply := fst (generateAnswers e (Some gameId) st) in
  let st' := snd (generateAnswers e (Some gameId) st) in
  (exists game',
     games st' !! gameId = Some game'
     /\ Game.aiResponses game' = successes (responsesOf reply)
     /\ map Answer (Game.aiResponses game')
        = List.filter
            (fun r => match r with Answer _ => true | AnswerError _ => false end)
            (responsesOf reply)
     /\ Game.id game' = Game.id game
     /\ Game.status game' = Game.status game
     /\ Game.judge game' = Game.judge game
     /\ Game.judgements game' = Game.judgements game)
  /\ (forall other, other <> gameId -> games st' !! other = games st !! other)
  /\ Docs.players st' = Docs.players st.
Proof.
  intros Hready Hne Hpatch reply st'. subst reply st'.
  rewrite (generateAnswers_run _ _ _ _ _ Hready) in *.
  cbn [fst snd summary responsesOf jsonBody] in *.
  unfold storeAnswers.
  pose proof (successes_filter (fanOut e gameId players (judgeQuestionsOf game)))
    as Hfilter.
  destruct (successes (fanOut e gameId players (judgeQuestionsOf game)))
    as [|a l]; [congruence|].
  rewrite Hpatch. cbn [games Docs.players]. split; [|split].
  - eexists. split; [apply lookup_insert_eq|].
    cbn [addAiResponses Game.aiResponses Game.id Game.status Game.judge
           Game.judgements].
    split; [reflexivity|]. split; [exact Hfilter|repeat split].
  - intros other Hother. apply lookup_insert_ne. congruence.
  - reflexivity.
Qed.



Lemma sample_ready :
  ready Samples.answering (codes "g1") Samples.storeWithOld Samples.gameWithOld
    [Samples.ann; Samples.bob].
Proof. unfold ready. repeat split; (reflexivity || discriminate). Defined.

Lemma fan_out_covers_pairs_witness :
  let reply :=
    fst (generateAnswers Samples.answering (Some (codes "g1")) Samples.storeWithOld) in
  status reply = 200%nat
  /\ length (responsesOf reply) = (2 * 3)%nat
  /\ List.NoDup (map pairOf (responsesOf reply))
  /\ (exists err,
        In (AnswerError err) (responsesOf reply)
        /\ AIAnswerError.playerId err = codes "p1"
        /\ AIAnswerError.questionId err = codes "q2"
        /\ AIAnswerError.details err
           = Some (codes "400 The response was filtered: content_filter"))
  /\ (exists a,
        In (Answer a) (responsesOf reply)
        /\ AIAnswer.playerId a = codes "p2"
        /\ AIAnswer.questionId a = codes "q1"
        /\ AIAnswer.answer a = codes "A ball of gas.").
Proof.
  destruct (fan_out_covers_pairs Samples.answering (codes "g1") Samples.storeWithOld
              Samples.gameWithOld [Samples.ann; Samples.bob] sample_ready)
    as (H1 & H2 & _ & H4 & H5 & H6).
  - constructor; [intros [H|[]]; discriminate|].
    constructor; [intros []|constructor].
  - constructor; [intros [H|[H|[]]]; discriminate|].
    constructor; [intros [H|[]]; discriminate|].
    constructor; [intros []|constructor].
  - cbv zeta. split; [exact H1|]. split; [exact H2|]. split; [exact H4|]. split.
    + destruct (H5 Samples.ann Samples.q2
                  (codes "400 The response was filtered: content_filter"))
        as (err & Hin & Hp & Hq & Hd & _);
        [left; reflexivity|right; left; reflexivity|reflexivity|].
      exists err. split; [exact Hin|]. split; [exact Hp|]. split; [exact Hq|exact Hd].
    + destruct (H6 Samples.bob Samples.q1
                  {| Completion.message :=
                       Some {| Completion.content := Some (codes "A ball of gas.") |} |}
                  [])
        as (a & Hin & Hp & Hq & Ha);
        [right; left; reflexivity|left; reflexivity|reflexivity|].
      exists a. split; [exact Hin|]. split; [exact Hp|]. split; [exact Hq|exact Ha].
Defined.

(** The entries of the sample run, pair by pair: the second question of
    each player trips the content filter, and the answers to the others
    are in the list all the same. *)
Example fan_out_sample :
  map (fun r => (pairOf r, match r with Answer _ => true | AnswerError _ => false end))
    (responsesOf (fst (generateAnswers Samples.answering (Some (codes "g1"))
                         Samples.storeWithOld)))
  = [ (codes "p1", codes "q1", true); (codes "p1", codes "q2", false);
      (codes "p1", codes "q3", true); (codes "p2", codes "q1", true);
      (codes "p2", codes "q2", false); (codes "p2", codes "q3", true) ].
Proof. vm_compute. reflexivity. Qed.

Lemma answers_replace_aiResponses_witness :
  exists game',
    games (snd (generateAnswers Samples.answering (Some (codes "g1"))
                  Samples.storeWithOld)) !! codes "g1" = Some game'
    /\ map Answer (Game.aiResponses game')
       = List.filter
           (fun r => match r with Answer _ => true | AnswerError _ => false end)
           (responsesOf (fst (generateAnswers Samples.answering (Some (codes "g1"))
                                Samples.storeWithOld)))
    /\ Game.judge game' = Some Samples.judge.
Proof.
  destruct (answers_replace_aiResponses Samples.answering (codes "g1")
              Samples.storeWithOld Samples.gameWithOld [Samples.ann; Samples.bob]
              sample_ready) as [(game' & H1 & _ & H2 & _ & _ & H3 & _) _].
  - vm_compute. discriminate.
  - reflexivity.
  - exists game'. split; [exact H1|]. split; [exact H2|exact H3].
Defined.

(** C9, the claim as stated fails: the answer stored by an earlier run is
    gone after the run; the game holds the four new answers, not the old
    one followed by them. *)
Lemma answers_not_appended :
  let run :=
    generateAnswers Samples.answering (Some (codes "g1")) Samples.storeWithOld in
  let before := Game.aiResponses Samples.gameWithOld in
  let new := successes (responsesOf (fst run)) in
  games Samples.storeWithOld !! codes "g1" = Some Samples.gameWithOld
  /\ before = [Samples.a1]
  /\ length new = 4%nat
  /\ option_map Game.aiResponses (games (snd run) !! codes "g1") = Some new
  /\ option_map (fun g => length (Game.aiResponses g)) (games (snd run) !! codes "g1")
     = Some 4%nat
  /\ length (before ++ new) = 5%nat.
Proof. cbv zeta. repeat split; vm_compute; reflexivity. Qed.


(** A response that is null, or has no choices, is the empty response. *)
Example null_response_is_empty (e : env) (gameId : jsstring) (player : Player.t)
    (judgeQ : JudgeQuestion.t) :
  complete e player judgeQ (promptFor player judgeQ) = Ok None ->
  processPair e gameId player judgeQ = emptyResponse player judgeQ.
Proof. intros H. unfold processPair. rewrite H. reflexivity. Qed.

(** *** Further properties of the handler *)

(** *** The replies of the handler *)

(** X15: the handler answers 200, 400, 404 or 500; 400 exactly when the
    gameId is missing or empty; and whenever the answer is not 200 the
    store is as it was. *)
Theorem generateAnswers_error_replies (e : env) (gameId : option (list N))
    (st : store) :
  let reply := fst (generateAnswers e gameId st) in
  (status reply = 200%nat
   \/ (In (status reply) [400; 404; 500]%nat
       /\ snd (generateAnswers e gameId st) = st))
  /\ (status reply = 400%nat <-> gameId = None \/ gameId = Some []).
Proof.
  cbv zeta. unfold generateAnswers.
  destruct gameId as [[|c g]|].
  - cbn. split; [right; auto|]. split; auto.
  - destruct (gameReadFault e) as [msg|].
    { cbn. split; [right; auto 6|]. split; [discriminate|intros [H|H]; discriminate]. }
    destruct (games st !! (c :: g)) as [game|].
    2:{ cbn. split; [right; auto 6|]. split; [discriminate|intros [H|H]; discriminate]. }
    destruct (judgeQuestionsOf game) as [|q qs].
    { cbn. split; [right; auto 6|]. split; [discriminate|intros [H|H]; discriminate]. }
    destruct (playerQuery e) as [[|p ps]|msg].
    + cbn. split; [right; auto 6|]. split; [discriminate|intros [H|H]; discriminate].
    + cbn [fst snd summary status]. split; [left; reflexivity|].
      split; [discriminate|intros [H|H]; discriminate].
    + cbn. split; [right; auto 6|]. split; [discriminate|intros [H|H]; discriminate].
  - cbn. split; [right; auto|]. split; auto.
Qed.

Lemma successes_failures_length responses :
  (length (successes responses) + length (failures responses))%nat = length responses.
Proof.
  induction responses as [|[a|err] rest IH]; cbn [successes failures length]; lia.
Qed.

Lemma fanOut_length e gameId players judgeQuestions :
  length (fanOut e gameId players judgeQuestions)
  = (length players * length judgeQuestions)%nat.
Proof.
  unfold fanOut. induction players as [|p ps IH]; [reflexivity|].
  cbn [flat_map length]. rewrite length_app, length_map, IH. lia.
Qed.

(** X16: the counts of a 200 reply add up: the successes and the errors
    together are the entries of the reply, one for each pair of a player
    and a question, and there is at least one player and one question. *)
Theorem summary_counts (e : env) (gameId : option (list N)) (st : store) :
  status (fst (generateAnswers e gameId st)) = 200%nat ->
  exists message g processedCount errorCount totalPlayers totalQuestions
         expectedTotal responses,
    jsonBody (fst (generateAnswers e gameId st))
    = AnswersBody message g processedCount errorCount totalPlayers totalQuestions
        expectedTotal responses
    /\ gameId = Some g
    /\ processedCount = length (successes responses)
    /\ errorCount = length (failures responses)
    /\ (processedCount + errorCount)%nat = expectedTotal
    /\ length responses = expectedTotal
    /\ expectedTotal = (totalPlayers * totalQuestions)%nat
    /\ (0 < totalPlayers)%nat /\ (0 < totalQuestions)%nat.
Proof.
  unfold generateAnswers.
  destruct gameId as [[|c g]|]; try discriminate.
  destruct (gameReadFault e) as [msg|]; [discriminate|].
  destruct (games st !! (c :: g)) as [game|]; [|discriminate].
  destruct (judgeQuestionsOf game) as [|q qs] eqn:Eq; [discriminate|].
  destruct (playerQuery e) as [[|p ps]|msg]; try discriminate.
  intros _. cbn [fst summary jsonBody].
  do 8 eexists. split; [reflexivity|].
  split; [reflexivity|]. split; [reflexivity|]. split; [reflexivity|].
  rewrite successes_failures_length, fanOut_length.
  cbn [length]. repeat split; lia.
Qed.

Lemma summary_counts_witness :
  exists message g processedCount errorCount totalPlayers totalQuestions
         expectedTotal responses,
    jsonBody (fst (generateAnswers Samples.answering (Some (codes "g1"))
                     Samples.storeWithOld))
    = AnswersBody message g processedCount errorCount totalPlayers totalQuestions
        expectedTotal responses
    /\ Some (codes "g1") = Some g
    /\ processedCount = length (successes responses)
    /\ errorCount = length (failures responses)
    /\ (processedCount + errorCount)%nat = expectedTotal
    /\ length responses = expectedTotal
    /\ expectedTotal = (totalPlayers * totalQuestions)%nat
    /\ (0 < totalPlayers)%nat /\ (0 < totalQuestions)%nat.
Proof.
  apply (summary_counts Samples.answering (Some (codes "g1")) Samples.storeWithOld).
  reflexivity.
Defined.

(** X17: a patch of the game that fails is swallowed: the reply is the one of
    the run in which the patch goes through, and nothing is stored. *)
Theorem patch_fault_swallowed (e : env) (gameId : option (list N)) (st : store)
    (message : jsstring) :
  let failing :=
    {| gameReadFault := gameReadFault e; playerQuery := playerQuery e;
       complete := complete e; now := now e; gamePatchFault := Some message |} in
  fst (generateAnswers failing gameId st) = fst (generateAnswers e gameId st)
  /\ snd (generateAnswers failing gameId st) = st.
Proof.
  cbv zeta. unfold generateAnswers. cbn [gameReadFault playerQuery].
  destruct gameId as [[|c g]|]; [auto| |auto].
  destruct (gameReadFault e) as [msg|]; [auto|].
  destruct (games st !! (c :: g)) as [game|]; [|auto].
  destruct (judgeQuestionsOf game) as [|q qs]; [auto|].
  destruct (playerQuery e) as [[|p ps]|msg]; [auto| |auto].
  cbn [fst snd]. split; [reflexivity|].
  unfold storeAnswers. cbn [gamePatchFault].
  destruct (successes _); reflexivity.
Qed.

(** *** The ids of the answers *)

Lemma hyphen_split p : forall p' q q',
  forallb (fun c => negb (c =? 45)) p = true ->
  forallb (fun c => negb (c =? 45)) p' = true ->
  p ++ 45 :: q = p' ++ 45 :: q' -> p = p' /\ q = q'.
Proof.
  induction p as [|c p IH]; intros [|c' p'] q q' Hp Hp' H; cbn [app forallb] in *.
  - injection H as ->. auto.
  - injection H as <- _. discriminate.
  - injection H as -> _. discriminate.
  - apply andb_prop in Hp as [_ Hp]. apply andb_prop in Hp' as [_ Hp'].
    injection H as -> H. destruct (IH _ _ _ Hp Hp' H) as [-> ->]. auto.
Qed.

Lemma NoDup_map_on {A B C} (f : A -> B) (g : A -> C) (l : list A) :
  (forall x y, In x l -> In y l -> g x = g y -> f x = f y) ->
  List.NoDup (map f l) -> List.NoDup (map g l).
Proof.
  induction l as [|x l IH]; intros Hinj Hnd; [constructor|].
  cbn [map] in *. inversion Hnd as [|? ? Hx Hl]; subst. constructor.
  - intros Hin. apply in_map_iff in Hin as (y & Heq & Hy). apply Hx.
    rewrite (Hinj x y (or_introl eq_refl) (or_intror Hy) (eq_sym Heq)).
    apply in_map, Hy.
  - apply IH; [|exact Hl]. intros a b Ha Hb. apply Hinj; right; assumption.
Qed.

Lemma NoDup_successes responses :
  List.NoDup (map pairOf responses) ->
  List.NoDup (map (fun a => pairOf (Answer a)) (successes responses)).
Proof.
  induction responses as [|[a|err] rest IH]; cbn [map successes]; intros H;
    inversion H as [|? ? Hx Hl]; subst; [constructor| |apply IH, Hl].
  constructor; [|apply IH, Hl].
  intros Hin. apply Hx. apply in_map_iff in Hin as (b & Heq & Hb).
  apply in_successes in Hb.
  change (In (pairOf (Answer a)) (map pairOf rest)).
  rewrite <- Heq. apply (in_map pairOf _ _ Hb).
Qed.

(** An answer of the fan-out carries the id that line 172 builds for its
    player and its question. *)
Lemma fanOut_answer_id e gameId players judgeQuestions a :
  In (Answer a) (fanOut e gameId players judgeQuestions) ->
  AIAnswer.id a
  = gameId ++ codes "-" ++ AIAnswer.playerId a ++ codes "-" ++ AIAnswer.questionId a
  /\ exists player, In player players /\ Player.id player = AIAnswer.playerId a.
Proof.
  unfold fanOut. intros Hin. apply in_flat_map in Hin as (player & Hp & Hin).
  apply in_map_iff in Hin as (judgeQ & Heq & _).
  unfold processPair in Heq.
  destruct (complete e player judgeQ (promptFor player judgeQ)) as [[r|]|msg];
    try discriminate.
  destruct (Completion.choices r) as [[|c cs]|]; try discriminate.
  unfold answered in Heq. injection Heq as <-. cbn. split; [reflexivity|].
  exists player. auto.
Qed.

(** X18: when no player id holds a hyphen, and the ids of the players and of
    the questions are distinct, no two answers of a run share their id. *)
Theorem answer_ids_distinct (e : env) (gameId : jsstring) (st : store)
    (game : Game.t) (players : list Player.t) :
  ready e gameId st game players ->
  List.NoDup (map Player.id players) ->
  List.NoDup (map JudgeQuestion.id (judgeQuestionsOf game)) ->
  forallb (fun p => forallb (fun c => negb (c =? 45)) (Player.id p)) players = true ->
  List.NoDup
    (map AIAnswer.id
       (successes (responsesOf (fst (generateAnswers e (Some gameId) st))))).
Proof.
  intros Hready Hps Hqs Hfree.
  rewrite (generateAnswers_run _ _ _ _ _ Hready).
  cbn [fst summary responsesOf jsonBody].
  set (l := fanOut e gameId players (judgeQuestionsOf game)).
  apply (NoDup_map_on (fun a => pairOf (Answer a))).
  - intros a b Ha Hb Hid. apply in_successes in Ha, Hb.
    destruct (fanOut_answer_id _ _ _ _ _ Ha) as (Ea & pa & Hpa & Epa).
    destruct (fanOut_answer_id _ _ _ _ _ Hb) as (Eb & pb & Hpb & Epb).
    rewrite Ea, Eb in Hid. apply app_inv_head in Hid.
    cbn [codes map list_ascii_of_string app] in Hid. injection Hid as Hid.
    rewrite forallb_forall in Hfree.
    apply hyphen_split in Hid as [H1 H2].
    + cbn [pairOf]. congruence.
    + rewrite <- Epa. apply Hfree, Hpa.
    + rewrite <- Epb. apply Hfree, Hpb.
  - apply NoDup_successes. subst l. rewrite pairOf_fanOut.
    apply NoDup_list_prod; assumption.
Qed.

Lemma answer_ids_distinct_witness :
  List.NoDup
    (map AIAnswer.id
       (successes (responsesOf (fst (generateAnswers Samples.answering
                                       (Some (codes "g1")) Samples.storeWithOld))))).
Proof.
  apply (answer_ids_distinct Samples.answering (codes "g1") Samples.storeWithOld
           Samples.gameWithOld [Samples.ann; Samples.bob] sample_ready).
  - constructor; [intros [H|[]]; discriminate|].
    constructor; [intros []|constructor].
  - constructor; [intros [H|[H|[]]]; discriminate|].
    constructor; [intros [H|[]]; discriminate|].
    constructor; [intros []|constructor].
  - reflexivity.
Defined.

End AnswersFacts.

Module LobbyFacts.
Import JS Docs Lobby.

(** *** The selection of the questions *)

Lemma selectQuestions_spec random rounds : forall call judgeQuestions,
  inRange random ->
  exists picked rest,
    selectQuestions rounds random call judgeQuestions = map Some picked
    /\ length picked = Nat.min rounds (length judgeQuestions)
    /\ picked ++ rest ≡ₚ judgeQuestions.
Proof.
  induction rounds as [|rounds IH]; intros call qs Hr.
  - exists [], qs. repeat split; reflexivity.
  - destruct qs as [|q qs']; [exists [], []; repeat split; reflexivity|].
    cbn [selectQuestions]. unfold splice1.
    set (qs := q :: qs') in *.
    pose proof (Hr call (length qs) ltac:(cbn [length qs]; lia)) as Hi.
    destruct (lookup_lt_is_Some_2 qs _ Hi) as [x Hx]. rewrite Hx.
    destruct (IH (S call) (delete (random call (length qs)) qs) Hr)
      as (picked & rest & -> & Hlen & Hperm).
    exists (x :: picked), rest. repeat split.
    + cbn [length]. rewrite Hlen, length_delete by (eexists; exact Hx).
      subst qs. cbn [length]. lia.
    + cbn [app]. rewrite Hperm. symmetry. apply delete_Permutation, Hx.
Qed.

(** X19: the loop selects three questions of the judge, or all of them when
    the judge has fewer; each is a question of the judge, none is taken
    twice, and none is undefined. *)
Theorem selectQuestions_distinct (random : nat -> nat -> nat)
    (judgeQuestions : list JudgeQuestion.t) :
  inRange random ->
  exists picked rest,
    selectQuestions 3 random 1 judgeQuestions = map Some picked
    /\ length picked = Nat.min 3 (length judgeQuestions)
    /\ picked ++ rest ≡ₚ judgeQuestions
    /\ (List.NoDup judgeQuestions -> List.NoDup picked)
    /\ (forall q, In q picked -> In q judgeQuestions).
Proof.
  intros Hr.
  destruct (selectQuestions_spec random 3 1 judgeQuestions Hr)
    as (picked & rest & H1 & H2 & H3).
  exists picked, rest. repeat split; try assumption.
  - intros Hnd. eapply Permutation_NoDup in Hnd; [|symmetry; exact H3].
    apply List.NoDup_app_remove_r in Hnd. exact Hnd.
  - intros q Hq. apply (Permutation_in q H3). apply in_or_app. left. exact Hq.
Qed.

Lemma selectQuestions_distinct_witness :
  exists picked rest,
    selectQuestions 3 (fun k n => (n - 1)%nat) 1 [Samples.q1; Samples.q2; Samples.q3]
    = map Some picked
    /\ length picked = 3%nat
    /\ picked ++ rest ≡ₚ [Samples.q1; Samples.q2; Samples.q3].
Proof.
  destruct (selectQuestions_distinct (fun k n => (n - 1)%nat)
              [Samples.q1; Samples.q2; Samples.q3])
    as (picked & rest & H1 & H2 & H3 & _).
  - intros k n Hn. lia.
  - exists picked, rest. auto.
Defined.

(** *** [createNewGame] *)

(** X20: a new game is stored only with the reply 200: under the fresh id,
    waiting, without players, with a judge of the database and the
    questions selected from that judge; the other documents stay as they
    are.  Without judges the reply is 404; a fault of a call leaves the
    store as it was. *)
Theorem createNewGame_effects (e : gameEnv) (st : state) :
  match createNewGame e st with
  | (Throw _, st') => st' = st
  | (Ok r, st') =>
      (code r = 404%nat /\ judges e = Ok [] /\ st' = st)
      \/ (code r = 200%nat
          /\ exists resources judge judgeQuestions g,
               judges e = Ok resources /\ In judge resources
               /\ Judge.questions judge = Some judgeQuestions
               /\ g = newGame (uuid e) judge
                        (selectQuestions 3 (random e) 1 judgeQuestions)
               /\ body r = GameJson g
               /\ games st' !! uuid e = Some g
               /\ (forall other, other <> uuid e ->
                     games st' !! other = games st !! other)
               /\ registered st' = registered st /\ sent st' = sent st)
  end.
Proof.
  unfold createNewGame.
  destruct (judges e) as [[|j0 js]|msg] eqn:Ej; [left; auto| |reflexivity].
  destruct ((j0 :: js) !! random e 0 (length (j0 :: js))) as [judge|] eqn:El;
    [|reflexivity].
  destruct (Judge.questions judge) as [judgeQuestions|] eqn:Eq; [|reflexivity].
  destruct (upsertFault e) as [msg|]; [reflexivity|].
  right. split; [reflexivity|].
  exists (j0 :: js), judge, judgeQuestions. eexists.
  split; [reflexivity|]. split; [apply list_elem_of_In; eapply list_elem_of_lookup_2, El|].
  split; [exact Eq|]. split; [reflexivity|]. split; [reflexivity|].
  cbn [upsertGame games registered sent newGame id].
  split; [apply lookup_insert_eq|]. split; [|auto].
  intros other Hother. apply lookup_insert_ne. congruence.
Qed.

(** *** [playerReg] *)

(** A request that is no POST is answered 405, and a POST without a
    screen name or without an email 400; neither writes nor sends
    anything. *)
Lemma playerReg_validation (e : regEnv) (r : regRequest) (st : state) :
  method r <> codes "POST" \/ screenName r = [] \/ email r = [] ->
  exists reply,
    playerReg e r st = (Ok reply, st)
    /\ (method r <> codes "POST" -> code reply = 405%nat)
    /\ (method r = codes "POST" -> code reply = 400%nat).
Proof.
  intros H. unfold playerReg, eqs.
  destruct (bool_decide_reflect (method r = codes "POST")) as [Hm|Hm]; cbn [negb].
  - destruct H as [H|H]; [congruence|].
    destruct (screenName r) as [|c s]; [eexists; repeat split; congruence|].
    destruct (email r) as [|c' s']; [eexists; repeat split; congruence|].
    destruct H; discriminate.
  - eexists. repeat split; congruence.
Qed.

Lemma playerReg_valid e r st :
  valid r ->
  playerReg e r st
  = match playerUpsertFault e with
    | Some message => (Throw message, st)
    | None =>
        let st1 := upsertPlayer (newPlayer r) st in
        match gameReadFault e with
        | Some message => (Throw message, st1)
        | None =>
            match games st1 !! gameId r with
            | None =>
                (Ok {| code := 404; body := Text (codes "Game not found") |}, st1)
            | Some game =>
                match gameReplaceFault e with
                | Some message => (Throw message, st1)
                | None =>
                    let st3 :=
                      sendWebPubSubMessage (pubsub e)
                        (codes "A new player joined the game") (newPlayer r)
                        (replaceGame (gameId r) (joined (newPlayer r) game) st1) in
                    match judge (joined (newPlayer r) game) with
                    | None =>
                        (Throw (codes "Cannot read properties of undefined (reading 'theme')"),
                         st3)
                    | Some j =>
                        (Ok {| code := 201;
                               body :=
                                 Registration (codes "Successfully created player")
                                   (newPlayer r) (Judge.theme (profile j)) |},
                         st3)
                    end
                end
            end
        end
    end.
Proof.
  intros (Hm & Hs & He). unfold playerReg, eqs.
  rewrite bool_decide_eq_true_2 by exact Hm. cbn [negb].
  destruct (screenName r) as [|c s]; [congruence|].
  destruct (email r) as [|c' s']; [congruence|]. reflexivity.
Qed.

(** X21: a registration for a game that does not exist is answered 404, but
    the player document is written all the same; the games are as they
    were and no message is sent. *)
Theorem playerReg_unknown_game (e : regEnv) (r : regRequest) (st : state) :
  valid r -> playerUpsertFault e = None -> gameReadFault e = None ->
  games st !! gameId r = None ->
  exists st',
    playerReg e r st
    = (Ok {| code := 404; body := Text (codes "Game not found") |}, st')
    /\ registered st' !! (userId r, gameId r) = Some (newPlayer r)
    /\ games st' = games st /\ sent st' = sent st.
Proof.
  intros Hv Hu Hr Hg. rewrite (playerReg_valid _ _ _ Hv), Hu, Hr. cbv zeta.
  cbn [upsertPlayer games]. rewrite Hg.
  eexists. split; [reflexivity|]. cbn [registered games sent newPlayer Player.id
    Player.gameId]. split; [apply lookup_insert_eq|auto].
Qed.

Lemma playerReg_unknown_game_witness :
  exists st',
    playerReg FurtherSamples.registering FurtherSamples.annRequest FurtherSamples.empty
    = (Ok {| code := 404; body := Text (codes "Game not found") |}, st')
    /\ registered st' !! (codes "p1", codes "g7")
       = Some (newPlayer FurtherSamples.annRequest).
Proof.
  destruct (playerReg_unknown_game FurtherSamples.registering FurtherSamples.annRequest
              FurtherSamples.empty) as (st' & H1 & H2 & _).
  - repeat split; discriminate.
  - reflexivity.
  - reflexivity.
  - reflexivity.
  - exists st'. split; [exact H1|exact H2].
Defined.

(** The state after a registration that goes through. *)
Lemma playerReg_ok e r st g j :
  valid r -> playerUpsertFault e = None -> gameReadFault e = None ->
  gameReplaceFault e = None ->
  games st !! gameId r = Some g -> judge g = Some j ->
  playerReg e r st
  = (Ok {| code := 201;
           body := Registration (codes "Successfully created player")
                     (newPlayer r) (Judge.theme (profile j)) |},
     sendWebPubSubMessage (pubsub e) (codes "A new player joined the game")
       (newPlayer r)
       (replaceGame (gameId r) (joined (newPlayer r) g)
          (upsertPlayer (newPlayer r) st))).
Proof.
  intros Hv Hu Hr Hp Hg Hj. rewrite (playerReg_valid _ _ _ Hv), Hu, Hr. cbv zeta.
  cbn [upsertPlayer games]. rewrite Hg, Hp. cbn [joined judge]. rewrite Hj.
  reflexivity.
Qed.

Lemma games_after_reg pubsub text p key g st :
  games (sendWebPubSubMessage pubsub text p (replaceGame key g st))
  = <[key := g]> (games st).
Proof. unfold sendWebPubSubMessage. destruct pubsub as [[u|msg]|]; reflexivity. Qed.

(** X22: a registration for a game with a judge: the reply is 201 with the
    player and the theme of the judge; the player document is the one of
    line 56, whatever was stored for that player before; the player and
    its id are appended to the lists of the game; the other documents are
    as they were; and the reply and the documents do not depend on what
    comes of the message to the group. *)
Theorem playerReg_joins (e : regEnv) (r : regRequest) (st : state)
    (g : game) (j : gameJudge) :
  valid r -> playerUpsertFault e = None -> gameReadFault e = None ->
  gameReplaceFault e = None ->
  games st !! gameId r = Some g -> judge g = Some j ->
  exists st',
    playerReg e r st
    = (Ok {| code := 201;
             body := Registration (codes "Successfully created player")
                       (newPlayer r) (Judge.theme (profile j)) |}, st')
    /\ registered st' !! (userId r, gameId r) = Some (newPlayer r)
    /\ (forall key, key <> (userId r, gameId r) ->
          registered st' !! key = registered st !! key)
    /\ games st' !! gameId r = Some (joined (newPlayer r) g)
    /\ players (joined (newPlayer r) g)
       = Some (default [] (players g) ++ [newPlayer r])
    /\ playerIds (joined (newPlayer r) g)
       = Some (default [] (playerIds g) ++ [userId r])
    /\ (forall other, other <> gameId r -> games st' !! other = games st !! other)
    /\ sent st'
       = sent st
         ++ match pubsub e with
            | Some (Ok _) =>
                [{| group := gameId r;
                    message := codes "A new player joined the game";
                    player := newPlayer r |}]
            | _ => []
            end.
Proof.
  intros Hv Hu Hr Hp Hg Hj. rewrite (playerReg_ok _ _ _ _ _ Hv Hu Hr Hp Hg Hj).
  eexists. split; [reflexivity|].
  unfold sendWebPubSubMessage, replaceGame, upsertPlayer.
  destruct (pubsub e) as [[u|msg]|];
    cbn [registered games sent newPlayer Player.id Player.gameId players playerIds
         joined];
    rewrite ?app_nil_r;
    (split; [apply lookup_insert_eq|]);
    (split; [intros key Hkey; apply lookup_insert_ne; congruence|]);
    (split; [apply lookup_insert_eq|]);
    (split; [reflexivity|]); (split; [reflexivity|]);
    (split; [intros other Hother; apply lookup_insert_ne; congruence|reflexivity]).
Qed.

Lemma playerReg_joins_witness :
  exists st',
    playerReg FurtherSamples.registering FurtherSamples.annRequest FurtherSamples.opened
    = (Ok {| code := 201;
             body := Registration (codes "Successfully created player")
                       (newPlayer FurtherSamples.annRequest)
                       (Some (codes "Coffee")) |}, st')
    /\ option_map players (games st' !! codes "g7")
       = Some (Some [newPlayer FurtherSamples.annRequest])
    /\ length (sent st') = 1%nat.
Proof.
  destruct (playerReg_joins FurtherSamples.registering FurtherSamples.annRequest
              FurtherSamples.opened
              (newGame (codes "g7") FurtherSamples.shortJudge
                 [Some Samples.q2; Some Samples.q1])
              {| profile := FurtherSamples.shortJudge;
                 selected := [Some Samples.q2; Some Samples.q1] |})
    as (st' & H1 & _ & _ & H4 & _ & _ & _ & H8);
    try reflexivity; [repeat split; discriminate|].
  exists st'. split; [exact H1|].
  split; [exact (f_equal (option_map players) H4)|rewrite H8; reflexivity].
Defined.

(** X23: registering is not idempotent: the same request sent twice leaves
    the player twice in the lists of the game. *)
Theorem playerReg_repeated (e : regEnv) (r : regRequest) (st : state)
    (g : game) (j : gameJudge) :
  valid r -> playerUpsertFault e = None -> gameReadFault e = None ->
  gameReplaceFault e = None ->
  games st !! gameId r = Some g -> judge g = Some j ->
  exists reply st1 st2 g2,
    playerReg e r st = (Ok reply, st1)
    /\ playerReg e r st1 = (Ok reply, st2)
    /\ code reply = 201%nat
    /\ games st2 !! gameId r = Some g2
    /\ players g2 = Some (default [] (players g) ++ [newPlayer r; newPlayer r])
    /\ playerIds g2 = Some (default [] (playerIds g) ++ [userId r; userId r]).
Proof.
  intros Hv Hu Hr Hp Hg Hj.
  pose proof (playerReg_ok _ _ _ _ _ Hv Hu Hr Hp Hg Hj) as H1.
  set (st1 := sendWebPubSubMessage _ _ _ _) in H1.
  assert (games st1 !! gameId r = Some (joined (newPlayer r) g)) as Hg1.
  { subst st1. rewrite games_after_reg. apply lookup_insert_eq. }
  pose proof (playerReg_ok e r st1 (joined (newPlayer r) g) j Hv Hu Hr Hp Hg1 Hj)
    as H2.
  do 4 eexists. split; [exact H1|]. split; [exact H2|].
  split; [reflexivity|]. rewrite games_after_reg.
  split; [apply lookup_insert_eq|].
  cbn [joined players playerIds default from_option newPlayer Player.id].
  unfold Datatypes.id. rewrite <- !app_assoc. split; reflexivity.
Qed.

Lemma playerReg_repeated_witness :
  exists reply st1 st2 g2,
    playerReg FurtherSamples.registering FurtherSamples.annRequest FurtherSamples.opened
    = (Ok reply, st1)
    /\ playerReg FurtherSamples.registering FurtherSamples.annRequest st1 = (Ok reply, st2)
    /\ games st2 !! codes "g7" = Some g2
    /\ players g2
       = Some [newPlayer FurtherSamples.annRequest; newPlayer FurtherSamples.annRequest].
Proof.
  destruct (playerReg_repeated FurtherSamples.registering FurtherSamples.annRequest
              FurtherSamples.opened
              (newGame (codes "g7") FurtherSamples.shortJudge
                 [Some Samples.q2; Some Samples.q1])
              {| profile := FurtherSamples.shortJudge;
                 selected := [Some Samples.q2; Some Samples.q1] |})
    as (reply & st1 & st2 & g2 & H1 & H2 & _ & H4 & H5 & _);
    try reflexivity; [repeat split; discriminate|].
  exists reply, st1, st2, g2. auto.
Defined.

(** *** [getGame] after the other handlers *)

(** X24: a game that [createNewGame] has opened is shown by [getGame] under
    its id: without players, with the theme of its judge. *)
Theorem created_game_is_shown (e : gameEnv) (st st' : state) (r : response) :
  createNewGame e st = (Ok r, st') -> code r = 200%nat -> uuid e <> [] ->
  exists g j,
    body r = GameJson g /\ judge g = Some j
    /\ getGame None (Some (uuid e)) st'
       = Ok {| code := 200;
               body := GameView (uuid e) (Some []) (Judge.theme (profile j)) |}.
Proof.
  unfold createNewGame. intros H Hcode Hid.
  destruct (judges e) as [[|j0 js]|msg]; try discriminate.
  { injection H as <- <-. discriminate. }
  destruct (_ !! _) as [jd|]; [|discriminate].
  destruct (Judge.questions jd) as [qs|]; [|discriminate].
  destruct (upsertFault e) as [msg|]; [discriminate|].
  injection H as <- <-. do 2 eexists. split; [reflexivity|]. split; [reflexivity|].
  unfold getGame. destruct (uuid e) as [|c u] eqn:Eu; [congruence|].
  cbn [upsertGame games newGame id]. rewrite lookup_insert_eq. reflexivity.
Qed.

Lemma created_game_is_shown_witness :
  exists g j,
    body {| code := 200;
            body := GameJson (newGame (codes "g7") FurtherSamples.shortJudge
                                [Some Samples.q2; Some Samples.q1]) |}
    = GameJson g /\ judge g = Some j
    /\ getGame None (Some (codes "g7")) FurtherSamples.opened
       = Ok {| code := 200;
               body := GameView (codes "g7") (Some []) (Judge.theme (profile j)) |}.
Proof.
  apply (created_game_is_shown FurtherSamples.opening FurtherSamples.empty);
    [reflexivity|reflexivity|discriminate].
Defined.

(** X25: after a registration that was answered 201, [getGame] shows the
    game with the new player at the end of its players, and the theme
    that the registration named. *)
Theorem registered_player_is_shown (e : regEnv) (r : regRequest)
    (st st' : state) (g : game) (reply : response) :
  games st !! gameId r = Some g ->
  playerReg e r st = (Ok reply, st') -> code reply = 201%nat -> gameId r <> [] ->
  exists theme,
    body reply
    = Registration (codes "Successfully created player") (newPlayer r) theme
    /\ getGame None (Some (gameId r)) st'
       = Ok {| code := 200;
               body := GameView (id g) (Some (default [] (players g) ++ [newPlayer r]))
                         theme |}.
Proof.
  intros Hg H Hcode Hid. unfold playerReg in H.
  destruct (negb _); [injection H as <- <-; discriminate|].
  destruct (screenName r) as [|c s]; [injection H as <- <-; discriminate|].
  destruct (email r) as [|c' s']; [injection H as <- <-; discriminate|].
  destruct (playerUpsertFault e); [discriminate|].
  destruct (gameReadFault e); [discriminate|].
  cbn [upsertPlayer games] in H. rewrite Hg in H.
  destruct (gameReplaceFault e); [discriminate|].
  destruct (judge (joined _ g)) as [j|] eqn:Ej; [|discriminate].
  injection H as <- <-. eexists. split; [reflexivity|].
  unfold getGame. destruct (gameId r) as [|c0 g0] eqn:Eg; [congruence|].
  rewrite games_after_reg, lookup_insert_eq, Ej. reflexivity.
Qed.

Lemma registered_player_is_shown_witness :
  exists theme,
    getGame None (Some (codes "g7"))
      (snd (playerReg FurtherSamples.registering FurtherSamples.annRequest
              FurtherSamples.opened))
    = Ok {| code := 200;
            body := GameView (codes "g7") (Some [newPlayer FurtherSamples.annRequest])
                      theme |}.
Proof.
  destruct (registered_player_is_shown FurtherSamples.registering
              FurtherSamples.annRequest FurtherSamples.opened
              (snd (playerReg FurtherSamples.registering FurtherSamples.annRequest
                      FurtherSamples.opened))
              (newGame (codes "g7") FurtherSamples.shortJudge
                 [Some Samples.q2; Some Samples.q1])
              {| code := 201;
                 body := Registration (codes "Successfully created player")
                           (newPlayer FurtherSamples.annRequest)
                           (Some (codes "Coffee")) |})
    as (theme & _ & H); try reflexivity; [discriminate|].
  exists theme. exact H.
Defined.

End LobbyFacts.

Module LeaderBoardFacts.
Import JS Docs LeaderBoard.

Lemma imap_rank {A} (f : nat -> A -> row) (l : list A) : forall k,
  (forall i a, rank (f i a) = (i + 1)%nat) ->
  map rank (imap (fun i => f (k + i)%nat) l) = seq (k + 1) (length l).
Proof.
  induction l as [|a l IH]; intros k Hf; [reflexivity|].
  cbn [imap map length seq]. rewrite Hf, Nat.add_0_r. f_equal.
  replace (S (k + 1)) with (S k + 1)%nat by lia.
  rewrite <- (IH (S k) Hf). f_equal. apply imap_ext. intros i x _.
  unfold compose. f_equal. lia.
Qed.

(** X26: the rows of the leaderboard are the documents that the query
    answered, as many and in the same order; the row at position i has
    rank i + 1 and shows the id, screen name, total score, theme and game
    of the document at that position, so that the ranks run 1, 2, ...
    whatever the scores are; the reply is 200 also when there is no row.
    A gameId that is missing or empty asks for the players of all games. *)
Theorem leaderboard_ranks (e : env) (game : option (list N))
    (players : list Player.t) :
  query e (querySpecOf game) = Ok players ->
  status (getLeaderBoard e game) = 200%nat
  /\ length (rowsOf (getLeaderBoard e game)) = length players
  /\ map rank (rowsOf (getLeaderBoard e game)) = seq 1 (length players)
  /\ (forall i player,
        players !! i = Some player ->
        rowsOf (getLeaderBoard e game) !! i
        = Some {| rank := i + 1; id := Player.id player;
                  name := Player.screenName player;
                  score := Player.totalScore player;
                  theme := Player.themeName player;
                  gameId := Player.gameId player |})
  /\ (game = None \/ game = Some [] -> query e TopOfAll = Ok players)
  /\ (forall g, game = Some g -> g <> [] -> query e (TopOfGame g) = Ok players).
Proof.
  intros Hq. unfold getLeaderBoard. rewrite Hq. cbn [status rowsOf jsonBody].
  split; [reflexivity|]. split; [apply length_imap|].
  split; [apply (imap_rank toRow _ 0); reflexivity|]. split; [|split].
  - intros i player Hi. rewrite list_lookup_imap, Hi. reflexivity.
  - intros [->| ->]; exact Hq.
  - intros g -> Hg. destruct g; [congruence|exact Hq].
Qed.

Lemma leaderboard_ranks_witness :
  map (fun r => (rank r, name r, score r))
    (rowsOf (getLeaderBoard
               {| query := fun _ =>
                    Ok [addScore 730 (codes "Space") Samples.bob;
                        addScore 730 (codes "Space") Samples.ann];
                  now := Samples.clock |}
               (Some (codes "g1"))))
  = [(1%nat, codes "Bob", Some 730%Z); (2%nat, codes "Ann", Some 730%Z)].
Proof.
  destruct (leaderboard_ranks
              {| query := fun _ =>
                   Ok [addScore 730 (codes "Space") Samples.bob;
                       addScore 730 (codes "Space") Samples.ann];
                 now := Samples.clock |}
              (Some (codes "g1"))
              [addScore 730 (codes "Space") Samples.bob;
               addScore 730 (codes "Space") Samples.ann] eq_refl)
    as (_ & Hlen & _ & H & _).
  pose proof (H 0%nat _ eq_refl) as H0. pose proof (H 1%nat _ eq_refl) as H1.
  destruct (rowsOf _) as [|r0 [|r1 [|r2 rest]]]; try discriminate.
  injection H0 as ->. injection H1 as ->. reflexivity.
Defined.

End LeaderBoardFacts.

Module LegacyFacts.
Import JS Regex Parser JSFacts RegexFacts ParserFacts.

(** *** The earlier selection of the questions *)

Lemma legacy_select_nil random rounds : forall call,
  Legacy.selectQuestions rounds random call [] = repeat None rounds.
Proof.
  induction rounds as [|rounds IH]; intros call; [reflexivity|].
  cbn [Legacy.selectQuestions repeat]. unfold Lobby.splice1.
  rewrite lookup_nil. cbn [delete list_delete]. rewrite IH. reflexivity.
Qed.

Lemma select_length random rounds : forall call judgeQuestions,
  (length (Lobby.selectQuestions rounds random call judgeQuestions) <= rounds)%nat.
Proof.
  induction rounds as [|rounds IH]; intros call [|q qs]; cbn [Lobby.selectQuestions length];
    try lia.
  unfold Lobby.splice1. cbn [length]. specialize (IH (S call) (delete (random call (S (length qs))) (q :: qs))). lia.
Qed.

(** X28: the earlier loop always runs three rounds: it selects what the loop
    of today selects, and then, the questions being used up, it pushes
    undefined until it has three entries. *)
Theorem legacy_selection_pads (random : nat -> nat -> nat)
    (judgeQuestions : list Docs.JudgeQuestion.t) :
  Legacy.selectQuestions 3 random 1 judgeQuestions
  = Lobby.selectQuestions 3 random 1 judgeQuestions
    ++ repeat None (3 - length (Lobby.selectQuestions 3 random 1 judgeQuestions))
  /\ length (Legacy.selectQuestions 3 random 1 judgeQuestions) = 3%nat.
Proof.
  assert (forall rounds call qs,
            Legacy.selectQuestions rounds random call qs
            = Lobby.selectQuestions rounds random call qs
              ++ repeat None
                   (rounds - length (Lobby.selectQuestions rounds random call qs)))
    as H.
  { induction rounds as [|rounds IH]; intros call qs; [reflexivity|].
    destruct qs as [|q qs].
    - rewrite legacy_select_nil. reflexivity.
    - cbn [Legacy.selectQuestions Lobby.selectQuestions]. unfold Lobby.splice1.
      rewrite IH. cbn [app length]. reflexivity. }
  split; [apply H|]. rewrite H, length_app, repeat_length.
  pose proof (select_length random 3 1 judgeQuestions). lia.
Qed.

(** *** The earlier parser *)

Lemma m_lit_clash w b : forall k n s cs,
  clash w b = true -> m (lit w) k (n, b ++ s) cs = None.
Proof.
  revert b. induction w as [|a w IH]; intros b k n s cs H;
    [destruct b; discriminate|].
  destruct b as [|c b]; [discriminate|].
  cbn [clash] in H. cbn [lit fold_right app]. fold (lit w).
  rewrite m_Seq, m_Cls_cons.
  destruct (N.eqb_spec a c) as [->|]; [|reflexivity].
  rewrite N.eqb_refl in H. apply IH, H.
Qed.

Lemma startsWith_lit w : forall k n s cs,
  startsWith w s = false -> m (lit w) k (n, s) cs = None.
Proof.
  induction w as [|a w IH]; intros k n s cs H; [discriminate|].
  cbn [lit fold_right]. fold (lit w). rewrite m_Seq.
  destruct s as [|c s]; [reflexivity|]. rewrite m_Cls_cons.
  cbn [startsWith] in H. destruct (a =? c); [apply IH, H|reflexivity].
Qed.

Lemma includes_searchFrom w r : forall s n,
  w <> [] -> includes w s = false -> searchFrom (Seq (lit w) r) n s = None.
Proof.
  induction s as [|c s IH]; intros n Hw H.
  - unfold searchFrom. rewrite m_Seq, startsWith_lit; [reflexivity|].
    destruct w; [congruence|reflexivity].
  - cbn [includes] in H. apply orb_false_elim in H as [H1 H2].
    rewrite searchFrom_skip by (rewrite m_Seq; apply startsWith_lit, H1).
    apply IH; assumption.
Qed.

Lemma startsWith_app w : forall s t, startsWith w s = true -> startsWith w (s ++ t) = true.
Proof.
  induction w as [|a w IH]; intros s t H; [reflexivity|].
  destruct s as [|c s]; [discriminate|]. cbn [startsWith app] in *.
  apply andb_prop in H as [H1 H2]. rewrite H1, (IH _ _ H2). reflexivity.
Qed.

Lemma includes_app w s t : includes w (s ++ t) = false -> includes w s = false.
Proof.
  induction s as [|c s IH]; cbn [includes app].
  - destruct w; [|reflexivity]. destruct t; discriminate.
  - intros H. apply orb_false_elim in H as [H1 H2].
    rewrite (IH H2), orb_false_r.
    destruct (startsWith w (c :: s)) eqn:E; [|reflexivity].
    apply (startsWith_app _ _ t) in E. cbn [app] in E. congruence.
Qed.

(** [trimEnd] and the text before the last line. *)
Lemma trimEnd_app pre j :
  forallb isSpace j = false -> trimEnd (pre ++ j) = pre ++ trimEnd j.
Proof.
  intros Hj. induction pre as [|c pre IH]; [reflexivity|].
  cbn [app]. rewrite trimEnd_unfold, IH. cbn [forallb].
  rewrite forallb_app, Hj, andb_false_r, andb_false_r. reflexivity.
Qed.

Lemma trimEnd_spaces j : forallb isSpace j = false -> forallb isSpace (trimEnd j) = false.
Proof.
  induction j as [|c j IH]; [discriminate|]. intros H. rewrite trimEnd_unfold, H.
  cbn [forallb] in *. destruct (isSpace c); [|reflexivity]. cbn [andb] in *.
  apply IH, H.
Qed.

Lemma dropSpaces_trimEnd s : dropSpaces (trimEnd s) = trimEnd (dropSpaces s).
Proof.
  induction s as [|c s IH]; [reflexivity|]. rewrite trimEnd_unfold.
  cbn [forallb dropSpaces]. destruct (isSpace c) eqn:Ec; cbn [andb].
  - destruct (forallb isSpace s) eqn:Es.
    + rewrite (dropSpaces_all s Es). reflexivity.
    + cbn [dropSpaces]. rewrite Ec. exact IH.
  - cbn [dropSpaces]. rewrite Ec, trimEnd_unfold. cbn [forallb]. rewrite Ec.
    reflexivity.
Qed.

Lemma trimEnd_idem s : trimEnd (trimEnd s) = trimEnd s.
Proof. unfold trimEnd. rewrite rev_involutive, dropSpaces_idem. reflexivity. Qed.

Lemma trim_trimEnd s : trim (trimEnd s) = trim s.
Proof.
  unfold trim, trimStart. rewrite dropSpaces_trimEnd. apply trimEnd_idem.
Qed.

Lemma forallb_trimEnd (p : char -> bool) s :
  forallb p s = true -> forallb p (trimEnd s) = true.
Proof.
  intros H. unfold trimEnd. rewrite forallb_rev. apply dropSpaces_forallb.
  rewrite forallb_rev. exact H.
Qed.

Lemma isLine_trimEnd j : isLine j = true -> isLine (trimEnd j) = true.
Proof.
  unfold isLine. intros H. apply andb_prop in H as [H1 H2].
  apply negb_true_iff in H2.
  rewrite forallb_trimEnd by exact H1. rewrite trimEnd_spaces by exact H2.
  reflexivity.
Qed.

Lemma replaceAll_none r rep s : searchFrom r 0 s = None -> replaceAll r rep s = s.
Proof. intros H. unfold replaceAll. cbn [replaceFrom]. rewrite H. reflexivity. Qed.

Lemma fence_none text :
  forallb noTick text = true -> replaceAll Legacy.fenceRe [] text = text.
Proof.
  intros H. apply replaceAll_none.
  apply (searchFrom_none _ (N.eqb 96)); [reflexivity|exact H].
Qed.

(** A score pattern of the earlier parser read at its label, before the
    end of the line. *)
Lemma legacy_score_match label denominator ds s n :
  isNumeral ds = true ->
  exists e,
    m (Legacy.scoreRe label denominator) final
      (n, (codes label ++ codes " Score:") ++ [32] ++ ds ++ nl ++ s) []
    = Some ((e, nl ++ s), [(1%nat, ds)]).
Proof.
  intros Hds. destruct (isNumeral_cons _ Hds) as (d & ds' & -> & Hd & Hds').
  eexists. unfold Legacy.scoreRe, Plus.
  rewrite m_Seq, m_lit_app, m_Seq.
  apply (m_Star_greedy_run isSpace [32]); [reflexivity| |].
  { cbn [app stops]. rewrite isDigit_not_space by exact Hd. reflexivity. }
  rewrite m_Seq, m_Grp, m_Seq. cbn [app]. unfold digit at 1. rewrite m_Cls_cons, Hd.
  apply (m_Star_greedy_run isDigit ds'); [exact Hds'|reflexivity|].
  unfold Opt. rewrite m_Alt. change (nl ++ s) with (10 :: s).
  change (codes "/" ++ codes denominator) with (47 :: codes denominator).
  rewrite m_lit_reject by reflexivity.
  change (m Eps ?k ?st ?cs) with (k st cs).
  unfold final. cbn [fst snd]. do 4 f_equal.
  match goal with |- take ?k _ = _ => replace k with (length (d :: ds')) end.
  - change (d :: ds' ++ ?x) with ((d :: ds') ++ x). apply take_app_length.
  - cbn [length]. lia.
Qed.

Lemma lookLine_ok : lookahead_ok Legacy.lookLine.
Proof.
  split.
  - intros n c t cs Hc. rewrite N.eqb_sym in Hc. unfold Legacy.lookLine.
    change nl with [10]. rewrite m_Alt, m_lit_reject by exact Hc. reflexivity.
  - intros n cs. reflexivity.
Qed.

Lemma legacy_just_match sp body n :
  forallb isSpace sp = true -> startsNonSpace body = true ->
  forallb (fun c => negb (c =? 10)) body = true ->
  exists e,
    m Legacy.justRe final (n, codes "Justification:" ++ sp ++ body) []
    = Some ((e, []), [(1%nat, body)]).
Proof.
  destruct lookLine_ok as [Hfail Hend]. intros Hsp Hb Hnl.
  destruct body as [|b bs]; [discriminate|].
  eexists. unfold Legacy.justRe, Plus.
  rewrite m_Seq, m_lit_app, m_Seq.
  apply (m_Star_greedy_run isSpace sp); [exact Hsp|exact Hb|].
  rewrite m_Seq, m_Grp, m_Seq. unfold any at 1. rewrite m_Cls_cons. cbv iota.
  rewrite <- (app_nil_r bs) at 1.
  cbn [forallb] in Hnl. apply andb_prop in Hnl as [_ Hnl].
  apply m_Star_lazy_run.
  - intros c Hc n' t cs'. rewrite m_Ahead, Hfail; [reflexivity|].
    rewrite forallb_forall in Hnl. apply negb_true_iff, Hnl, Hc.
  - rewrite m_Ahead, Hend. unfold final. cbn [fst snd]. do 4 f_equal.
    match goal with |- take ?k _ = _ => replace k with (length (b :: bs)) end.
    + apply firstn_all.
    + cbn [length]. lia.
Qed.

Lemma searchFrom_noStart_lit w r pre : forall n s,
  noStart w pre = true ->
  searchFrom (Seq (lit w) r) n (pre ++ s)
  = searchFrom (Seq (lit w) r) (n + length pre) s.
Proof.
  induction pre as [|c pre IH]; intros n s H; cbn [app length noStart] in *.
  - rewrite Nat.add_0_r. reflexivity.
  - apply andb_prop in H as [Hc H].
    rewrite searchFrom_skip.
    + rewrite IH by exact H. f_equal. lia.
    + rewrite m_Seq. change (c :: pre ++ s) with ((c :: pre) ++ s).
      apply m_lit_clash. exact Hc.
Qed.

Lemma legacy_exec_score label denominator pre ds s :
  noStart (codes label ++ codes " Score:") pre = true -> isNumeral ds = true ->
  exists res,
    exec (Legacy.scoreRe label denominator)
      (pre ++ (codes label ++ codes " Score:") ++ [32] ++ ds ++ nl ++ s) = Some res
    /\ group_of 1 res = ds.
Proof.
  intros Hpre Hds.
  destruct (legacy_score_match label denominator ds s (0 + length pre) Hds) as [e He].
  eexists. split.
  - unfold exec. unfold Legacy.scoreRe at 1.
    rewrite searchFrom_noStart_lit by exact Hpre.
    apply searchFrom_hit. exact He.
  - reflexivity.
Qed.

Lemma legacy_exec_just pre j :
  noStart (codes "Justification:") pre = true -> isLine j = true ->
  exists res,
    exec Legacy.justRe (pre ++ codes "Justification:" ++ [32] ++ j) = Some res
    /\ trim (group_of 1 res) = trim j.
Proof.
  intros Hpre Hj. destruct (isLine_parts j Hj) as (Hnl & _ & _ & Hsp).
  destruct (legacy_just_match (32 :: takeSpaces j) (dropSpaces j) (0 + length pre))
    as [e He].
  { cbn [forallb]. rewrite takeSpaces_spaces. reflexivity. }
  { apply dropSpaces_nonspace, Hsp. }
  { apply dropSpaces_forallb, Hnl. }
  cbn [app] in He. rewrite takeSpaces_dropSpaces in He.
  eexists. split.
  - unfold exec. unfold Legacy.justRe at 1.
    rewrite searchFrom_noStart_lit by exact Hpre.
    apply searchFrom_hit. exact He.
  - unfold group_of. cbn. apply trim_dropSpaces.
Qed.

Lemma plainForm_trim c t l f j :
  isLine j = true -> trim (plainForm c t l f j) = plainForm c t l f (trimEnd j).
Proof.
  intros Hj. destruct (isLine_parts j Hj) as (_ & _ & _ & Hsp).
  unfold trim, trimStart. unfold plainForm at 1.
  change (dropSpaces (codes "Context Score: " ++ ?x))
    with (codes "Context Score: " ++ x).
  unfold plainForm. rewrite !app_assoc. apply trimEnd_app, Hsp.
Qed.

Lemma emphasizedForm_trim c t l f j :
  isLine j = true ->
  trim (emphasizedForm c t l f j) = emphasizedForm c t l f (trimEnd j).
Proof.
  intros Hj. destruct (isLine_parts j Hj) as (_ & _ & _ & Hsp).
  unfold trim, trimStart. unfold emphasizedForm at 1.
  change (dropSpaces (codes "**Context Score:** " ++ ?x))
    with (codes "**Context Score:** " ++ x).
  unfold emphasizedForm. rewrite !app_assoc. apply trimEnd_app, Hsp.
Qed.



Lemma trimEnd_prefix s : exists rest, s = trimEnd s ++ rest.
Proof.
  induction s as [|c s [rest IH]]; [exists []; reflexivity|].
  rewrite trimEnd_unfold. destruct (forallb isSpace (c :: s)).
  - exists (c :: s). reflexivity.
  - exists rest. cbn [app]. rewrite <- IH. reflexivity.
Qed.

Lemma digits_noC ds :
  forallb isDigit ds = true -> forallb (fun c => negb (67 =? c)) ds = true.
Proof. apply (digits_reject (N.eqb 67)). reflexivity. Qed.

(** The context pattern of the earlier parser finds nothing in a response
    with emphasized labels. *)
Lemma legacy_context_none c t l f j :
  forallb isDigit c = true -> forallb isDigit t = true ->
  forallb isDigit l = true -> forallb isDigit f = true ->
  includes (codes "Context Score:") j = false ->
  exec (Legacy.scoreRe "Context" "300") (emphasizedForm c t l f j) = None.
Proof.
  intros Hc Ht Hl Hf Hj. unfold exec, emphasizedForm.
  set (r := Legacy.scoreRe "Context" "300").
  assert (firstp r = Some (N.eqb 67)) as Hp by reflexivity.
  change (codes "**Context Score:** " ++ ?x)
    with (codes "**" ++ 67 :: codes "ontext Score:** " ++ x).
  change (codes "**Clarity Score:** " ++ ?x)
    with (codes "**" ++ 67 :: codes "larity Score:** " ++ x).
  rewrite (searchFrom_skip_run r _ (codes "**") _ _ Hp) by reflexivity.
  rewrite searchFrom_skip.
  2:{ subst r. unfold Legacy.scoreRe.
      change (67 :: codes "ontext Score:** " ++ ?x)
        with ((codes "Context" ++ codes " Score:") ++ 42 :: 42 :: 32 :: x).
      rewrite m_Seq, m_lit_app, m_Seq, m_Star, star_greedy_S.
      unfold space at 1. rewrite m_Cls_cons.
      change (isSpace 42) with false. cbv iota.
      apply (firstp_reject _ isDigit); reflexivity. }
  repeat (rewrite (searchFrom_skip_run r (N.eqb 67));
          [|exact Hp|first [reflexivity|apply digits_noC; assumption]]).
  rewrite searchFrom_skip.
  2:{ subst r. unfold Legacy.scoreRe. rewrite m_Seq.
      apply (m_lit_clash _ [67; 108]). reflexivity. }
  repeat (rewrite (searchFrom_skip_run r (N.eqb 67));
          [|exact Hp|first [reflexivity|apply digits_noC; assumption]]).
  subst r. unfold Legacy.scoreRe. apply includes_searchFrom; [discriminate|exact Hj].
Qed.



End LegacyFacts.
